(** * gunshot: gesture classifier, trigger edge detector and target registry

    A shallow embedding of [js/hand-tracking.js] (class [HandTracker]), of
    the game core (class [Game]), of the particle system and the streak
    display of [js/effects.js], of the volume control of [js/audio.js] and
    of the wiring of [main.js], for the gunshot AR shooter.

    JavaScript numbers are IEEE 754 binary64 values: they are modelled by
    Rocq's primitive [float], whose [+ - * / sqrt] and comparisons are the
    same correctly rounded operations.  Numbers that the program only ever
    uses as integers (counters, scores, [Date.now()] timestamps) are [Z];
    they are exact in binary64 below 2^53, far above what a session reaches.

    In the game object, DOM updates, three.js meshes, particles and the
    laser line are presentation only and are left out; calls to the audio
    manager are kept as a log because the lock notification is part of the
    behaviour.  The particle system and the streak display are modelled on
    their own. *)

From stdpp Require Import base option list.
From Stdlib Require Import ZArith Lia Floats.

Set Warnings "-inexact-float".

(* ------------------------------------------------------------------ *)
(** ** JavaScript numbers *)

Module JS.

Abbreviation number := float.

(** An integer-valued number as a binary64 value (exact below 2^53). *)
Definition ofZ (z : Z) : number :=
  match z with
  | Z0 => 0%float
  | Zpos _ => PrimFloat.of_uint63 (Uint63.of_Z z)
  | Zneg p => (- PrimFloat.of_uint63 (Uint63.of_Z (Zpos p)))%float
  end.

(** [a < b] and [a > b] are false as soon as one side is NaN. *)
Definition lt (a b : number) : bool := (a <? b)%float.
Definition gt (a b : number) : bool := (b <? a)%float.

(** The integer [floor (v / 2^k + 1/2)] for the finite value [±m * 2^e]. *)
Definition signed (s : bool) (m : positive) : Z := if s then Zneg m else Zpos m.

Definition floorSF (s : bool) (m : positive) (e : Z) : Z :=
  if (0 <=? e)%Z then signed s m * 2 ^ e else signed s m / 2 ^ (- e).

Definition roundSF (s : bool) (m : positive) (e : Z) : Z :=
  if (0 <=? e)%Z then signed s m * 2 ^ e
  else (2 * signed s m + 2 ^ (- e)) / 2 ^ (- e + 1).

(** [Math.round]: nearest integer, ties towards +infinity.  A finite value
    with a non-negative exponent is an integer already; NaN, infinities and
    zeros are returned unchanged.  (The sign of a zero result is not kept;
    it does not show in any text the program prints.) *)
Definition Math_round (x : number) : number :=
  match Prim2SF x with
  | S754_finite s m e => if (0 <=? e)%Z then x else ofZ (roundSF s m e)
  | _ => x
  end.

(** [Math.floor]. *)
Definition Math_floor (x : number) : number :=
  match Prim2SF x with
  | S754_finite s m e => if (0 <=? e)%Z then x else ofZ (floorSF s m e)
  | _ => x
  end.

(** [Math.min] and [Math.max]: NaN if an argument is NaN, and -0 below +0. *)
Definition Math_min (a b : number) : number :=
  if is_nan a || is_nan b then nan
  else if (a <? b)%float then a
  else if (b <? a)%float then b
  else if get_sign a then a else b.

Definition Math_max (a b : number) : number :=
  if is_nan a || is_nan b then nan
  else if (a <? b)%float then b
  else if (b <? a)%float then a
  else if get_sign a then b else a.

(** [arr[i]] for a number [i]: an element when [i] is a non-negative integer
    below the length, [undefined] ([None]) otherwise. *)
Definition index {A} (arr : list A) (i : number) : option A :=
  match Prim2SF i with
  | S754_zero _ => arr !! 0%nat
  | S754_finite false m e =>
      if (0 <=? e)%Z then arr !! Z.to_nat (Zpos m * 2 ^ e)
      else if (Zpos m mod 2 ^ (- e) =? 0)%Z then arr !! Z.to_nat (Zpos m / 2 ^ (- e))
      else None
  | _ => None
  end.

(** [v || 0] for an optional numeric property: [undefined], NaN and the
    zeros are falsy. *)
Definition orZero (v : option number) : number :=
  match v with
  | Some z => if is_nan z || is_zero z then 0%float else z
  | None => 0%float
  end.

End JS.

(* ------------------------------------------------------------------ *)
(** ** Magnitudes of binary64 numbers *)

Module Binary64.




End Binary64.

(* ------------------------------------------------------------------ *)
(** ** hand-tracking.js: class HandTracker *)

Module HandTracker.

Import JS.

(** One of the 21 landmarks of a hand; the depth [z] may be absent. *)
Record Landmark := mkLandmark { x : number; y : number; z : option number }.

Record Point := mkPoint { px : number; py : number }.

(** [this.gestureState] *)
Record GestureState := mkGestureState {
  isGunPose : bool;
  isThumbUp : bool;
  fingerTip : Point;
  confidence : number;
  landmarks : option (list Landmark)
}.

Record Tracker := mkTracker {
  gestureState : GestureState;
  smoothingFactor : number;
  smoothedPosition : Point
}.

(** The state the constructor builds. *)
Definition new : Tracker :=
  {| gestureState :=
       {| isGunPose := false; isThumbUp := false;
          fingerTip := mkPoint 0.5 0.5; confidence := 0; landmarks := None |};
     smoothingFactor := 0.4;
     smoothedPosition := mkPoint 0.5 0.5 |}.

(** [results.multiHandLandmarks]: absent, or one landmark array per hand. *)
Definition Results := option (list (list Landmark)).

(** The callbacks [processResults] invokes on its owner. *)
Inductive Callback :=
| TrackingLost
| GestureUpdate (gs : GestureState) (lms : list Landmark).

(** [processResults] returns after its callbacks, or a property access on a
    missing landmark throws a TypeError with the state as mutated so far. *)
Inductive Outcome :=
| Ok (t : Tracker) (cb : Callback)
| Throw (t : Tracker).

(** [distance(p1, p2)] *)
Definition distance (p1 p2 : Landmark) : number :=
  let dx := (x p1 - x p2)%float in
  let dy := (y p1 - y p2)%float in
  let dz := (orZero (z p1) - orZero (z p2))%float in
  sqrt (dx * dx + dy * dy + dz * dz)%float.

(** What the geometry part of [processResults] computes from a frame. *)
Record Verdict := mkVerdict {
  indexExtended : bool;
  middleFolded : bool;
  ringFolded : bool;
  pinkyFolded : bool;
  thumbUp : bool;
  rawX : number;
  rawY : number
}.

Definition b2n (b : bool) : nat := if b then 1 else 0.

Definition othersFolded (v : Verdict) : nat :=
  b2n (middleFolded v) + b2n (ringFolded v) + b2n (pinkyFolded v).

Definition analyse (lm : list Landmark) : option Verdict :=
  wrist ← lm !! 0%nat;
  thumbTip ← lm !! 4%nat;
  thumbIp ← lm !! 3%nat;
  thumbMcp ← lm !! 2%nat;
  indexTip ← lm !! 8%nat;
  indexPip ← lm !! 6%nat;
  indexMcp ← lm !! 5%nat;
  middleTip ← lm !! 12%nat;
  middlePip ← lm !! 10%nat;
  ringTip ← lm !! 16%nat;
  ringPip ← lm !! 14%nat;
  pinkyTip ← lm !! 20%nat;
  pinkyPip ← lm !! 18%nat;
  let indexCurl := (distance indexTip indexPip / distance indexPip indexMcp)%float in
  let middleCurl := (distance middleTip wrist / distance middlePip wrist)%float in
  let ringCurl := (distance ringTip wrist / distance ringPip wrist)%float in
  let pinkyCurl := (distance pinkyTip wrist / distance pinkyPip wrist)%float in
  Some {| indexExtended := gt indexCurl 0.8 && lt (y indexTip) (y indexPip);
          middleFolded := lt middleCurl 1.3 || gt (y middleTip) (y middlePip);
          ringFolded := lt ringCurl 1.3 || gt (y ringTip) (y ringPip);
          pinkyFolded := lt pinkyCurl 1.3 || gt (y pinkyTip) (y pinkyPip);
          thumbUp := lt (y thumbTip) (y thumbIp - 0.02)%float;
          rawX := (1 - x indexTip)%float;
          rawY := y indexTip |}.

(** [let confidence = 0; if (...) confidence += ...] *)
Definition confidenceOf (v : Verdict) : number :=
  let c := 0%float in
  let c := if indexExtended v then (c + 0.4)%float else c in
  let c := if middleFolded v then (c + 0.2)%float else c in
  let c := if ringFolded v then (c + 0.2)%float else c in
  let c := if pinkyFolded v then (c + 0.2)%float else c in
  c.

(** [smoothed += (raw - smoothed) * factor] on both coordinates. *)
Definition smooth (factor : number) (p : Point) (rx ry : number) : Point :=
  {| px := (px p + (rx - px p) * factor)%float;
     py := (py p + (ry - py p) * factor)%float |}.

Definition setLandmarks (t : Tracker) (l : option (list Landmark)) : Tracker :=
  let g := gestureState t in
  {| gestureState :=
       {| isGunPose := isGunPose g; isThumbUp := isThumbUp g;
          fingerTip := fingerTip g; confidence := confidence g; landmarks := l |};
     smoothingFactor := smoothingFactor t;
     smoothedPosition := smoothedPosition t |}.

(** The branch taken when no hand was detected: three fields of the existing
    gesture state object are overwritten, then [onTrackingLost()] is called. *)
Definition lost (t : Tracker) : Tracker :=
  let g := gestureState t in
  {| gestureState :=
       {| isGunPose := false; isThumbUp := isThumbUp g;
          fingerTip := fingerTip g; confidence := 0; landmarks := None |};
     smoothingFactor := smoothingFactor t;
     smoothedPosition := smoothedPosition t |}.

Definition processResults (t : Tracker) (results : Results) : Outcome :=
  match results with
  | None | Some [] => Ok (lost t) TrackingLost
  | Some (lm :: _) =>
      let t1 := setLandmarks t (Some lm) in
      match analyse lm with
      | None => Throw t1
      | Some v =>
          let isGun := indexExtended v && (2 <=? othersFolded v)%nat in
          let sp := smooth (smoothingFactor t1) (smoothedPosition t1) (rawX v) (rawY v) in
          let gs := {| isGunPose := isGun; isThumbUp := thumbUp v;
                       fingerTip := sp; confidence := confidenceOf v;
                       landmarks := Some lm |} in
          Ok {| gestureState := gs;
                smoothingFactor := smoothingFactor t1;
                smoothedPosition := sp |}
             (GestureUpdate gs lm)
      end
  end.

End HandTracker.

(* ------------------------------------------------------------------ *)
(** ** game core: class Game *)

Module Game.

Import JS.

(** What the browser and three.js supply.  [random] and [clock] list the
    values that successive calls of [Math.random()] and [Date.now()] return;
    [project x y z] is [Vector3.project] through the game's camera, reduced
    to the two normalised device coordinates the game reads. *)
Record Host := mkHost {
  random : nat -> number;
  clock : nat -> Z;
  Math_sin : number -> number;
  Math_cos : number -> number;
  project : number -> number -> number -> number * number;
  innerWidth : number;
  innerHeight : number
}.

Definition Math_PI : number := 3.141592653589793%float.

(** [this.discConfig], [this.magnetConfig], [this.smoothing] and the two
    durations kept in [this.state]; none is ever assigned after the
    constructor. *)
Definition maxCount : nat := 4.
Definition colors : list Z := [0x00f5ff; 0xff00ff; 0x00ff88; 0xff6600; 0xffaa00]%Z.
Definition minX : number := (-4)%float.
Definition maxX : number := 4%float.
Definition minY : number := (-2.5)%float.
Definition maxY : number := 2.5%float.
Definition floatSpeed : number := 0.008%float.
Definition lifeTime : Z := 8000.
Definition range : number := 120%float.
Definition strength : number := 0.6%float.
Definition smoothing : number := 0.12%float.
Definition comboTimeout : Z := 2000.
Definition shootCooldown : Z := 200.

(** A disc mesh: its [position] (z is always 0) and its [userData].  A colour
    is [None] when the colour table was indexed out of range. *)
Record Disc := mkDisc {
  posX : number;
  posY : number;
  velX : number;
  velY : number;
  rotationSpeed : number;
  floatPhase : number;
  floatAmplitude : number;
  floatFrequency : number;
  originX : number;
  originY : number;
  color : option Z;
  points : Z;
  createdAt : Z;
  scale : number
}.

(** Disc objects live in a store and are named by reference; [discs] is the
    array [this.discs].  The store also counts the calls made so far to
    [Math.random()] and [Date.now()]. *)
Abbreviation ref := nat.

Record Registry := mkRegistry {
  heap : list Disc;
  discs : list ref;
  nrand : nat;
  nclock : nat
}.

Definition M (A : Type) : Type := Registry -> A * Registry.

Definition ret {A} (a : A) : M A := fun r => (a, r).

Definition bind {A B} (m : M A) (k : A -> M B) : M B :=
  fun r => let (a, r') := m r in k a r'.

Notation "'let*' x := m 'in' k" := (bind m (fun x => k))
  (at level 10, x name, m at level 100, k at level 200).
Notation "'do' m 'then' k" := (bind m (fun _ => k))
  (at level 10, m at level 100, k at level 200).

Definition exec {A} (m : M A) (r : Registry) : Registry := snd (m r).

(** [this.state] (without the two constant durations). *)
Record State := mkState {
  score : Z;
  combo : Z;
  maxCombo : Z;
  hits : Z;
  shots : Z;
  lastHitTime : Z;
  crosshairX : number;
  crosshairY : number;
  targetX : number;
  targetY : number;
  isGunPose : bool;
  wasThumbUp : bool;
  isShooting : bool;
  lockedTarget : option ref;
  wasLocked : bool;
  running : bool
}.

(** Assignments [this.state.field = v]. *)
Definition set_score (v : Z) (s : State) : State :=
  mkState v (combo s) (maxCombo s) (hits s) (shots s) (lastHitTime s) (crosshairX s) (crosshairY s) (targetX s) (targetY s) (isGunPose s) (wasThumbUp s) (isShooting s) (lockedTarget s) (wasLocked s) (running s).
Definition set_combo (v : Z) (s : State) : State :=
  mkState (score s) v (maxCombo s) (hits s) (shots s) (lastHitTime s) (crosshairX s) (crosshairY s) (targetX s) (targetY s) (isGunPose s) (wasThumbUp s) (isShooting s) (lockedTarget s) (wasLocked s) (running s).
Definition set_maxCombo (v : Z) (s : State) : State :=
  mkState (score s) (combo s) v (hits s) (shots s) (lastHitTime s) (crosshairX s) (crosshairY s) (targetX s) (targetY s) (isGunPose s) (wasThumbUp s) (isShooting s) (lockedTarget s) (wasLocked s) (running s).
Definition set_hits (v : Z) (s : State) : State :=
  mkState (score s) (combo s) (maxCombo s) v (shots s) (lastHitTime s) (crosshairX s) (crosshairY s) (targetX s) (targetY s) (isGunPose s) (wasThumbUp s) (isShooting s) (lockedTarget s) (wasLocked s) (running s).
Definition set_shots (v : Z) (s : State) : State :=
  mkState (score s) (combo s) (maxCombo s) (hits s) v (lastHitTime s) (crosshairX s) (crosshairY s) (targetX s) (targetY s) (isGunPose s) (wasThumbUp s) (isShooting s) (lockedTarget s) (wasLocked s) (running s).
Definition set_lastHitTime (v : Z) (s : State) : State :=
  mkState (score s) (combo s) (maxCombo s) (hits s) (shots s) v (crosshairX s) (crosshairY s) (targetX s) (targetY s) (isGunPose s) (wasThumbUp s) (isShooting s) (lockedTarget s) (wasLocked s) (running s).
Definition set_crosshairX (v : number) (s : State) : State :=
  mkState (score s) (combo s) (maxCombo s) (hits s) (shots s) (lastHitTime s) v (crosshairY s) (targetX s) (targetY s) (isGunPose s) (wasThumbUp s) (isShooting s) (lockedTarget s) (wasLocked s) (running s).
Definition set_crosshairY (v : number) (s : State) : State :=
  mkState (score s) (combo s) (maxCombo s) (hits s) (shots s) (lastHitTime s) (crosshairX s) v (targetX s) (targetY s) (isGunPose s) (wasThumbUp s) (isShooting s) (lockedTarget s) (wasLocked s) (running s).
Definition set_targetX (v : number) (s : State) : State :=
  mkState (score s) (combo s) (maxCombo s) (hits s) (shots s) (lastHitTime s) (crosshairX s) (crosshairY s) v (targetY s) (isGunPose s) (wasThumbUp s) (isShooting s) (lockedTarget s) (wasLocked s) (running s).
Definition set_targetY (v : number) (s : State) : State :=
  mkState (score s) (combo s) (maxCombo s) (hits s) (shots s) (lastHitTime s) (crosshairX s) (crosshairY s) (targetX s) v (isGunPose s) (wasThumbUp s) (isShooting s) (lockedTarget s) (wasLocked s) (running s).
Definition set_isGunPose (v : bool) (s : State) : State :=
  mkState (score s) (combo s) (maxCombo s) (hits s) (shots s) (lastHitTime s) (crosshairX s) (crosshairY s) (targetX s) (targetY s) v (wasThumbUp s) (isShooting s) (lockedTarget s) (wasLocked s) (running s).
Definition set_wasThumbUp (v : bool) (s : State) : State :=
  mkState (score s) (combo s) (maxCombo s) (hits s) (shots s) (lastHitTime s) (crosshairX s) (crosshairY s) (targetX s) (targetY s) (isGunPose s) v (isShooting s) (lockedTarget s) (wasLocked s) (running s).
Definition set_isShooting (v : bool) (s : State) : State :=
  mkState (score s) (combo s) (maxCombo s) (hits s) (shots s) (lastHitTime s) (crosshairX s) (crosshairY s) (targetX s) (targetY s) (isGunPose s) (wasThumbUp s) v (lockedTarget s) (wasLocked s) (running s).
Definition set_lockedTarget (v : option ref) (s : State) : State :=
  mkState (score s) (combo s) (maxCombo s) (hits s) (shots s) (lastHitTime s) (crosshairX s) (crosshairY s) (targetX s) (targetY s) (isGunPose s) (wasThumbUp s) (isShooting s) v (wasLocked s) (running s).
Definition set_wasLocked (v : bool) (s : State) : State :=
  mkState (score s) (combo s) (maxCombo s) (hits s) (shots s) (lastHitTime s) (crosshairX s) (crosshairY s) (targetX s) (targetY s) (isGunPose s) (wasThumbUp s) (isShooting s) (lockedTarget s) v (running s).
Definition set_running (v : bool) (s : State) : State :=
  mkState (score s) (combo s) (maxCombo s) (hits s) (shots s) (lastHitTime s) (crosshairX s) (crosshairY s) (targetX s) (targetY s) (isGunPose s) (wasThumbUp s) (isShooting s) (lockedTarget s) (wasLocked s) v.

(** Callbacks waiting in the browser: [setTimeout] timers (with their delay
    in ms) and the [requestAnimationFrame] callback. *)
Inductive Task :=
| SpawnTimer (delay : Z)
| RespawnTimer (delay : Z)
| CooldownTimer (delay : Z)
| AnimationFrame.

(** Calls to [audioManager]. *)
Inductive Sound :=
| PlayShoot
| PlayHit
| PlayPerfectHit
| PlayMiss
| PlayCombo (level : Z)
| PlayLock.

(** The game object.  [sounds] logs the audio calls in order; [accuracy] is
    the number last written into the accuracy display, [None] while the
    page still shows its initial text. *)
Record Game := mkGame {
  state : State;
  reg : Registry;
  tasks : list Task;
  sounds : list Sound;
  accuracy : option number
}.

(** Replace one component of the game object. *)
Definition with_state (v : State) (g : Game) : Game :=
  mkGame v (reg g) (tasks g) (sounds g) (accuracy g).
Definition with_reg (v : Registry) (g : Game) : Game :=
  mkGame (state g) v (tasks g) (sounds g) (accuracy g).
Definition with_tasks (v : list Task) (g : Game) : Game :=
  mkGame (state g) (reg g) v (sounds g) (accuracy g).
Definition with_sounds (v : list Sound) (g : Game) : Game :=
  mkGame (state g) (reg g) (tasks g) v (accuracy g).
Definition with_accuracy (v : option number) (g : Game) : Game :=
  mkGame (state g) (reg g) (tasks g) (sounds g) v.

Section WithHost.

Context (H : Host).

Definition Math_random : M number :=
  fun r => (random H (nrand r), mkRegistry (heap r) (discs r) (S (nrand r)) (nclock r)).

Definition Date_now : M Z :=
  fun r => (clock H (nclock r), mkRegistry (heap r) (discs r) (nrand r) (S (nclock r))).

(** [new THREE.Mesh(...)]: allocate a disc object, return its reference. *)
Definition alloc (d : Disc) : M ref :=
  fun r => (length (heap r), mkRegistry (heap r ++ [d]) (discs r) (nrand r) (nclock r)).

(** Assignments to properties of the disc object [i]. *)
Definition modify (i : ref) (f : Disc -> Disc) : M unit :=
  fun r => (tt, mkRegistry (alter f i (heap r)) (discs r) (nrand r) (nclock r)).

(** [this.discs.push(disc)] *)
Definition push (i : ref) : M unit :=
  fun r => (tt, mkRegistry (heap r) (discs r ++ [i]) (nrand r) (nclock r)).

Definition get : M Registry := fun r => (r, r).

(** [isPositionOccupied(x, y, minDistance = 1.5)] *)
Definition tooClose (px py : number) (d : Disc) : bool :=
  let dx := (posX d - px)%float in
  let dy := (posY d - py)%float in
  lt (sqrt (dx * dx + dy * dy)) 1.5.

Definition isPositionOccupied (r : Registry) (px py : number) : bool :=
  existsb (fun i => match heap r !! i with Some d => tooClose px py d | None => false end)
          (discs r).

(** The placement loop shared by [createDisc] and [repositionDisc]:
    [do { draw; attempts++ } while (occupied && attempts < 20)].
    [more] is the number of further attempts allowed after this one. *)
Fixpoint place (more : nat) : M (number * number) :=
  let* rx := Math_random in
  let* ry := Math_random in
  let px := (minX + rx * (maxX - minX))%float in
  let py := (minY + ry * (maxY - minY))%float in
  let* r := get in
  match more with
  | S n => if isPositionOccupied r px py then place n else ret (px, py)
  | O => ret (px, py)
  end.

Definition createDisc : M ref :=
  let* rc := Math_random in
  let colorIndex := Math_floor (rc * ofZ (Z.of_nat (length colors)))%float in
  let color := index colors colorIndex in
  let* p := place 19 in
  let* ra := Math_random in
  let angle := (ra * Math_PI * 2)%float in
  let* rs := Math_random in
  let* rp := Math_random in
  let* rA := Math_random in
  let* rf := Math_random in
  let* now := Date_now in
  let* disc := alloc {| posX := fst p; posY := snd p;
                   velX := (Math_cos H angle * floatSpeed)%float;
                   velY := (Math_sin H angle * floatSpeed)%float;
                   rotationSpeed := ((rs - 0.5) * 0.08)%float;
                   floatPhase := (rp * Math_PI * 2)%float;
                   floatAmplitude := (0.3 + rA * 0.2)%float;
                   floatFrequency := (0.5 + rf * 0.5)%float;
                   originX := fst p; originY := snd p;
                   color := color; points := 100;
                   createdAt := now; scale := 0.1 |} in
  do push disc then
  ret disc.

(** [repositionDisc(disc)]: the disc object keeps its slot in [this.discs];
    only these properties are assigned. *)
Definition relocated (p : number * number) (now : Z) (phase angle : number)
    (d : Disc) : Disc :=
  {| posX := posX d; posY := posY d;
     velX := (Math_cos H angle * floatSpeed)%float;
     velY := (Math_sin H angle * floatSpeed)%float;
     rotationSpeed := rotationSpeed d;
     floatPhase := phase;
     floatAmplitude := floatAmplitude d;
     floatFrequency := floatFrequency d;
     originX := fst p; originY := snd p;
     color := color d; points := points d;
     createdAt := now; scale := scale d |}.

Definition repositionDisc (disc : ref) : M unit :=
  let* p := place 19 in
  let* now := Date_now in
  let* rp := Math_random in
  let* ra := Math_random in
  modify disc (relocated p now (rp * Math_PI * 2)%float (ra * Math_PI * 2)%float).

(** [removeDisc(disc)]: [indexOf] finds the first slot holding the
    reference, [splice] removes that slot; nothing happens when absent. *)
Fixpoint removeFirst (i : ref) (l : list ref) : list ref :=
  match l with
  | [] => []
  | j :: l' => if Nat.eqb i j then l' else j :: removeFirst i l'
  end.

Definition removeDisc (disc : ref) : M unit :=
  fun r => (tt, mkRegistry (heap r) (removeFirst disc (discs r)) (nrand r) (nclock r)).

(** One iteration of the disc loop of [update()], up to the age test. *)
Definition bounceX (d : Disc) : Disc :=
  if lt (originX d) minX || gt (originX d) maxX then
    {| posX := posX d; posY := posY d;
       velX := (velX d * -1)%float; velY := velY d;
       rotationSpeed := rotationSpeed d; floatPhase := floatPhase d;
       floatAmplitude := floatAmplitude d; floatFrequency := floatFrequency d;
       originX := Math_max minX (Math_min maxX (originX d)); originY := originY d;
       color := color d; points := points d;
       createdAt := createdAt d; scale := scale d |}
  else d.

Definition bounceY (d : Disc) : Disc :=
  if lt (originY d) minY || gt (originY d) maxY then
    {| posX := posX d; posY := posY d;
       velX := velX d; velY := (velY d * -1)%float;
       rotationSpeed := rotationSpeed d; floatPhase := floatPhase d;
       floatAmplitude := floatAmplitude d; floatFrequency := floatFrequency d;
       originX := originX d; originY := Math_max minY (Math_min maxY (originY d));
       color := color d; points := points d;
       createdAt := createdAt d; scale := scale d |}
  else d.

Definition floatAndDrift (now : Z) (d : Disc) : Disc :=
  let scale' := if lt (scale d) 1 then Math_min 1 (scale d + 0.05)%float else scale d in
  let time := (ofZ now * 0.001)%float in
  let floatX := (Math_sin H (time * floatFrequency d + floatPhase d) * floatAmplitude d)%float in
  let floatY := (Math_cos H (time * floatFrequency d * 0.7 + floatPhase d)
                 * floatAmplitude d * 0.6)%float in
  {| posX := (originX d + floatX)%float; posY := (originY d + floatY)%float;
     velX := velX d; velY := velY d;
     rotationSpeed := rotationSpeed d; floatPhase := floatPhase d;
     floatAmplitude := floatAmplitude d; floatFrequency := floatFrequency d;
     originX := (originX d + velX d)%float; originY := (originY d + velY d)%float;
     color := color d; points := points d;
     createdAt := createdAt d; scale := scale' |}.

Definition moved (now : Z) (d : Disc) : Disc := bounceY (bounceX (floatAndDrift now d)).

(** The body of [for (const disc of this.discs)] in [update()].  Every
    reference in [this.discs] names an allocated disc, so the [None] branch
    is never taken. *)
Definition updateDisc (now : Z) (disc : ref) : M unit :=
  let* r := get in
  match heap r !! disc with
  | Some d =>
      do modify disc (moved now) then
      if (lifeTime <? now - createdAt d)%Z then repositionDisc disc else ret tt
  | None => ret tt
  end.

Fixpoint forEach (body : ref -> M unit) (l : list ref) : M unit :=
  match l with
  | [] => ret tt
  | i :: l' => do body i then forEach body l'
  end.

(** [while (this.discs.length < maxCount) this.createDisc()].  Every pass adds
    one disc, so [maxCount] passes are always enough. *)
Fixpoint topUp (fuel : nat) : M unit :=
  let* r := get in
  if (length (discs r) <? maxCount)%nat then
    match fuel with
    | S n => do createDisc then topUp n
    | O => ret tt
    end
  else ret tt.

(** The game object built by the constructor. *)
Definition new : Game :=
  {| state :=
       {| score := 0; combo := 1; maxCombo := 1; hits := 0; shots := 0;
          lastHitTime := 0;
          crosshairX := (innerWidth H / 2)%float;
          crosshairY := (innerHeight H / 2)%float;
          targetX := (innerWidth H / 2)%float;
          targetY := (innerHeight H / 2)%float;
          isGunPose := false; wasThumbUp := true; isShooting := false;
          lockedTarget := None; wasLocked := false; running := false |};
     reg := {| heap := []; discs := []; nrand := 0; nclock := 0 |};
     tasks := [];
     sounds := [];
     accuracy := None |}.

Definition play (snd : Sound) (g : Game) : Game := with_sounds (sounds g ++ [snd]) g.

Definition setTimeout (t : Task) (g : Game) : Game := with_tasks (tasks g ++ [t]) g.

(** Run registry code inside the game. *)
Definition inReg {A} (m : M A) (g : Game) : A * Game :=
  let (a, r) := m (reg g) in (a, with_reg r g).

(** The combo part of [hitTarget]: streak, time stamp, running maximum. *)
Definition countCombo (now : Z) (s : State) : State :=
  let timeSinceLastHit := (now - lastHitTime s)%Z in
  let s := if (timeSinceLastHit <? comboTimeout)%Z
           then set_combo (Z.min (combo s + 1) 10) s
           else set_combo 1 s in
  let s := set_lastHitTime now s in
  if (maxCombo s <? combo s)%Z then set_maxCombo (combo s) s else s.

(** The audio calls of [hitTarget] for the new combo value. *)
Definition hitSounds (c : Z) : list Sound :=
  (if (5 <=? c)%Z then [PlayPerfectHit] else [PlayHit])
  ++ (if (1 <? c)%Z then [PlayCombo c] else []).

(** [hitTarget(disc)] *)
Definition hitTarget (disc : ref) (g : Game) : Game :=
  let s := set_hits (hits (state g) + 1) (state g) in
  let (now, r) := Date_now (reg g) in
  let s := countCombo now s in
  let basePoints := match heap r !! disc with Some d => points d | None => 0%Z end in
  let totalPoints := (basePoints * combo s)%Z in
  let s := set_score (score s + totalPoints) s in
  let r := exec (removeDisc disc) r in
  {| state := set_lockedTarget None s;
     reg := r;
     tasks := tasks g ++ [RespawnTimer 300];
     sounds := sounds g ++ hitSounds (combo s);
     accuracy := accuracy g |}.

(** [miss()] *)
Definition miss (g : Game) : Game :=
  play PlayMiss (with_state (set_combo 1 (state g)) g).

(** [updateAccuracy()] *)
Definition updateAccuracy (g : Game) : Game :=
  if (shots (state g) =? 0)%Z then g
  else with_accuracy
         (Some (Math_round (ofZ (hits (state g)) / ofZ (shots (state g)) * 100)%float)) g.

(** [shoot()] *)
Definition shoot (g : Game) : Game :=
  if isShooting (state g) then g
  else
    let g := with_state (set_shots (shots (state g) + 1) (set_isShooting true (state g))) g in
    let g := play PlayShoot g in
    let g := match lockedTarget (state g) with
             | Some disc => hitTarget disc g
             | None => miss g
             end in
    setTimeout (CooldownTimer shootCooldown) (updateAccuracy g).

(** The trigger edge: thumb down now, up before, and no shot in progress. *)
Definition triggerEdge (isThumbUp : bool) (s : State) : bool :=
  negb isThumbUp && wasThumbUp s && negb (isShooting s).

(** [updateGesture(gestureState)] *)
Definition updateGesture (gs : HandTracker.GestureState) (g : Game) : Game :=
  let g := with_state (set_isGunPose (HandTracker.isGunPose gs) (state g)) g in
  if HandTracker.isGunPose gs then
    let tip := HandTracker.fingerTip gs in
    let g := with_state
               (set_targetY (HandTracker.py tip * innerHeight H)%float
                  (set_targetX (HandTracker.px tip * innerWidth H)%float (state g))) g in
    let g := if triggerEdge (HandTracker.isThumbUp gs) (state g) then shoot g else g in
    with_state (set_wasThumbUp (HandTracker.isThumbUp gs) (state g)) g
  else
    with_state (set_wasThumbUp true (state g)) g.

(** [onGestureLost()] *)
Definition onGestureLost (g : Game) : Game :=
  with_state (set_isGunPose false (state g)) g.

(** [worldToScreen(position)] for a disc position (z = 0). *)
Definition worldToScreen (d : Disc) : number * number :=
  let v := project H (posX d) (posY d) 0 in
  ((fst v + 1) / 2 * innerWidth H, (- snd v + 1) / 2 * innerHeight H)%float.

(** Screen distance from a disc to the raw aim point. *)
Definition screenDist (tx ty : number) (d : Disc) : number :=
  let sp := worldToScreen d in
  let dx := (fst sp - tx)%float in
  let dy := (snd sp - ty)%float in
  sqrt (dx * dx + dy * dy).

(** The first loop of [update()]: one pass over [this.discs] carrying
    [nearestDist] and [nearestDisc]. *)
Definition nearer (hp : list Disc) (tx ty : number)
    (best : number * option ref) (disc : ref) : number * option ref :=
  match hp !! disc with
  | Some d =>
      let dist := screenDist tx ty d in
      if lt dist (fst best) && lt dist range then (dist, Some disc) else best
  | None => best
  end.

Definition findNearest (hp : list Disc) (tx ty : number) (l : list ref)
    : number * option ref :=
  fold_left (nearer hp tx ty) l (infinity, None).

Definition magnetStrength (nearestDist : number) : number :=
  ((1 - nearestDist / range) * strength)%float.

(** The magnet part of [update()]: lock, notification and the aim point the
    crosshair is pulled to.  [nearestDisc] comes out of the search loop, which
    only records discs it has read, so [positionOf] always finds it. *)
Definition positionOf (hp : list Disc) (disc : ref) : number * number :=
  match hp !! disc with
  | Some d => worldToScreen d
  | None => (nan, nan)
  end.

Definition lockOn (disc : ref) (nearestDist : number) (g : Game)
    : Game * (number * number) :=
  let s := state g in
  let sp := positionOf (heap (reg g)) disc in
  let m := magnetStrength nearestDist in
  let finalX := (targetX s + (fst sp - targetX s) * m)%float in
  let finalY := (targetY s + (snd sp - targetY s) * m)%float in
  let g := with_state (set_lockedTarget (Some disc) s) g in
  let g :=
    if negb (wasLocked (state g))
    then with_state (set_wasLocked true (state g)) (play PlayLock g)
    else g in
  (g, (finalX, finalY)).

Definition release (g : Game) : Game * (number * number) :=
  let s := state g in
  let g := with_state (set_lockedTarget None s) g in
  let g := with_state (set_wasLocked false (state g)) g in
  (g, (targetX s, targetY s)).

Definition nearest (g : Game) : number * option ref :=
  findNearest (heap (reg g)) (targetX (state g)) (targetY (state g)) (discs (reg g)).

Definition aim (g : Game) : Game * (number * number) :=
  let (nearestDist, nearestDisc) := nearest g in
  match nearestDisc with
  | Some disc => if isGunPose (state g) then lockOn disc nearestDist g else release g
  | None => release g
  end.

(** [update()] *)
Definition update (g : Game) : Game :=
  let (g, final) := aim g in
  let s := state g in
  let s := set_crosshairX (crosshairX s + (fst final - crosshairX s) * smoothing)%float s in
  let s := set_crosshairY (crosshairY s + (snd final - crosshairY s) * smoothing)%float s in
  let g := with_state s g in
  let (now, g) := inReg Date_now g in
  let g := snd (inReg (forEach (updateDisc now) (discs (reg g))) g) in
  snd (inReg (topUp maxCount) g).

(** [gameLoop()]; the model of [update()] never throws, so the [catch]
    branch is not needed. *)
Definition gameLoop (g : Game) : Game :=
  if running (state g) then update (setTimeout AnimationFrame g) else g.

(** [start()] *)
Definition start (g : Game) : Game :=
  let g := with_state (set_running true (state g)) g in
  let g := fold_left (fun g i => setTimeout (SpawnTimer (Z.of_nat i * 400)) g)
                     (seq 0 maxCount) g in
  gameLoop g.

(** [pause()] and [resume()] *)
Definition pause (g : Game) : Game :=
  with_state (set_running false (state g)) g.

Definition resume (g : Game) : Game :=
  if running (state g) then g
  else gameLoop (with_state (set_running true (state g)) g).

(** What a waiting callback does when the browser runs it. *)
Definition runTask (t : Task) (g : Game) : Game :=
  match t with
  | SpawnTimer _ => snd (inReg createDisc g)
  | RespawnTimer _ =>
      if (length (discs (reg g)) <? maxCount)%nat then snd (inReg createDisc g) else g
  | CooldownTimer _ => with_state (set_isShooting false (state g)) g
  | AnimationFrame => gameLoop g
  end.

(** What can happen to the game: a call of one of the methods its owner
    invokes ([start], [pause], [resume], the two gesture callbacks), or the
    browser running the [n]-th waiting callback.  Timers may run in any
    order: their delays are kept but not compared. *)
Inductive Event :=
| Start
| Pause
| Resume
| Gesture (gs : HandTracker.GestureState)
| GestureLost
| Run (n : nat).

Definition step (g : Game) (e : Event) : Game :=
  match e with
  | Start => start g
  | Pause => pause g
  | Resume => resume g
  | Gesture gs => updateGesture gs g
  | GestureLost => onGestureLost g
  | Run n =>
      match tasks g !! n with
      | Some t => runTask t (with_tasks (delete n (tasks g)) g)
      | None => g
      end
  end.

Definition run (g : Game) (es : list Event) : Game := fold_left step es g.

(** The states of a session. *)
Inductive reachable : Game -> Prop :=
| reach_new : reachable new
| reach_step g e : reachable g -> reachable (step g e).

End WithHost.

End Game.

(* ------------------------------------------------------------------ *)
(** ** The classifier as the specification words it *)

Module ClassifierSpec.

(** Written from the specification's description of the classifier, on
    the landmark type of the tracker and with binary64 arithmetic; nothing
    here calls the tracker's code. *)

Abbreviation Landmark := HandTracker.Landmark.

(** Landmark [i] of a frame. *)
Definition at_ (f : list Landmark) (i : nat) : Landmark :=
  default (HandTracker.mkLandmark nan nan None) (f !! i).

(** The depth of a landmark is optional: an absent depth, and one that is
    NaN or zero, counts as 0. *)
Definition depth (l : Landmark) : JS.number :=
  match HandTracker.z l with
  | Some v => if is_nan v || is_zero v then 0%float else v
  | None => 0%float
  end.

(** Euclidean distance between two landmarks. *)
Definition dist (a b : Landmark) : JS.number :=
  sqrt ((HandTracker.x a - HandTracker.x b) * (HandTracker.x a - HandTracker.x b)
        + (HandTracker.y a - HandTracker.y b) * (HandTracker.y a - HandTracker.y b)
        + (depth a - depth b) * (depth a - depth b))%float.

(** Curl ratio of the aiming finger: distance(tip, first joint) over
    distance(first joint, base joint). *)
Definition indexCurl (f : list Landmark) : JS.number :=
  (dist (at_ f 8) (at_ f 6) / dist (at_ f 6) (at_ f 5))%float.






End ClassifierSpec.

(* ------------------------------------------------------------------ *)
(** ** Magnetic acquisition as the specification words it *)

Module MagnetSpec.

(** Written from the specification; nothing here calls the game's code.
    [Game.project] is the camera projection the browser supplies. *)

(** The screen position, in pixels, of a disc: the projection gives
    normalised device coordinates in [-1, 1], x to the right and y up; the
    window has its origin at the top left corner. *)
Definition screenPoint (H : Game.Host) (d : Game.Disc) : JS.number * JS.number :=
  let ndc := Game.project H (Game.posX d) (Game.posY d) 0 in
  (((fst ndc + 1) / 2 * Game.innerWidth H)%float,
   ((- snd ndc + 1) / 2 * Game.innerHeight H)%float).

(** Euclidean distance on the screen from a disc to the point [(tx, ty)]. *)
Definition aimDistance (H : Game.Host) (tx ty : JS.number) (d : Game.Disc) : JS.number :=
  let p := screenPoint H d in
  sqrt ((fst p - tx) * (fst p - tx) + (snd p - ty) * (snd p - ty))%float.

(** The blend strength at screen distance [dist]: linear in the distance,
    for a capture radius of 120 px and a maximal strength of 0.6. *)
Definition blend (dist : JS.number) : JS.number := ((1 - dist / 120) * 0.6)%float.

End MagnetSpec.

(* ------------------------------------------------------------------ *)
(** ** Sample inputs *)

Module Samples.

Import JS HandTracker.

Definition pt (px py : number) : Landmark := mkLandmark px py None.

(** A hand pointing up: index finger straight, the other three curled. *)
Definition pointingHand : list Landmark :=
  [ pt 0.50 0.90;                                            (* wrist *)
    pt 0.40 0.80; pt 0.35 0.70; pt 0.32 0.62; pt 0.30 0.55;  (* thumb *)
    pt 0.45 0.60; pt 0.45 0.50; pt 0.45 0.40; pt 0.45 0.30;  (* index *)
    pt 0.50 0.60; pt 0.50 0.55; pt 0.50 0.60; pt 0.50 0.65;  (* middle *)
    pt 0.55 0.62; pt 0.55 0.58; pt 0.55 0.63; pt 0.55 0.68;  (* ring *)
    pt 0.60 0.65; pt 0.60 0.62; pt 0.60 0.66; pt 0.60 0.70 ] (* pinky *).



(** A sine and a cosine for the examples: the argument is reduced to
    [-pi, pi] and the Taylor polynomial of degree 21 is evaluated; the
    result is within 1e-10 of the true value. *)
Definition reduce (a : number) : number :=
  (a - 6.283185307179586 * Math_floor (a / 6.283185307179586 + 0.5))%float.

Definition sinPoly (a : number) : number :=
  let q := (a * a)%float in
  (a * (1 - q / 6 * (1 - q / 20 * (1 - q / 42 * (1 - q / 72 * (1 - q / 110 *
        (1 - q / 156 * (1 - q / 210 * (1 - q / 272 * (1 - q / 342 *
        (1 - q / 420)))))))))))%float.

Definition sine (a : number) : number := sinPoly (reduce a).
Definition cosine (a : number) : number := sinPoly (reduce (a + 1.5707963267948966)%float).

(** A browser for the examples: every random draw is 0.5, the clock
    advances 16 ms per reading, and the camera maps the world rectangle
    linearly onto a 1280 x 720 window. *)
Definition sampleHost : Game.Host :=
  {| Game.random := fun _ => 0.5%float;
     Game.clock := fun n => (1000000 + 16 * Z.of_nat n)%Z;
     Game.Math_sin := sine;
     Game.Math_cos := cosine;
     Game.project := fun px py _ => (px / 8, py / 5)%float;
     Game.innerWidth := 1280%float;
     Game.innerHeight := 720%float |}.

(** The same browser with clock readings 3 seconds apart. *)
Definition slowHost : Game.Host :=
  {| Game.random := fun _ => 0.5%float;
     Game.clock := fun n => (1000000 + 3000 * Z.of_nat n)%Z;
     Game.Math_sin := sine;
     Game.Math_cos := cosine;
     Game.project := fun px py _ => (px / 8, py / 5)%float;
     Game.innerWidth := 1280%float;
     Game.innerHeight := 720%float |}.

(** A browser whose random draws differ from call to call (a fixed
    sequence of fractions with denominator 101), so that the discs lie
    apart. *)
Definition variedHost : Game.Host :=
  {| Game.random := fun n => (ofZ ((Z.of_nat n * 37 + 11) mod 101) / 101)%float;
     Game.clock := fun n => (1000000 + 16 * Z.of_nat n)%Z;
     Game.Math_sin := sine;
     Game.Math_cos := cosine;
     Game.project := fun px py _ => (px / 8, py / 5)%float;
     Game.innerWidth := 1280%float;
     Game.innerHeight := 720%float |}.

(** The first disc that [slowHost] creates, as it is after [warmUp]. *)
Definition firstDisc : Game.Disc :=
  {| Game.posX := 0; Game.posY := 0;
     Game.velX := (-0.0079999999999999984)%float;
     Game.velY := (-8.2782466079136077e-14)%float;
     Game.rotationSpeed := 0;
     Game.floatPhase := 3.141592653589793;
     Game.floatAmplitude := 0.4;
     Game.floatFrequency := 0.75;
     Game.originX := 0; Game.originY := 0;
     Game.color := Some 0x00ff88%Z; Game.points := 100;
     Game.createdAt := 1003000; Game.scale := 0.1 |}.

(** The gesture state of a gun pose aimed at [(px, py)]. *)
Definition aimAt (px py : number) (thumbUp : bool) : GestureState :=
  {| isGunPose := true; isThumbUp := thumbUp; fingerTip := mkPoint px py;
     confidence := 1; landmarks := None |}.

(** A hand that is seen but is not in the gun pose, thumb down. *)
Definition openHand : GestureState :=
  {| isGunPose := false; isThumbUp := false; fingerTip := mkPoint 0.5 0.5;
     confidence := 0.2; landmarks := None |}.

(** Start the game and let the four staggered spawn timers run. *)
Definition warmUp : list Game.Event :=
  [Game.Start; Game.Run 0; Game.Run 0; Game.Run 0; Game.Run 0].

(** Aim at the screen centre, render a frame (the magnet locks a disc),
    drop the thumb, then let the respawn and cooldown timers run. *)
Definition hitRound : list Game.Event :=
  [Game.Gesture (aimAt 0.5 0.5 true); Game.Run 0;
   Game.Gesture (aimAt 0.5 0.5 false); Game.Run 1; Game.Run 1].

(** The same aimed at the top left corner, where no disc is. *)
Definition missRound : list Game.Event :=
  [Game.Gesture (aimAt 0 0 true); Game.Run 0;
   Game.Gesture (aimAt 0 0 false); Game.Run 1].

(** Forty shots, of which twenty-three hit. *)
Definition fortyShots : list Game.Event :=
  warmUp ++ concat (replicate 17 missRound) ++ concat (replicate 23 hitRound).

End Samples.

(* ------------------------------------------------------------------ *)
(** ** Relations and invariants used in the proofs *)

Module Invariants.

Import JS Game.

(** [r'] comes after [r]: the array [this.discs] has only grown at its end,
    and every disc object is still there with its colour and point value. *)
Definition evolves (r r' : Registry) : Prop :=
  (exists extra, discs r' = discs r ++ extra)
  /\ (forall i d, heap r !! i = Some d ->
        exists d', heap r' !! i = Some d' /\ color d' = color d /\ points d' = points d).

(** As [evolves], with [this.discs] unchanged. *)
Definition sameDiscs (r r' : Registry) : Prop :=
  discs r' = discs r
  /\ (forall i d, heap r !! i = Some d ->
        exists d', heap r' !! i = Some d' /\ color d' = color d /\ points d' = points d).

(** The session invariant: combo range, counters, and the accuracy display
    agreeing with the counters. *)
Definition shown (s : State) : option number :=
  if (shots s =? 0)%Z then None
  else Some (Math_round (ofZ (hits s) / ofZ (shots s) * 100)%float).

Definition sessionOk (g : Game) : Prop :=
  (1 <= combo (state g) <= 10)%Z
  /\ (0 <= hits (state g) <= shots (state g))%Z
  /\ accuracy g = shown (state g).

(** What one step can do to the combo bookkeeping, from [g] to [g'], when
    the clock reads [now]: nothing; a miss, which resets the combo; or a
    hit, which stores [now] as the time of the last hit and raises the
    combo (up to 10) if the previous hit is less than 2000 ms back, and
    resets it to 1 otherwise. *)
Definition comboMove (now : Z) (g g' : Game) : Prop :=
  (shots (state g') = shots (state g) /\ hits (state g') = hits (state g)
   /\ combo (state g') = combo (state g)
   /\ lastHitTime (state g') = lastHitTime (state g))
  \/ (shots (state g') = (shots (state g) + 1)%Z /\ hits (state g') = hits (state g)
      /\ combo (state g') = 1%Z
      /\ lastHitTime (state g') = lastHitTime (state g))
  \/ (shots (state g') = (shots (state g) + 1)%Z
      /\ hits (state g') = (hits (state g) + 1)%Z
      /\ lastHitTime (state g') = now
      /\ combo (state g')
         = (if (now - lastHitTime (state g) <? 2000)%Z
            then Z.min (combo (state g) + 1) 10 else 1%Z)).

(** The percentage [round(100 * hits / shots)] in exact arithmetic, ties
    rounded up. *)
Definition exactPercent (hits shots : Z) : Z :=
  ((200 * hits + shots) / (2 * shots))%Z.

(** Whether the displayed number is the exact percentage, checked for every
    count of hits up to every count of shots below [bound]. *)
Definition percentAgrees (hits shots : Z) : bool :=
  PrimFloat.Leibniz.eqb (Math_round (ofZ hits / ofZ shots * 100)%float)
                        (ofZ (exactPercent hits shots)).

Definition agreesBelow (bound : Z) : bool :=
  forallb (fun shots => forallb (fun hits => percentAgrees hits shots) (seqZ 0 (shots + 1)))
          (seqZ 1 (bound - 1)).

(** Disc [disc] carries a creation time read from the clock after reading
    number [n0]. *)
Definition stampedAfter (H : Host) (n0 : nat) (disc : ref) (r : Registry) : Prop :=
  exists d' k, heap r !! disc = Some d' /\ (n0 < k)%nat /\ createdAt d' = clock H k.

(** Whether the lock branch of [update()] is taken in [g]. *)
Definition locksOn (H : Host) (g : Game) : bool :=
  match snd (nearest H g) with
  | Some _ => isGunPose (state g)
  | None => false
  end.

Definition isLock (s : Sound) : bool :=
  match s with PlayLock => true | _ => false end.

End Invariants.

(* ------------------------------------------------------------------ *)
(** ** hand-tracking.js: the detection throttle *)

Module Detect.

(** [lastDetectionTime] and [detectionInterval] of the tracker. *)
Record Throttle := mkThrottle {
  lastDetectionTime : Z;
  detectionInterval : Z
}.

(** The constructor: [options.detectionInterval || 33], so an interval that
    is absent or 0 becomes 33. *)
Definition new (interval : option Z) : Throttle :=
  {| lastDetectionTime := 0;
     detectionInterval :=
       match interval with
       | Some v => if (v =? 0)%Z then 33%Z else v
       | None => 33%Z
       end |}.

(** [detect()] at clock reading [now]: the frame is skipped when less than
    the interval has passed, otherwise the time is recorded and the frame
    is sent to the model (whose failure is caught and changes nothing). *)
Definition detect (now : Z) (t : Throttle) : Throttle * bool :=
  if (now - lastDetectionTime t <? detectionInterval t)%Z then (t, false)
  else (mkThrottle now (detectionInterval t), true).

(** The clock readings at which frames are sent, for the readings [nows] of
    successive calls. *)
Fixpoint sent (t : Throttle) (nows : list Z) : list Z :=
  match nows with
  | [] => []
  | now :: rest =>
      if snd (detect now t) then now :: sent (fst (detect now t)) rest
      else sent (fst (detect now t)) rest
  end.

(** Every element is at least [d] after the one before it, [prev] first. *)
Fixpoint spaced (d prev : Z) (l : list Z) : Prop :=
  match l with
  | [] => True
  | a :: l' => (d <= a - prev)%Z /\ spaced d a l'
  end.

End Detect.

(* ------------------------------------------------------------------ *)
(** ** effects.js: class ParticleSystem *)

Module Particles.

Import JS.

Record Vec3 := mkVec3 { vx : number; vy : number; vz : number }.

(** A particle mesh or spark line: position, [userData], material opacity
    and (uniform) scale. *)
Record Particle := mkParticle {
  position : Vec3;
  velocity : Vec3;
  life : number;
  decay : number;
  opacity : number;
  scale : number
}.

(** [this.particles], with the count of [Math.random()] calls made. *)
Record System := mkSystem {
  particles : list Particle;
  nrand : nat
}.

Section WithHost.

Context (H : Game.Host).

Definition draw (s : System) : number * System :=
  (Game.random H (nrand s), mkSystem (particles s) (S (nrand s))).

(** One pass of the loop of [createExplosion]. *)
Definition explosionParticle (at_ : Vec3) (s : System) : System :=
  let (r1, s) := draw s in
  let theta := (r1 * Game.Math_PI * 2)%float in
  let (r2, s) := draw s in
  let phi := (r2 * Game.Math_PI)%float in
  let (r3, s) := draw s in
  let speed := (0.08 + r3 * 0.12)%float in
  let (r4, s) := draw s in
  let p :=
    {| position := at_;
       velocity :=
         mkVec3 (Game.Math_sin H phi * Game.Math_cos H theta * speed)%float
                (Game.Math_sin H phi * Game.Math_sin H theta * speed)%float
                (Game.Math_cos H phi * speed * 0.5)%float;
       life := 1; decay := (0.02 + r4 * 0.02)%float;
       opacity := 1; scale := 1 |} in
  mkSystem (particles s ++ [p]) (nrand s).

(** [createExplosion(position, color, count)] *)
Fixpoint createExplosion (at_ : Vec3) (count : nat) (s : System) : System :=
  match count with
  | O => s
  | S n => createExplosion at_ n (explosionParticle at_ s)
  end.

(** One pass of the loop of [createSparks]. *)
Definition sparkParticle (at_ : Vec3) (s : System) : System :=
  let (r1, s) := draw s in
  let angle := (r1 * Game.Math_PI * 2)%float in
  let (r2, s) := draw s in
  let speed := (0.15 + r2 * 0.1)%float in
  let (r3, s) := draw s in
  let p :=
    {| position := at_;
       velocity :=
         mkVec3 (Game.Math_cos H angle * speed)%float
                (Game.Math_sin H angle * speed)%float
                ((r3 - 0.5) * 0.1)%float;
       life := 1; decay := 0.04;
       opacity := 1; scale := 1 |} in
  mkSystem (particles s ++ [p]) (nrand s).

(** [createSparks(position, color, count)] *)
Fixpoint createSparks (at_ : Vec3) (count : nat) (s : System) : System :=
  match count with
  | O => s
  | S n => createSparks at_ n (sparkParticle at_ s)
  end.

End WithHost.

(** The body of the loop of [update()] up to the test: move, gravity and
    drag, decay, fade and shrink. *)
Definition aged (p : Particle) : Particle :=
  let v := velocity p in
  let life' := (life p - decay p)%float in
  {| position := mkVec3 (vx (position p) + vx v)%float
                        (vy (position p) + vy v)%float
                        (vz (position p) + vz v)%float;
     velocity := mkVec3 (vx v * 0.96)%float ((vy v - 0.003) * 0.96)%float
                        (vz v * 0.96)%float;
     life := life';
     decay := decay p;
     opacity := life';
     scale := life' |}.

(** [life <= 0] *)
Definition dead (p : Particle) : bool := (life p <=? 0)%float.

(** [for (let i = length - 1; i >= 0; i--)]: [i] counts the indices still
    to visit; a dead particle is spliced out, a live one stays updated.
    [None] is the TypeError of reading a property of [particles[i]] when
    that slot is empty. *)
Fixpoint sweep (i : nat) (ps : list Particle) : option (list Particle) :=
  match i with
  | O => Some ps
  | S j =>
      match ps !! j with
      | Some p =>
          let p' := aged p in
          if dead p' then sweep j (delete j ps) else sweep j (<[j := p']> ps)
      | None => None
      end
  end.

(** [update()] *)
Definition update (ps : list Particle) : option (list Particle) :=
  sweep (length ps) ps.

(** [update()] called [n] times in a row. *)
Fixpoint updates (n : nat) (ps : list Particle) : option (list Particle) :=
  match n with
  | O => Some ps
  | S k => match update ps with Some ps' => updates k ps' | None => None end
  end.

(** The particles [update()] keeps. *)
Definition alive (p : Particle) : bool := negb (dead p).

End Particles.

(* ------------------------------------------------------------------ *)
(** ** effects.js: class HitStreakDisplay *)

Module Streak.

(** The element's [visible] class, the count it shows, the timer id kept in
    [this.hideTimeout], and on the browser's side the hide timers still
    waiting and the next timer id.  (The 100 ms timer that resets the
    bounce transform is styling only.) *)
Record Display := mkDisplay {
  visible : bool;
  count : option Z;
  hideTimeout : option nat;
  waiting : list nat;
  nextId : nat
}.

Definition new : Display :=
  {| visible := false; count := None; hideTimeout := None; waiting := []; nextId := 1 |}.

(** [hide()] *)
Definition hide (d : Display) : Display :=
  mkDisplay false (count d) (hideTimeout d) (waiting d) (nextId d).

(** [clearTimeout(id)]: the timer is dropped if it is still waiting. *)
Definition clearTimeout (id : option nat) (w : list nat) : list nat :=
  match id with
  | Some i => filter (fun j => negb (Nat.eqb i j)) w
  | None => w
  end.

(** [show(count)] *)
Definition show (c : Z) (d : Display) : Display :=
  if (c <? 2)%Z then hide d
  else
    {| visible := true; count := Some c;
       hideTimeout := Some (nextId d);
       waiting := clearTimeout (hideTimeout d) (waiting d) ++ [nextId d];
       nextId := S (nextId d) |}.

(** The browser runs the hide timer [id], if it is waiting. *)
Definition fire (id : nat) (d : Display) : Display :=
  if existsb (Nat.eqb id) (waiting d)
  then hide (mkDisplay (visible d) (count d) (hideTimeout d)
                       (filter (fun j => negb (Nat.eqb id j)) (waiting d)) (nextId d))
  else d.

Inductive Op :=
| Show (c : Z)
| Hide
| Fire (id : nat).

Definition step (d : Display) (o : Op) : Display :=
  match o with
  | Show c => show c d
  | Hide => hide d
  | Fire id => fire id d
  end.

Definition run (ops : list Op) : Display := fold_left step ops new.

(** At most one hide timer waits, and it is the one whose id is kept in
    [this.hideTimeout]; a visible display shows a count of 2 or more. *)
Definition timerOk (d : Display) : Prop :=
  (waiting d = [] /\ visible d = false
   \/ exists id, waiting d = [id] /\ hideTimeout d = Some id)
  /\ (visible d = true -> exists c, count d = Some c /\ (2 <= c)%Z).

End Streak.

(* ------------------------------------------------------------------ *)
(** ** audio.js: class AudioManager *)

Module Audio.

Import JS.

(** Whether [this.context] is set, [this.enabled], and, when the node
    [this.masterGain] exists, the number last assigned to its gain value. *)
Record Manager := mkManager {
  hasContext : bool;
  enabled : bool;
  masterGain : option number
}.

Definition new : Manager :=
  {| hasContext := false; enabled := true; masterGain := None |}.

(** [init()]; [supported] tells whether constructing the audio context
    succeeds. *)
Definition init (supported : bool) (m : Manager) : Manager :=
  if hasContext m then m
  else if supported then mkManager true (enabled m) (Some 0.5%float)
  else mkManager false false (masterGain m).

(** The guard of every [play...] method: [!this.enabled || !this.context]
    returns at once. *)
Definition audible (m : Manager) : bool := enabled m && hasContext m.

(** [setVolume(value)] *)
Definition setVolume (value : number) (m : Manager) : Manager :=
  match masterGain m with
  | Some _ => mkManager (hasContext m) (enabled m)
                        (Some (Math_max 0 (Math_min 1 value)))
  | None => m
  end.

(** Calls made on the manager by its owner. *)
Inductive Op :=
| Init (supported : bool)
| SetVolume (value : number).

Definition step (m : Manager) (o : Op) : Manager :=
  match o with
  | Init supported => init supported m
  | SetVolume value => setVolume value m
  end.

End Audio.

(* ------------------------------------------------------------------ *)
(** ** main.js: the tracker wired to the game *)

Module App.

(** Where [init()] stands: still loading, or past its call of
    [game.start()]. *)
Inductive Phase := Loading | Playing.

(** The globals [handTracker] and [game]. *)
Record App := mkApp {
  tracker : HandTracker.Tracker;
  game : Game.Game;
  phase : Phase
}.

(** What reaches the page: a detection result from the hand model, the
    space key, the tab being hidden or shown, the end of the loading delay,
    or the browser running a waiting callback of the game. *)
Inductive Input :=
| Results (r : HandTracker.Results)
| KeySpace
| Hidden
| Visible
| Ready
| Callback (n : nat).

Section WithHost.

Context (H : Game.Host).

Definition boot : App :=
  {| tracker := HandTracker.new; game := Game.new H; phase := Loading |}.

(** The callbacks given to the tracker: [onGestureUpdate] and
    [onTrackingLost] ([onLandmarksUpdate] is empty). *)
Definition dispatch (cb : HandTracker.Callback) (g : Game.Game) : Game.Game :=
  match cb with
  | HandTracker.TrackingLost => Game.onGestureLost g
  | HandTracker.GestureUpdate gs _ => Game.updateGesture H gs g
  end.

(** A detection result: [processResults] runs and calls back into the
    game; an exception it throws is caught in [detect()] and the game is
    not called. *)
Definition onResults (r : HandTracker.Results) (a : App) : App :=
  match HandTracker.processResults (tracker a) r with
  | HandTracker.Ok t cb => mkApp t (dispatch cb (game a)) (phase a)
  | HandTracker.Throw t => mkApp t (game a) (phase a)
  end.

(** The space key: [if (game.state.isGunPose) game.shoot()]. *)
Definition keySpace (a : App) : App :=
  if Game.isGunPose (Game.state (game a))
  then mkApp (tracker a) (Game.shoot H (game a)) (phase a)
  else a.

Definition step (a : App) (i : Input) : App :=
  match i with
  | Results r => onResults r a
  | KeySpace => keySpace a
  | Hidden => mkApp (tracker a) (Game.pause (game a)) (phase a)
  | Visible => mkApp (tracker a) (Game.resume H (game a)) (phase a)
  | Ready =>
      match phase a with
      | Loading => mkApp (tracker a) (Game.start H (game a)) Playing
      | Playing => a
      end
  | Callback n => mkApp (tracker a) (Game.step H (game a) (Game.Run n)) (phase a)
  end.

Definition run (a : App) (ins : list Input) : App := fold_left step ins a.

(** The states of the page. *)
Inductive reachable : App -> Prop :=
| reach_boot : reachable boot
| reach_step a i : reachable a -> reachable (step a i).

End WithHost.

End App.

(* ------------------------------------------------------------------ *)
(** ** Invariants of the wired program *)

Module Audit.

Import JS Game.

Definition isSpawn (t : Task) : bool :=
  match t with SpawnTimer _ => true | _ => false end.
Definition isCooldown (t : Task) : bool :=
  match t with CooldownTimer _ => true | _ => false end.
Definition isFrame (t : Task) : bool :=
  match t with AnimationFrame => true | _ => false end.

Definition isShot (s : Sound) : bool :=
  match s with PlayShoot => true | _ => false end.
Definition isMiss (s : Sound) : bool :=
  match s with PlayMiss => true | _ => false end.
Definition isHit (s : Sound) : bool :=
  match s with PlayHit | PlayPerfectHit => true | _ => false end.

(** How many elements of a list pass a test. *)
Definition count {A} (f : A -> bool) (l : list A) : nat := length (filter f l).

(** The registry is well formed: no reference occurs twice in
    [this.discs] and each names a disc object worth 100 points; in the
    game, the locked target, if any, is one of them. *)
Definition storeOk (r : Registry) : Prop :=
  NoDup (discs r)
  /\ (forall i, i ∈ discs r ->
        exists d, heap r !! i = Some d /\ points d = 100%Z).

Definition registryOk (g : Game) : Prop :=
  storeOk (reg g)
  /\ (forall i, lockedTarget (state g) = Some i -> i ∈ discs (reg g)).

(** Score and streak bookkeeping. *)
Definition scoreOk (g : Game) : Prop :=
  (1 <= combo (state g) <= maxCombo (state g))%Z
  /\ (maxCombo (state g) <= 10)%Z
  /\ (0 <= hits (state g))%Z
  /\ (100 * hits (state g) <= score (state g) <= 1000 * hits (state g))%Z
  /\ (score (state g) mod 100 = 0)%Z.

(** The sound log agrees with the counters. *)
Definition soundsOk (g : Game) : Prop :=
  shots (state g) = Z.of_nat (count isShot (sounds g))
  /\ hits (state g) = Z.of_nat (count isHit (sounds g))
  /\ (shots (state g)
      = hits (state g) + Z.of_nat (count isMiss (sounds g)))%Z
  /\ (forall c, PlayCombo c ∈ sounds g -> (2 <= c <= 10)%Z).

(** The cooldown timer and the frame callback. *)
Definition timersOk (g : Game) : Prop :=
  count isCooldown (tasks g) = (if isShooting (state g) then 1 else 0)%nat
  /\ (running (state g) = true -> (1 <= count isFrame (tasks g))%nat).

(** The disc count, with the spawn timers still to run. *)
Definition countOk (p : App.Phase) (g : Game) : Prop :=
  (count isSpawn (tasks g) <= maxCount)%nat
  /\ (length (discs (reg g)) + count isSpawn (tasks g) <= 2 * maxCount)%nat
  /\ (p = App.Loading ->
      count isSpawn (tasks g) = 0%nat /\ (length (discs (reg g)) <= maxCount)%nat).

(** All of the above. *)
Definition auditOk (p : App.Phase) (g : Game) : Prop :=
  registryOk g /\ scoreOk g /\ soundsOk g /\ timersOk g /\ countOk p g.

(** [g'] differs from [g] at most in fields the audit does not read (the
    gesture flags, the aim point, the crosshair, the accuracy display), and
    is not running unless [g] is. *)
Definition sameBooks (g g' : Game) : Prop :=
  reg g' = reg g /\ tasks g' = tasks g /\ sounds g' = sounds g
  /\ score (state g') = score (state g)
  /\ combo (state g') = combo (state g)
  /\ maxCombo (state g') = maxCombo (state g)
  /\ hits (state g') = hits (state g)
  /\ shots (state g') = shots (state g)
  /\ isShooting (state g') = isShooting (state g)
  /\ lockedTarget (state g') = lockedTarget (state g)
  /\ (running (state g') = true -> running (state g) = true).

End Audit.

(* ------------------------------------------------------------------ *)
(** ** Sample inputs of the page *)

Module AppSamples.

Import HandTracker.

(** The pointing hand with the thumb dropped below its joint. *)
Definition thumbDown : list Landmark :=
  <[4%nat := Samples.pt 0.30 0.70]> Samples.pointingHand.

(** The page loads and the four spawn timers run; the hand aims, a frame
    is rendered, the thumb drops; the space key is pressed during the
    cooldown; the tab is hidden and shown again. *)
Definition session : list App.Input :=
  [App.Ready; App.Callback 0; App.Callback 0; App.Callback 0; App.Callback 0;
   App.Results (Some [Samples.pointingHand]); App.Callback 0;
   App.Results (Some [thumbDown]); App.KeySpace; App.Hidden; App.Visible].

End AppSamples.

(* ------------------------------------------------------------------ *)
(** ** Magnitudes of binary64 sums and products *)

Section Binary64Facts.

Import Binary64.

Local Open Scope Z_scope.

(** [lia] with the powers of two taken as unknowns. *)
Ltac pow_lia :=
  repeat match goal with
  | |- context [Z.pow ?a ?b] =>
      let v := fresh "pw" in set (v := Z.pow a b) in *; clearbody v
  | H : context [Z.pow ?a ?b] |- _ =>
      let v := fresh "pw" in set (v := Z.pow a b) in *; clearbody v
  end; lia.












Lemma Zpos_iter_xO (m d : positive) : Zpos (Pos.iter xO m d) = Zpos m * 2 ^ Zpos d.
Proof.
  induction d as [|d IH] using Pos.peano_ind.
  - cbn. lia.
  - rewrite Pos.iter_succ. change (Z.pos (Pos.iter xO m d)~0) with (2 * Z.pos (Pos.iter xO m d)).
    rewrite IH, Pos2Z.inj_succ, Z.pow_succ_r by lia. pow_lia.
Qed.












End Binary64Facts.



(* ------------------------------------------------------------------ *)
(** ** Properties of the classifier *)

Import JS.








(** C10: a frame without a hand (no landmark array, or an empty one) leaves
    the callback [onTrackingLost] and a gesture state in which only
    [isGunPose] (false), [confidence] (0) and [landmarks] (null) are
    overwritten: [fingerTip], [isThumbUp] and the smoothed position keep
    their values; and the game's tracking-lost handler keeps [targetX] and
    [targetY] (it only clears the game's [isGunPose]). *)
Theorem no_hand_frame_effect (t : HandTracker.Tracker) (g : Game.Game) :
  HandTracker.processResults t None
    = HandTracker.Ok (HandTracker.lost t) HandTracker.TrackingLost
  /\ HandTracker.processResults t (Some [])
     = HandTracker.Ok (HandTracker.lost t) HandTracker.TrackingLost
  /\ HandTracker.gestureState (HandTracker.lost t)
     = {| HandTracker.isGunPose := false;
          HandTracker.isThumbUp := HandTracker.isThumbUp (HandTracker.gestureState t);
          HandTracker.fingerTip := HandTracker.fingerTip (HandTracker.gestureState t);
          HandTracker.confidence := 0%float;
          HandTracker.landmarks := None |}
  /\ HandTracker.smoothedPosition (HandTracker.lost t) = HandTracker.smoothedPosition t
  /\ HandTracker.smoothingFactor (HandTracker.lost t) = HandTracker.smoothingFactor t
  /\ Game.targetX (Game.state (Game.onGestureLost g)) = Game.targetX (Game.state g)
  /\ Game.targetY (Game.state (Game.onGestureLost g)) = Game.targetY (Game.state g)
  /\ Game.onGestureLost g
     = Game.with_state (Game.set_isGunPose false (Game.state g)) g.
Proof. repeat split. Qed.

(* ------------------------------------------------------------------ *)
(** ** Comparison of binary64 numbers *)

Ltac sf_cases :=
  repeat match goal with
  | s : bool |- _ => destruct s
  | |- context [Z.compare ?a ?b] => destruct (Z.compare_spec a b)
  | H : context [Z.compare ?a ?b] |- _ => destruct (Z.compare_spec a b)
  | |- context [Pos.compare_cont Eq ?a ?b] =>
      change (Pos.compare_cont Eq a b) with (Pos.compare a b);
      destruct (Pos.compare_spec a b)
  | H : context [Pos.compare_cont Eq ?a ?b] |- _ =>
      change (Pos.compare_cont Eq a b) with (Pos.compare a b) in H;
      destruct (Pos.compare_spec a b)
  end; simpl in *; try congruence; try lia.

Lemma SFltb_irreflexive a : SFltb a a = false.
Proof. unfold SFltb, SFcompare. destruct a; sf_cases. Qed.

Lemma SFltb_trans a b c : SFltb a b = true -> SFltb b c = true -> SFltb a c = true.
Proof. unfold SFltb, SFcompare. destruct a, b, c; simpl; try congruence; sf_cases. Qed.

Lemma SFltb_below a b k r :
  SFltb a b = true -> SFltb k r = true -> SFltb k b = false -> SFltb a k = true.
Proof. unfold SFltb, SFcompare. destruct a, b, k; simpl; try congruence; sf_cases. Qed.

Lemma number_lt_irrefl (a : number) : lt a a = false.
Proof. unfold lt. rewrite ltb_spec. apply SFltb_irreflexive. Qed.

Lemma number_lt_trans (a b c : number) : lt a b = true -> lt b c = true -> lt a c = true.
Proof. unfold lt. rewrite !ltb_spec. apply SFltb_trans. Qed.

(** If [a < b], and [k] is comparable but not below [b], then [a < k]. *)
Lemma number_lt_below (a b k r : number) :
  lt a b = true -> lt k r = true -> lt k b = false -> lt a k = true.
Proof. unfold lt. rewrite !ltb_spec. apply SFltb_below. Qed.

(* ------------------------------------------------------------------ *)
(** ** The target registry *)

Section RegistryFacts.

Import Game Invariants.

Context (H : Host).

Lemma evolves_refl r : evolves r r.
Proof. split; [exists []; by rewrite app_nil_r | eauto]. Qed.

Lemma evolves_trans r1 r2 r3 : evolves r1 r2 -> evolves r2 r3 -> evolves r1 r3.
Proof.
  intros [[e1 H1] K1] [[e2 H2] K2]. split.
  - exists (e1 ++ e2). by rewrite H2, H1, app_assoc.
  - intros i d Hd. destruct (K1 i d Hd) as (d1 & Hd1 & Hc1 & Hp1).
    destruct (K2 i d1 Hd1) as (d2 & Hd2 & Hc2 & Hp2).
    exists d2. repeat split; congruence.
Qed.

Lemma sameDiscs_refl r : sameDiscs r r.
Proof. split; eauto. Qed.

Lemma sameDiscs_trans r1 r2 r3 : sameDiscs r1 r2 -> sameDiscs r2 r3 -> sameDiscs r1 r3.
Proof.
  intros [H1 K1] [H2 K2]. split; [congruence|].
  intros i d Hd. destruct (K1 i d Hd) as (d1 & Hd1 & Hc1 & Hp1).
  destruct (K2 i d1 Hd1) as (d2 & Hd2 & Hc2 & Hp2).
  exists d2. repeat split; congruence.
Qed.

Lemma sameDiscs_evolves r r' : sameDiscs r r' -> evolves r r'.
Proof. intros [H1 K1]. split; [exists []; by rewrite app_nil_r | done]. Qed.

(** The placement loop only consumes random numbers, and returns the point
    built from its last two draws. *)
Lemma place_spec (more : nat) (r : Registry) :
  exists k, (nrand r <= k)%nat
    /\ place H more r
       = (((minX + random H k * (maxX - minX))%float,
           (minY + random H (S k) * (maxY - minY))%float),
          mkRegistry (heap r) (discs r) (S (S k)) (nclock r)).
Proof.
  revert r. induction more as [|n IH]; intros r.
  - exists (nrand r). split; [lia | reflexivity].
  - cbn [place]. unfold bind, Math_random, get. cbn.
    match goal with |- context [if ?c then _ else _] => destruct c end.
    + match goal with |- context [place H n ?r1] => destruct (IH r1) as (k & Hk & ->) end.
      cbn in Hk. exists k. split; [lia | reflexivity].
    + exists (nrand r). split; [lia | reflexivity].
Qed.

Lemma createDisc_spec (r : Registry) :
  exists d n,
    createDisc H r
    = (length (heap r),
       mkRegistry (heap r ++ [d]) (discs r ++ [length (heap r)]) n (S (nclock r)))
    /\ points d = 100%Z.
Proof.
  unfold createDisc, bind, Math_random, Date_now, alloc, push, ret.
  match goal with |- context [place H 19 ?r1] =>
    destruct (place_spec 19 r1) as (k & _ & ->) end.
  cbn [fst snd heap discs nrand nclock]. do 2 eexists. split; reflexivity.
Qed.

Lemma createDisc_length (r : Registry) :
  length (discs (exec (createDisc H) r)) = S (length (discs r)).
Proof.
  destruct (createDisc_spec r) as (d & n & Hc & _).
  unfold exec. rewrite Hc. cbn. rewrite length_app. cbn. lia.
Qed.

Lemma createDisc_evolves (r : Registry) : evolves r (exec (createDisc H) r).
Proof.
  destruct (createDisc_spec r) as (d & n & Hc & _).
  unfold exec. rewrite Hc. split; cbn.
  - eauto.
  - intros i d0 Hd. exists d0. split; [|done].
    by apply lookup_app_l_Some.
Qed.

(** Assigning properties of a disc without touching colour and points. *)
Lemma modify_sameDiscs (f : Disc -> Disc) (disc : ref) (r : Registry) :
  (forall d, color (f d) = color d /\ points (f d) = points d) ->
  sameDiscs r (exec (modify disc f) r).
Proof.
  intros Hf. split; [reflexivity|]. cbn.
  intros i d Hd. destruct (decide (disc = i)) as [->|Hne].
  - exists (f d). rewrite list_lookup_alter_eq, Hd. split; [done | apply Hf].
  - exists d. by rewrite list_lookup_alter_ne.
Qed.

Lemma repositionDisc_spec (disc : ref) (r : Registry) :
  exists k, (nrand r <= k)%nat
    /\ repositionDisc H disc r
       = (tt,
          mkRegistry
            (alter (relocated H
                      ((minX + random H k * (maxX - minX))%float,
                       (minY + random H (S k) * (maxY - minY))%float)
                      (clock H (nclock r))
                      (random H (S (S k)) * Math_PI * 2)%float
                      (random H (S (S (S k))) * Math_PI * 2)%float)
                   disc (heap r))
            (discs r) (S (S (S (S k)))) (S (nclock r))).
Proof.
  unfold repositionDisc, bind, Math_random, Date_now, modify.
  destruct (place_spec 19 r) as (k & Hk & ->).
  exists k. split; [done | reflexivity].
Qed.

Lemma moved_keeps (now : Z) (d : Disc) :
  color (moved H now d) = color d /\ points (moved H now d) = points d
  /\ createdAt (moved H now d) = createdAt d.
Proof.
  unfold moved, bounceY, bounceX.
  repeat match goal with |- context [if ?c then _ else _] => destruct c end;
    repeat split.
Qed.

(** One pass of the disc loop, spelled out. *)
Lemma updateDisc_spec (now : Z) (disc : ref) (r : Registry) :
  match heap r !! disc with
  | None => exec (updateDisc H now disc) r = r
  | Some d =>
      if (lifeTime <? now - createdAt d)%Z then
        exists k, (nrand r <= k)%nat
          /\ exec (updateDisc H now disc) r
             = mkRegistry
                 (<[disc := relocated H
                            ((minX + random H k * (maxX - minX))%float,
                             (minY + random H (S k) * (maxY - minY))%float)
                            (clock H (nclock r))
                            (random H (S (S k)) * Math_PI * 2)%float
                            (random H (S (S (S k))) * Math_PI * 2)%float
                            (moved H now d)]> (heap r))
                 (discs r) (S (S (S (S k)))) (S (nclock r))
      else
        exec (updateDisc H now disc) r
        = mkRegistry (<[disc := moved H now d]> (heap r)) (discs r) (nrand r) (nclock r)
  end.
Proof.
  unfold exec, updateDisc, bind, get.
  destruct (heap r !! disc) as [d|] eqn:Hd; [|reflexivity].
  assert (Ha : alter (moved H now) disc (heap r) = <[disc := moved H now d]> (heap r)).
  { apply list_eq. intros j. destruct (decide (disc = j)) as [Heq|Hne]; [subst j|].
    - rewrite list_lookup_alter_eq, Hd.
      symmetry. apply list_lookup_insert_eq. by eapply lookup_lt_Some.
    - by rewrite list_lookup_alter_ne, list_lookup_insert_ne. }
  unfold modify at 1. cbn [heap discs nrand nclock].
  destruct (lifeTime <? now - createdAt d)%Z.
  - match goal with |- context [repositionDisc H disc ?r1] =>
      destruct (repositionDisc_spec disc r1) as (k & Hk & ->) end.
    cbn [snd heap discs nrand nclock] in *. exists k. split; [done|].
    f_equal. rewrite Ha. apply list_eq. intros j.
    destruct (decide (disc = j)) as [Heq|Hne]; [subst j|].
    + rewrite list_lookup_alter_eq.
      rewrite !list_lookup_insert_eq;
        rewrite ?length_insert; try by eapply lookup_lt_Some.
      reflexivity.
    + rewrite list_lookup_alter_ne by done. by rewrite !list_lookup_insert_ne.
  - cbn. by rewrite Ha.
Qed.

Lemma updateDisc_sameDiscs (now : Z) (disc : ref) (r : Registry) :
  sameDiscs r (exec (updateDisc H now disc) r).
Proof.
  unfold exec, updateDisc, bind, get.
  destruct (heap r !! disc) as [d|] eqn:Hd; [|apply sameDiscs_refl].
  pose proof (modify_sameDiscs (moved H now) disc r) as Hm.
  unfold exec in Hm.
  destruct (modify disc (moved H now) r) as [[] r1] eqn:Hr1. cbn [snd] in Hm.
  assert (Hs1 : sameDiscs r r1).
  { apply Hm. intros d0. destruct (moved_keeps now d0) as (? & ? & _). done. }
  destruct (lifeTime <? now - createdAt d)%Z; [|exact Hs1].
  eapply sameDiscs_trans; [exact Hs1|].
  destruct (repositionDisc_spec disc r1) as (k & _ & ->). cbn [snd].
  split; [reflexivity|]. cbn.
  intros i d0 Hd0. destruct (decide (disc = i)) as [->|Hne].
  - eexists. rewrite list_lookup_alter_eq, Hd0. split; [reflexivity | done].
  - exists d0. by rewrite list_lookup_alter_ne.
Qed.

Lemma forEach_sameDiscs (now : Z) (l : list ref) (r : Registry) :
  sameDiscs r (exec (forEach (updateDisc H now) l) r).
Proof.
  revert r. induction l as [|i l IH]; intros r; [apply sameDiscs_refl|].
  unfold exec. cbn [forEach]. unfold bind.
  pose proof (updateDisc_sameDiscs now i r) as H1. unfold exec in H1.
  destruct (updateDisc H now i r) as [[] r1]. cbn [snd] in H1.
  eapply sameDiscs_trans; [exact H1 | apply IH].
Qed.

(** The top-up loop: it only appends discs, and it leaves with at least
    [maxCount] discs as soon as the fuel covers the missing ones. *)
Lemma topUp_evolves (fuel : nat) (r : Registry) :
  evolves r (exec (topUp H fuel) r).
Proof.
  revert r. induction fuel as [|n IH]; intros r; unfold exec; cbn [topUp];
    unfold bind, get, ret;
    destruct (length (discs r) <? maxCount)%nat; try apply evolves_refl.
  pose proof (createDisc_evolves r) as H1. unfold exec in H1.
  destruct (createDisc H r) as [i r1]. cbn [snd] in H1.
  eapply evolves_trans; [exact H1 | apply IH].
Qed.

Lemma topUp_length (fuel : nat) (r : Registry) :
  (maxCount - length (discs r) <= fuel)%nat ->
  length (discs (exec (topUp H fuel) r)) = Nat.max (length (discs r)) maxCount.
Proof.
  revert r. induction fuel as [|n IH]; intros r Hfuel; unfold exec; cbn [topUp];
    unfold bind, get, ret;
    destruct (Nat.ltb_spec (length (discs r)) maxCount) as [Hlt|Hge];
    cbn [snd]; try lia.
  pose proof (createDisc_length r) as H1. unfold exec in H1.
  destruct (createDisc H r) as [i r1]. cbn [snd] in H1.
  specialize (IH r1). unfold exec in IH. rewrite IH; lia.
Qed.

(** The loop of [update()] always exits by its condition. *)
Lemma topUp_exits (r : Registry) :
  (maxCount <= length (discs (exec (topUp H maxCount) r)))%nat.
Proof. rewrite topUp_length; lia. Qed.

End RegistryFacts.

(* ------------------------------------------------------------------ *)
(** ** One render tick *)

Section TickFacts.

Import Game Invariants.

Context (H : Host).

(** The registry after the disc loop and the top-up loop of a tick. *)
Lemma update_unfold (g : Game) :
  update H g
  = let g1 := fst (aim H g) in
    let final := snd (aim H g) in
    let s := state g1 in
    let s := set_crosshairX (crosshairX s + (fst final - crosshairX s) * smoothing)%float s in
    let s := set_crosshairY (crosshairY s + (snd final - crosshairY s) * smoothing)%float s in
    let r1 := exec (Date_now H) (reg g1) in
    let now := clock H (nclock (reg g1)) in
    let r2 := exec (forEach (updateDisc H now) (discs r1)) r1 in
    mkGame s (exec (topUp H maxCount) r2) (tasks g1) (sounds g1) (accuracy g1).
Proof.
  unfold update. destruct (aim H g) as [g1 final]. cbn [fst snd].
  unfold inReg, exec, Date_now. cbn [reg with_state with_reg fst snd discs].
  destruct (forEach _ _ _) as [[] r2]. cbn [reg with_reg snd].
  destruct (topUp H maxCount r2) as [[] r3]. reflexivity.
Qed.

(** What the magnet part changes: the lock, its memory and the sound log. *)
Lemma aim_spec (g : Game) :
  let g1 := fst (aim H g) in
  reg g1 = reg g /\ tasks g1 = tasks g /\ accuracy g1 = accuracy g
  /\ sounds g1 = sounds g ++ (if locksOn H g && negb (wasLocked (state g))
                              then [PlayLock] else [])
  /\ wasLocked (state g1) = locksOn H g
  /\ lockedTarget (state g1) = (if locksOn H g then snd (nearest H g) else None)
  /\ state g1
     = set_wasLocked (locksOn H g)
         (set_lockedTarget (if locksOn H g then snd (nearest H g) else None) (state g)).
Proof.
  unfold aim, locksOn. destruct (nearest H g) as [nd [disc|]]; cbn [snd].
  - destruct (isGunPose (state g)) eqn:Hgun; unfold lockOn, release; cbn.
    + destruct (wasLocked (state g)) eqn:Hw; cbn; rewrite ?app_nil_r; repeat split;
        try done; destruct g as [[] ? ? ? ?]; cbn in *; by subst.
    + rewrite app_nil_r. repeat split.
  - unfold release; cbn. rewrite app_nil_r. repeat split.
Qed.

End TickFacts.


(* ------------------------------------------------------------------ *)
(** ** Shots, hits and misses *)

Section SessionFacts.

Import Game Invariants.

Context (H : Host).

Lemma countCombo_spec (now : Z) (s : State) :
  let s' := countCombo now s in
  combo s' = (if (now - lastHitTime s <? comboTimeout)%Z
              then Z.min (combo s + 1) 10 else 1%Z)
  /\ lastHitTime s' = now
  /\ maxCombo s' = Z.max (maxCombo s) (combo s')
  /\ score s' = score s /\ hits s' = hits s /\ shots s' = shots s
  /\ isShooting s' = isShooting s /\ wasThumbUp s' = wasThumbUp s
  /\ wasLocked s' = wasLocked s /\ isGunPose s' = isGunPose s
  /\ targetX s' = targetX s /\ targetY s' = targetY s.
Proof.
  unfold countCombo. destruct s. cbn [lastHitTime combo maxCombo].
  destruct (now - lastHitTime0 <? comboTimeout)%Z; cbn [set_combo set_lastHitTime combo maxCombo];
    match goal with |- context [(?a <? ?b)%Z] => destruct (Z.ltb_spec a b) end;
    cbn; repeat split; lia.
Qed.

Lemma hitTarget_spec (disc : ref) (g : Game) :
  let g' := hitTarget H disc g in
  let now := clock H (nclock (reg g)) in
  hits (state g') = (hits (state g) + 1)%Z
  /\ shots (state g') = shots (state g)
  /\ combo (state g')
     = (if (now - lastHitTime (state g) <? comboTimeout)%Z
        then Z.min (combo (state g) + 1) 10 else 1%Z)
  /\ lastHitTime (state g') = now
  /\ maxCombo (state g') = Z.max (maxCombo (state g)) (combo (state g'))
  /\ score (state g')
     = (score (state g)
        + match heap (reg g) !! disc with Some d => points d | None => 0 end
          * combo (state g'))%Z
  /\ accuracy g' = accuracy g
  /\ isShooting (state g') = isShooting (state g)
  /\ wasThumbUp (state g') = wasThumbUp (state g)
  /\ wasLocked (state g') = wasLocked (state g)
  /\ lockedTarget (state g') = None
  /\ tasks g' = tasks g ++ [RespawnTimer 300]
  /\ discs (reg g') = removeFirst disc (discs (reg g))
  /\ heap (reg g') = heap (reg g)
  /\ sounds g' = sounds g ++ hitSounds (combo (state g'))
  /\ isGunPose (state g') = isGunPose (state g).
Proof.
  unfold hitTarget, Date_now, exec, removeDisc.
  set (s0 := set_hits (hits (state g) + 1) (state g)).
  destruct (countCombo_spec (clock H (nclock (reg g))) s0)
    as (Hc & Hl & Hm & Hs & Hh & Hsh & Hi & Hw & Hwl & Hgp & _).
  set (s1 := countCombo _ s0) in *.
  cbn [state reg tasks sounds accuracy heap discs fst snd].
  destruct s1; cbn in *. subst s0. destruct (state g); cbn in *.
  repeat split; try congruence.
Qed.

Lemma filter_isLock_hitSounds (c : Z) : filter isLock (hitSounds c) = [].
Proof.
  unfold hitSounds. destruct (5 <=? c)%Z, (1 <? c)%Z; reflexivity.
Qed.

Lemma updateAccuracy_spec (g : Game) :
  state (updateAccuracy g) = state g /\ reg (updateAccuracy g) = reg g
  /\ tasks (updateAccuracy g) = tasks g /\ sounds (updateAccuracy g) = sounds g
  /\ accuracy (updateAccuracy g)
     = (if (shots (state g) =? 0)%Z then accuracy g else shown (state g)).
Proof.
  unfold updateAccuracy, shown. destruct (shots (state g) =? 0)%Z; repeat split.
Qed.

(** What a call of [shoot()] does when no shot is in progress. *)
Lemma shoot_spec (g : Game) :
  isShooting (state g) = false ->
  let g' := shoot H g in
  let now := clock H (nclock (reg g)) in
  shots (state g') = (shots (state g) + 1)%Z
  /\ hits (state g')
     = (hits (state g) + match lockedTarget (state g) with Some _ => 1 | None => 0 end)%Z
  /\ combo (state g')
     = match lockedTarget (state g) with
       | Some _ => if (now - lastHitTime (state g) <? comboTimeout)%Z
                   then Z.min (combo (state g) + 1) 10 else 1%Z
       | None => 1%Z
       end
  /\ isShooting (state g') = true
  /\ wasThumbUp (state g') = wasThumbUp (state g)
  /\ wasLocked (state g') = wasLocked (state g)
  /\ filter isLock (sounds g') = filter isLock (sounds g)
  /\ accuracy g'
     = (if (shots (state g') =? 0)%Z then accuracy g else shown (state g'))
  /\ isGunPose (state g') = isGunPose (state g)
  /\ (exists earlier, tasks g' = earlier ++ [CooldownTimer shootCooldown]).
Proof.
  intros Hidle. unfold shoot. rewrite Hidle.
  set (g1 := play PlayShoot _).
  assert (H1 : state g1 = set_shots (shots (state g) + 1) (set_isShooting true (state g))
               /\ reg g1 = reg g /\ accuracy g1 = accuracy g
               /\ sounds g1 = sounds g ++ [PlayShoot]) by (repeat split).
  destruct H1 as (Hs1 & Hr1 & Ha1 & Hsn1).
  assert (Hlk : lockedTarget (state g1) = lockedTarget (state g)) by (rewrite Hs1; reflexivity).
  rewrite Hlk.
  assert (Hfl : filter isLock (sounds g1) = filter isLock (sounds g)).
  { rewrite Hsn1, filter_app. cbn. by rewrite app_nil_r. }
  set (g2 := match lockedTarget (state g) with
             | Some disc => hitTarget H disc g1
             | None => miss g1
             end).
  destruct (updateAccuracy_spec g2) as (Hus & Hur & Hut & Husn & Hua).
  cbn [setTimeout with_tasks state sounds accuracy].
  rewrite Hus, Husn, Hua.
  assert (K : shots (state g2) = (shots (state g) + 1)%Z
    /\ hits (state g2) = (hits (state g) + match lockedTarget (state g) with Some _ => 1 | None => 0 end)%Z
    /\ combo (state g2)
       = match lockedTarget (state g) with
         | Some _ => if (clock H (nclock (reg g)) - lastHitTime (state g) <? comboTimeout)%Z
                     then Z.min (combo (state g) + 1) 10 else 1%Z
         | None => 1%Z
         end
    /\ isShooting (state g2) = true
    /\ wasThumbUp (state g2) = wasThumbUp (state g)
    /\ wasLocked (state g2) = wasLocked (state g)
    /\ filter isLock (sounds g2) = filter isLock (sounds g)
    /\ accuracy g2 = accuracy g
    /\ isGunPose (state g2) = isGunPose (state g)).
  { subst g2. destruct (lockedTarget (state g)) as [disc|].
    - destruct (hitTarget_spec disc g1)
        as (Hh & Hsh & Hc & _ & _ & _ & Ha & Hi & Hw & Hwl & _ & _ & _ & _ & Hsn & Hgp).
      rewrite Hh, Hsh, Hc, Ha, Hi, Hw, Hwl, Hsn, Hgp, Hr1, Hs1, Ha1.
      rewrite filter_app, filter_isLock_hitSounds, app_nil_r, Hfl.
      repeat split.
    - unfold miss, play. cbn [with_state with_sounds state sounds accuracy].
      rewrite filter_app, Hfl, Hs1, Ha1. cbn. rewrite app_nil_r.
      repeat split; lia. }
  destruct K as (K1 & K2 & K3 & K4 & K5 & K6 & K7 & K8 & K9).
  rewrite K8. repeat split; try assumption. by eexists.
Qed.

Lemma shoot_busy (g : Game) : isShooting (state g) = true -> shoot H g = g.
Proof. intros Hb. unfold shoot. by rewrite Hb. Qed.

Lemma shoot_sessionOk (g : Game) : sessionOk g -> sessionOk (shoot H g).
Proof.
  intros (Hc & Hh & Ha).
  destruct (isShooting (state g)) eqn:Hb; [by rewrite shoot_busy|].
  destruct (shoot_spec g Hb) as (K1 & K2 & K3 & _ & _ & _ & _ & K8 & _ & _).
  split; [|split].
  - rewrite K3. destruct (lockedTarget (state g)); [|lia].
    destruct (_ <? _)%Z; lia.
  - rewrite K1, K2. destruct (lockedTarget (state g)); lia.
  - rewrite K8. destruct (Z.eqb_spec (shots (state (shoot H g))) 0); [lia|reflexivity].
Qed.

(** A tick leaves the session counters, the trigger flags, the aim point,
    the waiting callbacks and the accuracy display alone. *)
Lemma update_keeps (g : Game) :
  let g' := update H g in
  combo (state g') = combo (state g) /\ hits (state g') = hits (state g)
  /\ shots (state g') = shots (state g) /\ accuracy g' = accuracy g
  /\ isShooting (state g') = isShooting (state g)
  /\ wasThumbUp (state g') = wasThumbUp (state g)
  /\ isGunPose (state g') = isGunPose (state g)
  /\ targetX (state g') = targetX (state g) /\ targetY (state g') = targetY (state g)
  /\ running (state g') = running (state g)
  /\ tasks g' = tasks g.
Proof.
  cbv zeta. rewrite update_unfold. cbv zeta.
  destruct (aim_spec H g) as (_ & Ht & Ha & _ & _ & _ & Hs).
  cbn [state tasks accuracy]. rewrite Hs, Ht, Ha.
  destruct (state g). repeat split.
Qed.

Lemma sessionOk_same (g g' : Game) :
  combo (state g') = combo (state g) -> hits (state g') = hits (state g) ->
  shots (state g') = shots (state g) -> accuracy g' = accuracy g ->
  sessionOk g -> sessionOk g'.
Proof.
  unfold sessionOk, shown. intros -> -> -> ->. done.
Qed.

Lemma update_sessionOk (g : Game) : sessionOk g -> sessionOk (update H g).
Proof.
  destruct (update_keeps g) as (? & ? & ? & ? & _). by apply sessionOk_same.
Qed.

Lemma gameLoop_sessionOk (g : Game) : sessionOk g -> sessionOk (gameLoop H g).
Proof.
  intros Hg. unfold gameLoop. destruct (running (state g)); [|done].
  apply update_sessionOk. revert Hg. by apply sessionOk_same.
Qed.

Lemma start_timers_keep (l : list nat) (g : Game) :
  let g' := fold_left (fun g i => setTimeout (SpawnTimer (Z.of_nat i * 400)) g) l g in
  state g' = state g /\ reg g' = reg g /\ accuracy g' = accuracy g
  /\ sounds g' = sounds g
  /\ tasks g' = tasks g ++ map (fun i => SpawnTimer (Z.of_nat i * 400)) l.
Proof.
  revert g. induction l as [|i l IH]; intros g; cbn [fold_left map].
  - rewrite app_nil_r. repeat split.
  - destruct (IH (setTimeout (SpawnTimer (Z.of_nat i * 400)) g)) as (-> & -> & -> & -> & ->).
    cbn. rewrite <- app_assoc. repeat split.
Qed.

Lemma start_sessionOk (g : Game) : sessionOk g -> sessionOk (start H g).
Proof.
  intros Hg. unfold start. apply gameLoop_sessionOk.
  match goal with |- sessionOk (fold_left _ ?l ?g0) =>
    destruct (start_timers_keep l g0) as (Hs & _ & Ha & _) end.
  revert Hg. apply sessionOk_same; rewrite ?Hs, ?Ha; reflexivity.
Qed.

Lemma runTask_sessionOk (t : Task) (g : Game) : sessionOk g -> sessionOk (runTask H t g).
Proof.
  intros Hg. destruct t; cbn [runTask].
  - unfold inReg. destruct (createDisc H (reg g)). revert Hg. by apply sessionOk_same.
  - destruct (_ <? _)%nat; [|done].
    unfold inReg. destruct (createDisc H (reg g)). revert Hg. by apply sessionOk_same.
  - revert Hg. by apply sessionOk_same.
  - by apply gameLoop_sessionOk.
Qed.

Lemma updateGesture_sessionOk (gs : HandTracker.GestureState) (g : Game) :
  sessionOk g -> sessionOk (updateGesture H gs g).
Proof.
  intros Hg. unfold updateGesture.
  destruct (HandTracker.isGunPose gs); [|revert Hg; by apply sessionOk_same].
  match goal with |- context [triggerEdge ?b ?s] => destruct (triggerEdge b s) end.
  - match goal with |- context [shoot H ?g0] =>
      assert (Hsh : sessionOk (shoot H g0))
        by (apply shoot_sessionOk; revert Hg; by apply sessionOk_same);
      revert Hsh; by apply sessionOk_same end.
  - revert Hg. by apply sessionOk_same.
Qed.

Lemma step_sessionOk (g : Game) (e : Event) : sessionOk g -> sessionOk (step H g e).
Proof.
  intros Hg. destruct e; cbn [step].
  - by apply start_sessionOk.
  - revert Hg. by apply sessionOk_same.
  - unfold resume. destruct (running (state g)); [done|].
    apply gameLoop_sessionOk. revert Hg. by apply sessionOk_same.
  - by apply updateGesture_sessionOk.
  - revert Hg. by apply sessionOk_same.
  - destruct (tasks g !! n); [|done].
    apply runTask_sessionOk. revert Hg. by apply sessionOk_same.
Qed.

(** The trigger edge detector, one gesture frame at a time. *)
Lemma updateGesture_spec (gs : HandTracker.GestureState) (g : Game) :
  let fire := HandTracker.isGunPose gs && negb (HandTracker.isThumbUp gs)
              && wasThumbUp (state g) && negb (isShooting (state g)) in
  let g' := updateGesture H gs g in
  shots (state g') = (shots (state g) + if fire then 1 else 0)%Z
  /\ isShooting (state g') = isShooting (state g) || fire
  /\ wasThumbUp (state g')
     = (if HandTracker.isGunPose gs then HandTracker.isThumbUp gs else true)
  /\ isGunPose (state g') = HandTracker.isGunPose gs
  /\ wasLocked (state g') = wasLocked (state g)
  /\ filter isLock (sounds g') = filter isLock (sounds g)
  /\ (if fire then exists earlier, tasks g' = earlier ++ [CooldownTimer shootCooldown]
      else tasks g' = tasks g).
Proof.
  cbv zeta. unfold updateGesture.
  destruct (HandTracker.isGunPose gs); cbn [andb];
    [|cbn; rewrite Z.add_0_r, orb_false_r; repeat split].
  match goal with |- context [triggerEdge ?b ?s0] =>
    change (triggerEdge b s0)
      with (negb (HandTracker.isThumbUp gs) && wasThumbUp (state g) && negb (isShooting (state g)))
  end.
  destruct (negb (HandTracker.isThumbUp gs) && wasThumbUp (state g)
            && negb (isShooting (state g))) eqn:Hf.
  - apply andb_true_iff in Hf as [_ Hidle]. apply negb_true_iff in Hidle.
    match goal with |- context [shoot H ?g0] =>
      destruct (shoot_spec g0 Hidle) as (K1 & _ & _ & K4 & _ & K6 & K7 & _ & K9 & K10);
      set (g1 := shoot H g0) in * end.
    cbn [with_state state sounds] in *. rewrite orb_true_r.
    destruct (state g1); cbn in *. repeat split; assumption.
  - cbn. rewrite Z.add_0_r, orb_false_r. repeat split.
Qed.

Lemma reachable_sessionOk (g : Game) : reachable H g -> sessionOk g.
Proof.
  induction 1 as [|g e _ IH].
  - unfold sessionOk, shown. cbn. repeat split; lia.
  - by apply step_sessionOk.
Qed.

End SessionFacts.

(* ------------------------------------------------------------------ *)
(** ** Claims about the session *)

Lemma run_reachable (H : Game.Host) (es : list Game.Event) (g : Game.Game) :
  Game.reachable H g -> Game.reachable H (Game.run H g es).
Proof.
  revert g. induction es as [|e es IH]; intros g Hg; [done|].
  apply IH. by constructor.
Qed.

Lemma percent_exact_below_40 (hits shots : Z) :
  (0 <= hits <= shots)%Z -> (0 < shots < 40)%Z ->
  Math_round (ofZ hits / ofZ shots * 100)%float
  = ofZ (Invariants.exactPercent hits shots).
Proof.
  intros Hh Hs.
  assert (Hall : Invariants.agreesBelow 40 = true) by (vm_compute; reflexivity).
  unfold Invariants.agreesBelow in Hall.
  rewrite forallb_forall in Hall.
  specialize (Hall shots). rewrite <- list_elem_of_In, elem_of_seqZ in Hall.
  specialize (Hall ltac:(lia)).
  rewrite forallb_forall in Hall.
  specialize (Hall hits). rewrite <- list_elem_of_In, elem_of_seqZ in Hall.
  specialize (Hall ltac:(lia)).
  by apply FloatAxioms.Leibniz.eqb_spec.
Qed.

(** C5, as amended: in every state of a session [0 <= hits <= shots]; the
    accuracy display is untouched while no shot was fired and afterwards
    shows [Math.round] of the binary64 product [(hits / shots) * 100]; that
    number is the exactly rounded percentage in every session of fewer than
    40 shots (from 40 shots on it can be one less). *)
Theorem accuracy_display (H : Game.Host) (g : Game.Game) :
  Game.reachable H g ->
  (0 <= Game.hits (Game.state g) <= Game.shots (Game.state g))%Z
  /\ Game.accuracy g
     = (if (Game.shots (Game.state g) =? 0)%Z then None
        else Some (Math_round (ofZ (Game.hits (Game.state g))
                               / ofZ (Game.shots (Game.state g)) * 100)%float))
  /\ ((0 < Game.shots (Game.state g) < 40)%Z ->
      Game.accuracy g
      = Some (ofZ (Invariants.exactPercent (Game.hits (Game.state g))
                                           (Game.shots (Game.state g)))))
  /\ (Game.shots (Game.state g) = 0%Z ->
      Game.accuracy (Game.updateAccuracy g) = Game.accuracy g).
Proof.
  intros Hg. destruct (reachable_sessionOk H g Hg) as (_ & Hh & Ha).
  unfold Invariants.shown in Ha. repeat split; try lia; try assumption.
  - intros Hs. rewrite Ha.
    destruct (Z.eqb_spec (Game.shots (Game.state g)) 0); [lia|].
    f_equal. by apply percent_exact_below_40.
  - intros Hz. unfold Game.updateAccuracy. by rewrite Hz.
Qed.

Lemma accuracy_display_witness :
  Game.reachable Samples.sampleHost
    (Game.run Samples.sampleHost (Game.new Samples.sampleHost)
       (Samples.warmUp ++ Samples.missRound ++ Samples.hitRound))
  /\ Game.accuracy
       (Game.run Samples.sampleHost (Game.new Samples.sampleHost)
          (Samples.warmUp ++ Samples.missRound ++ Samples.hitRound))
     = Some 50%float.
Proof.
  split; [apply run_reachable, Game.reach_new|].
  pose proof (accuracy_display Samples.sampleHost
                (Game.run Samples.sampleHost (Game.new Samples.sampleHost)
                   (Samples.warmUp ++ Samples.missRound ++ Samples.hitRound))
                (run_reachable _ _ _ (Game.reach_new _))) as (_ & Ha & _).
  rewrite Ha. vm_compute. reflexivity.
Defined.

(** C5 fails as stated: after the forty shots of [fortyShots], 23 of them
    hits, the display shows 57, because 23/40 is rounded to binary64 before
    the multiplication and the product is 57.49999999999999; the exactly
    rounded percentage round(100 * 23 / 40) = round(57.5) is 58. *)
Lemma accuracy_one_below_exact :
  let g := Game.run Samples.sampleHost (Game.new Samples.sampleHost) Samples.fortyShots in
  Game.hits (Game.state g) = 23%Z
  /\ Game.shots (Game.state g) = 40%Z
  /\ (23 / 40 * 100)%float = 57.49999999999999%float
  /\ Game.accuracy g = Some 57%float
  /\ Invariants.exactPercent 23 40 = 58%Z
  /\ Game.accuracy g <> Some (ofZ (Invariants.exactPercent 23 40)).
Proof.
  vm_compute. repeat split. intros Heq.
  apply (f_equal (fun o => match o with Some v => (v <? 58)%float | None => false end)) in Heq.
  vm_compute in Heq. discriminate.
Qed.

Lemma inReg_state {A} (m : Game.M A) (g : Game.Game) :
  Game.state (snd (Game.inReg m g)) = Game.state g.
Proof. unfold Game.inReg. by destruct (m (Game.reg g)). Qed.

(** Only a gesture frame counts a shot or writes [wasThumbUp]. *)
Lemma step_keeps_trigger (H : Game.Host) (g : Game.Game) (e : Game.Event) :
  (forall gs, e <> Game.Gesture gs) ->
  Game.shots (Game.state (Game.step H g e)) = Game.shots (Game.state g)
  /\ Game.wasThumbUp (Game.state (Game.step H g e)) = Game.wasThumbUp (Game.state g).
Proof.
  assert (Hloop : forall g0,
            Game.shots (Game.state (Game.gameLoop H g0)) = Game.shots (Game.state g0)
            /\ Game.wasThumbUp (Game.state (Game.gameLoop H g0))
               = Game.wasThumbUp (Game.state g0)).
  { intros g0. unfold Game.gameLoop. destruct (Game.running (Game.state g0)); [|done].
    destruct (update_keeps H (Game.setTimeout Game.AnimationFrame g0))
      as (_ & _ & -> & _ & _ & -> & _). done. }
  intros Hne. destruct e as [| | |gs| |n]; cbn [Game.step]; try done.
  - unfold Game.start.
    match goal with |- context [fold_left ?f ?l ?g0] =>
      destruct (start_timers_keep l g0) as (Hs & _);
      destruct (Hloop (fold_left f l g0)) as (-> & ->); rewrite Hs end.
    done.
  - unfold Game.resume. destruct (Game.running (Game.state g)); [done|].
    match goal with |- context [Game.gameLoop H ?g0] =>
      destruct (Hloop g0) as (-> & ->) end. done.
  - by destruct (Hne gs).
  - destruct (Game.tasks g !! n) as [t|]; [|done].
    destruct t; cbn [Game.runTask]; try done.
    + by rewrite inReg_state.
    + destruct (_ <? _)%nat; [|done]. by rewrite inReg_state.
    + match goal with |- context [Game.gameLoop H ?g0] =>
        destruct (Hloop g0) as (-> & ->) end. done.
Qed.

(** The space key of the page calls [shoot()] whenever the game holds the
    gun pose: it counts a shot exactly when no shot is in progress, and does
    not write [wasThumbUp]. *)
Lemma keySpace_trigger (H : Game.Host) (a : App.App) :
  let g := App.game a in
  let g' := App.game (App.keySpace H a) in
  Game.shots (Game.state g')
  = (Game.shots (Game.state g)
     + if Game.isGunPose (Game.state g) && negb (Game.isShooting (Game.state g))
       then 1 else 0)%Z
  /\ Game.wasThumbUp (Game.state g') = Game.wasThumbUp (Game.state g).
Proof.
  cbv zeta. unfold App.keySpace.
  destruct (Game.isGunPose (Game.state (App.game a))); cbn [andb App.game]; [|split; [lia|done]].
  destruct (Game.isShooting (Game.state (App.game a))) eqn:Hb; cbn [negb].
  - rewrite shoot_busy by done. split; [lia|done].
  - destruct (shoot_spec H (App.game a) Hb) as (K1 & _ & _ & _ & K5 & _). by split.
Qed.

(** No input of the page other than a detection result and the space key
    counts a shot or writes [wasThumbUp]. *)
Lemma app_step_keeps_trigger (H : Game.Host) (a : App.App) (i : App.Input) :
  (forall r, i <> App.Results r) -> i <> App.KeySpace ->
  Game.shots (Game.state (App.game (App.step H a i))) = Game.shots (Game.state (App.game a))
  /\ Game.wasThumbUp (Game.state (App.game (App.step H a i)))
     = Game.wasThumbUp (Game.state (App.game a)).
Proof.
  intros Hr Hk. destruct i as [r| | | | |n]; cbn [App.step App.game].
  - by destruct (Hr r).
  - done.
  - done.
  - apply (step_keeps_trigger H (App.game a) Game.Resume). done.
  - destruct (App.phase a); cbn [App.game]; [|done].
    apply (step_keeps_trigger H (App.game a) Game.Start). done.
  - apply (step_keeps_trigger H (App.game a) (Game.Run n)). done.
Qed.

(** C2, as amended: a gesture frame fires (calls [shoot()], counted by
    [shots]) exactly when it shows the gun pose with the thumb down while
    [wasThumbUp] is true and [isShooting] is false; a fire sets [isShooting]
    and queues the 200 ms cooldown timer, whose callback alone clears it, so
    no frame fires during the cooldown; after the frame [wasThumbUp] is
    the frame's thumb reading in a gun pose and true otherwise, so the frame
    right after a fire never fires; the tracking-lost handler leaves
    [wasThumbUp], [isShooting] and [shots] as they are.  Besides a gesture
    frame one thing counts a shot: the space key of the page, which calls
    [shoot()] without the edge detector whenever the game holds the gun
    pose, and counts a shot exactly when [isShooting] is false; [shoot()]
    never writes [wasThumbUp].  No other method of the game and no other
    input of the page counts a shot or writes [wasThumbUp]. *)
Theorem trigger_edge_detector
    (H : Game.Host) (gs : HandTracker.GestureState) (g : Game.Game) :
  let fire := HandTracker.isGunPose gs && negb (HandTracker.isThumbUp gs)
              && Game.wasThumbUp (Game.state g) && negb (Game.isShooting (Game.state g)) in
  let g' := Game.updateGesture H gs g in
  Game.shots (Game.state g') = (Game.shots (Game.state g) + if fire then 1 else 0)%Z
  /\ Game.isShooting (Game.state g') = Game.isShooting (Game.state g) || fire
  /\ (if fire
      then exists earlier, Game.tasks g' = earlier ++ [Game.CooldownTimer 200]
      else Game.tasks g' = Game.tasks g)
  /\ Game.wasThumbUp (Game.state g')
     = (if HandTracker.isGunPose gs then HandTracker.isThumbUp gs else true)
  /\ (fire = true ->
      forall gs', Game.shots (Game.state (Game.updateGesture H gs' g'))
                  = Game.shots (Game.state g'))
  /\ (forall delay,
        Game.isShooting (Game.state (Game.runTask H (Game.CooldownTimer delay) g)) = false)
  /\ Game.wasThumbUp (Game.state (Game.onGestureLost g)) = Game.wasThumbUp (Game.state g)
  /\ Game.isShooting (Game.state (Game.onGestureLost g)) = Game.isShooting (Game.state g)
  /\ Game.shots (Game.state (Game.onGestureLost g)) = Game.shots (Game.state g)
  /\ (forall e, (forall gs', e <> Game.Gesture gs') ->
        Game.shots (Game.state (Game.step H g e)) = Game.shots (Game.state g)
        /\ Game.wasThumbUp (Game.state (Game.step H g e))
           = Game.wasThumbUp (Game.state g))
  /\ Game.shots (Game.state (Game.shoot H g))
     = (Game.shots (Game.state g) + if Game.isShooting (Game.state g) then 0 else 1)%Z
  /\ Game.wasThumbUp (Game.state (Game.shoot H g)) = Game.wasThumbUp (Game.state g)
  /\ (forall t p,
        let g'' := App.game (App.step H (App.mkApp t g p) App.KeySpace) in
        Game.shots (Game.state g'')
        = (Game.shots (Game.state g)
           + if Game.isGunPose (Game.state g) && negb (Game.isShooting (Game.state g))
             then 1 else 0)%Z
        /\ Game.wasThumbUp (Game.state g'') = Game.wasThumbUp (Game.state g))
  /\ (forall t p i, (forall r, i <> App.Results r) -> i <> App.KeySpace ->
        let g'' := App.game (App.step H (App.mkApp t g p) i) in
        Game.shots (Game.state g'') = Game.shots (Game.state g)
        /\ Game.wasThumbUp (Game.state g'') = Game.wasThumbUp (Game.state g))
  /\ (forall t p r,
        let g'' := App.game (App.step H (App.mkApp t g p) (App.Results r)) in
        g'' = g \/ g'' = Game.onGestureLost g
        \/ exists gs', g'' = Game.updateGesture H gs' g).
Proof.
  cbv zeta.
  destruct (updateGesture_spec H gs g) as (K1 & K2 & K3 & _ & _ & _ & K7).
  do 4 (split; [assumption|]). split; [|split; [done|]].
  - intros Hfire gs'.
    destruct (updateGesture_spec H gs' (Game.updateGesture H gs g)) as (-> & _).
    rewrite K2, Hfire, orb_true_r, !andb_false_r. lia.
  - do 3 (split; [reflexivity|]).
    split; [intros e He; by apply step_keeps_trigger|].
    assert (Hshoot : Game.shots (Game.state (Game.shoot H g))
                     = (Game.shots (Game.state g)
                        + if Game.isShooting (Game.state g) then 0 else 1)%Z
                     /\ Game.wasThumbUp (Game.state (Game.shoot H g))
                        = Game.wasThumbUp (Game.state g)).
    { destruct (Game.isShooting (Game.state g)) eqn:Hb.
      - rewrite shoot_busy by done. split; [lia|done].
      - destruct (shoot_spec H g Hb) as (S1 & _ & _ & _ & S5 & _). by split. }
    destruct Hshoot as (Hs1 & Hs2). do 2 (split; [assumption|]).
    split; [intros t p; apply (keySpace_trigger H (App.mkApp t g p))|].
    split; [intros t p i Hr Hk; by apply (app_step_keeps_trigger H (App.mkApp t g p))|].
    intros t p r. cbn [App.step]. unfold App.onResults. cbn [App.tracker App.game App.phase].
    destruct (HandTracker.processResults t r) as [t' cb|t']; cbn [App.game]; [|by left].
    destruct cb as [|gs' lms]; cbn [App.dispatch]; [by right; left|].
    right; right. by exists gs'.
Qed.

(** C2 fails as stated: the hand is aiming with the thumb up, tracking is
    lost, and the hand comes back with a first reading of thumb down: that
    frame fires (a shot and a miss are played).  When tracking is lost
    after that shot, [wasThumbUp] stays false: the handler does not touch it.
    And once the cooldown is over, a frame without the gun pose re-arms the
    detector, so the next thumb-down reading fires again although the thumb
    never went up. *)
Lemma reacquired_thumb_down_fires :
  let h := Samples.sampleHost in
  let g1 := Game.run h (Game.new h)
              (Samples.warmUp
               ++ [Game.Gesture (Samples.aimAt 0.5 0.5 true); Game.GestureLost]) in
  let g2 := Game.step h g1 (Game.Gesture (Samples.aimAt 0.5 0.5 false)) in
  let g3 := Game.step h g2 Game.GestureLost in
  let g4 := Game.run h g3 [Game.Run 1; Game.Gesture Samples.openHand;
                           Game.Gesture (Samples.aimAt 0.5 0.5 false)] in
  Game.shots (Game.state g1) = 0%Z
  /\ Game.shots (Game.state g2) = 1%Z
  /\ Game.sounds g2 = [Game.PlayShoot; Game.PlayMiss]
  /\ Game.wasThumbUp (Game.state g2) = false
  /\ Game.wasThumbUp (Game.state g3) = false
  /\ Game.isShooting (Game.state (Game.step h g3 (Game.Run 1))) = false
  /\ Game.shots (Game.state g4) = 2%Z.
Proof. vm_compute. repeat split. Qed.

(* ------------------------------------------------------------------ *)
(** ** Claims about the render tick *)

Lemma update_discs_length (H : Game.Host) (g : Game.Game) :
  length (Game.discs (Game.reg (Game.update H g)))
  = Nat.max (length (Game.discs (Game.reg g))) Game.maxCount.
Proof.
  rewrite update_unfold. cbv zeta. cbn [Game.reg].
  destruct (aim_spec H g) as (Hr & _). rewrite Hr.
  rewrite topUp_length.
  - f_equal. f_equal. by destruct (forEach_sameDiscs H (Game.clock H (Game.nclock (Game.reg g)))
      (Game.discs (Game.exec (Game.Date_now H) (Game.reg g)))
      (Game.exec (Game.Date_now H) (Game.reg g))) as [-> _].
  - unfold Game.maxCount. lia.
Qed.

Lemma update_evolves (H : Game.Host) (g : Game.Game) :
  Invariants.evolves (Game.reg g) (Game.reg (Game.update H g)).
Proof.
  rewrite update_unfold. cbv zeta. cbn [Game.reg].
  destruct (aim_spec H g) as (Hr & _). rewrite Hr.
  eapply evolves_trans; [|apply topUp_evolves].
  eapply evolves_trans; [|apply sameDiscs_evolves, forEach_sameDiscs].
  split; [exists []; by rewrite app_nil_r | eauto].
Qed.



Lemma start_spec (H : Game.Host) (g : Game.Game) :
  Game.tasks (Game.start H g)
  = Game.tasks g
    ++ [Game.SpawnTimer 0; Game.SpawnTimer 400; Game.SpawnTimer 800; Game.SpawnTimer 1200;
        Game.AnimationFrame]
  /\ length (Game.discs (Game.reg (Game.start H g)))
     = Nat.max (length (Game.discs (Game.reg g))) Game.maxCount
  /\ Game.running (Game.state (Game.start H g)) = true.
Proof.
  unfold Game.start.
  match goal with |- context [fold_left ?f ?l ?g0] =>
    destruct (start_timers_keep l g0) as (Hs & Hr & _ & _ & Ht);
    set (g1 := fold_left f l g0) in * end.
  unfold Game.gameLoop. rewrite Hs. cbn [Game.with_state Game.state Game.set_running Game.running].
  destruct (update_keeps H (Game.setTimeout Game.AnimationFrame g1))
    as (_ & _ & _ & _ & _ & _ & _ & _ & _ & Hrun & Htk).
  rewrite Htk, Hrun, update_discs_length.
  cbn [Game.setTimeout Game.with_tasks Game.tasks Game.reg Game.state].
  rewrite Ht, Hr, Hs. cbn. rewrite <- app_assoc. repeat split; reflexivity.
Qed.

Lemma spawn_timer_runs (H : Game.Host) (g : Game.Game) (delay : Z) (rest : list Game.Task) :
  Game.tasks g = Game.SpawnTimer delay :: rest ->
  Game.tasks (Game.step H g (Game.Run 0)) = rest
  /\ length (Game.discs (Game.reg (Game.step H g (Game.Run 0))))
     = S (length (Game.discs (Game.reg g)))
  /\ Game.running (Game.state (Game.step H g (Game.Run 0))) = Game.running (Game.state g).
Proof.
  intros Ht. cbn [Game.step]. rewrite Ht. cbn [lookup list_lookup delete list_delete Game.runTask].
  unfold Game.inReg. cbn [Game.with_tasks Game.reg].
  pose proof (createDisc_length H (Game.reg g)) as Hl. unfold Game.exec in Hl.
  destruct (Game.createDisc H (Game.reg g)) as [i r1]. cbn in *. by repeat split.
Qed.

(** An animation frame of a running game: the callback is queued again and
    the top-up loop fills the registry up to [maxCount], never down to it. *)
Lemma frame_runs (H : Game.Host) (g : Game.Game) :
  Game.running (Game.state g) = true ->
  Game.tasks g = [Game.AnimationFrame] ->
  Game.running (Game.state (Game.step H g (Game.Run 0))) = true
  /\ Game.tasks (Game.step H g (Game.Run 0)) = [Game.AnimationFrame]
  /\ length (Game.discs (Game.reg (Game.step H g (Game.Run 0))))
     = Nat.max (length (Game.discs (Game.reg g))) Game.maxCount.
Proof.
  intros Hrun Ht. cbn [Game.step]. rewrite Ht.
  cbn [lookup list_lookup delete list_delete Game.runTask].
  unfold Game.gameLoop. cbn [Game.with_tasks Game.state]. rewrite Hrun.
  match goal with |- context [Game.update H ?g0] =>
    destruct (update_keeps H g0) as (_ & _ & _ & _ & _ & _ & _ & _ & _ & -> & ->);
    rewrite (update_discs_length H g0) end.
  cbn. by rewrite Hrun.
Qed.

Lemma frames_keep_count (H : Game.Host) (n : nat) (g : Game.Game) :
  Game.running (Game.state g) = true ->
  Game.tasks g = [Game.AnimationFrame] ->
  (Game.maxCount <= length (Game.discs (Game.reg g)))%nat ->
  length (Game.discs (Game.reg (Game.run H g (replicate n (Game.Run 0)))))
  = length (Game.discs (Game.reg g)).
Proof.
  revert g. induction n as [|n IH]; intros g Hrun Ht Hlen; [reflexivity|].
  change (Game.run H g (replicate (S n) (Game.Run 0)))
    with (Game.run H (Game.step H g (Game.Run 0)) (replicate n (Game.Run 0))).
  destruct (frame_runs H g Hrun Ht) as (Hrun' & Ht' & Hlen').
  rewrite IH; try done; lia.
Qed.

Lemma run_app (H : Game.Host) (g : Game.Game) (es1 es2 : list Game.Event) :
  Game.run H g (es1 ++ es2) = Game.run H (Game.run H g es1) es2.
Proof. unfold Game.run. apply fold_left_app. Qed.

Lemma warmUp_spec (H : Game.Host) :
  length (Game.discs (Game.reg (Game.run H (Game.new H) [Game.Start]))) = 4%nat
  /\ length (Game.discs (Game.reg (Game.run H (Game.new H) Samples.warmUp))) = 8%nat
  /\ Game.tasks (Game.run H (Game.new H) Samples.warmUp) = [Game.AnimationFrame]
  /\ Game.running (Game.state (Game.run H (Game.new H) Samples.warmUp)) = true.
Proof.
  unfold Samples.warmUp, Game.run. cbn [fold_left].
  change (Game.step H (Game.new H) Game.Start) with (Game.start H (Game.new H)).
  destruct (start_spec H (Game.new H)) as (Ht0 & Hl0 & Hr0).
  cbn [Game.new Game.tasks Game.reg Game.discs length app] in Ht0, Hl0.
  set (g0 := Game.start H (Game.new H)) in *.
  destruct (spawn_timer_runs H g0 _ _ Ht0) as (Ht1 & Hl1 & Hr1).
  set (g1 := Game.step H g0 (Game.Run 0)) in *.
  destruct (spawn_timer_runs H g1 _ _ Ht1) as (Ht2 & Hl2 & Hr2).
  set (g2 := Game.step H g1 (Game.Run 0)) in *.
  destruct (spawn_timer_runs H g2 _ _ Ht2) as (Ht3 & Hl3 & Hr3).
  set (g3 := Game.step H g2 (Game.Run 0)) in *.
  destruct (spawn_timer_runs H g3 _ _ Ht3) as (Ht4 & Hl4 & Hr4).
  set (g4 := Game.step H g3 (Game.Run 0)) in *.
  clearbody g0 g1 g2 g3 g4. unfold Game.maxCount in *.
  repeat split; try assumption; try lia. congruence.
Qed.

(** C3: the code exceeds [maxCount].  In any browser, [start()] runs one
    tick at once, whose top-up loop creates four discs, and each of the four
    staggered spawn timers then creates one more without looking at the
    count: eight discs are live, twice [maxCount], the frame callback is
    all that is left waiting, and any number of further ticks leaves the
    eight discs in place. *)
Theorem start_overfills (H : Game.Host) :
  length (Game.discs (Game.reg (Game.run H (Game.new H) [Game.Start]))) = 4%nat
  /\ length (Game.discs (Game.reg (Game.run H (Game.new H) Samples.warmUp))) = 8%nat
  /\ Game.tasks (Game.run H (Game.new H) Samples.warmUp) = [Game.AnimationFrame]
  /\ (Game.maxCount < length (Game.discs (Game.reg (Game.run H (Game.new H) Samples.warmUp))))%nat
  /\ (forall n,
        length (Game.discs (Game.reg
                  (Game.run H (Game.new H) (Samples.warmUp ++ replicate n (Game.Run 0)))))
        = 8%nat).
Proof.
  destruct (warmUp_spec H) as (H4 & H8 & Ht & Hrun).
  do 3 (split; [assumption|]). split; [rewrite H8; unfold Game.maxCount; lia|].
  intros n. rewrite run_app.
  rewrite frames_keep_count; [exact H8 | exact Hrun | exact Ht|].
  rewrite H8. unfold Game.maxCount. lia.
Qed.

(* ------------------------------------------------------------------ *)
(** ** Relocation of old discs *)

Section RelocationFacts.

Import Game Invariants.

Context (H : Host).

Lemma updateDisc_clock (now : Z) (i : ref) (r : Registry) :
  (nclock r <= nclock (exec (updateDisc H now i) r))%nat.
Proof.
  pose proof (updateDisc_spec H now i r) as Hs.
  destruct (heap r !! i) as [di|]; [|rewrite Hs; lia].
  destruct (lifeTime <? now - createdAt di)%Z.
  - destruct Hs as (k & _ & ->). cbn. lia.
  - rewrite Hs. cbn. lia.
Qed.

Lemma updateDisc_other (now : Z) (i disc : ref) (r : Registry) :
  i <> disc -> heap (exec (updateDisc H now i) r) !! disc = heap r !! disc.
Proof.
  intros Hne. pose proof (updateDisc_spec H now i r) as Hs.
  destruct (heap r !! i) as [di|]; [|by rewrite Hs].
  destruct (lifeTime <? now - createdAt di)%Z.
  - destruct Hs as (k & _ & ->). cbn. by rewrite list_lookup_insert_ne.
  - rewrite Hs. cbn. by rewrite list_lookup_insert_ne.
Qed.

Lemma updateDisc_stamped (now : Z) (n0 : nat) (disc i : ref) (r : Registry) :
  (n0 < nclock r)%nat -> stampedAfter H n0 disc r ->
  stampedAfter H n0 disc (exec (updateDisc H now i) r).
Proof.
  intros Hn (d' & k & Hd' & Hk & Hc).
  destruct (decide (i = disc)) as [->|Hne];
    [|exists d', k; by rewrite updateDisc_other].
  pose proof (updateDisc_spec H now disc r) as Hs. rewrite Hd' in Hs.
  assert (Hlen : (disc < length (heap r))%nat) by (by eapply lookup_lt_Some).
  destruct (lifeTime <? now - createdAt d')%Z.
  - destruct Hs as (k' & _ & ->). eexists _, (nclock r). cbn.
    rewrite list_lookup_insert_eq by done. repeat split; done.
  - rewrite Hs. eexists _, k. cbn. rewrite list_lookup_insert_eq by done.
    split; [reflexivity|]. split; [done|].
    by destruct (moved_keeps H now d') as (_ & _ & ->).
Qed.

Lemma updateDisc_stamps (now : Z) (n0 : nat) (disc : ref) (d : Disc) (r : Registry) :
  (n0 < nclock r)%nat -> heap r !! disc = Some d -> (lifeTime < now - createdAt d)%Z ->
  stampedAfter H n0 disc (exec (updateDisc H now disc) r).
Proof.
  intros Hn Hd Hage.
  pose proof (updateDisc_spec H now disc r) as Hs. rewrite Hd in Hs.
  destruct (Z.ltb_spec lifeTime (now - createdAt d)); [|lia].
  destruct Hs as (k' & _ & ->). eexists _, (nclock r). cbn.
  rewrite list_lookup_insert_eq by (by eapply lookup_lt_Some). repeat split; done.
Qed.

Lemma forEach_stamped (now : Z) (n0 : nat) (disc : ref) (l : list ref) (r : Registry) :
  (n0 < nclock r)%nat -> stampedAfter H n0 disc r ->
  stampedAfter H n0 disc (exec (forEach (updateDisc H now) l) r).
Proof.
  revert r. induction l as [|i l IH]; intros r Hn Hst; [done|].
  unfold exec. cbn [forEach]. unfold bind.
  pose proof (updateDisc_stamped now n0 disc i r Hn Hst) as H1.
  pose proof (updateDisc_clock now i r) as H2. unfold exec in H1, H2.
  destruct (updateDisc H now i r) as [[] r1]. cbn [snd] in *.
  apply IH; [lia | done].
Qed.

Lemma forEach_stamps (now : Z) (n0 : nat) (disc : ref) (d : Disc)
    (l : list ref) (r : Registry) :
  (n0 < nclock r)%nat -> disc ∈ l -> heap r !! disc = Some d ->
  (lifeTime < now - createdAt d)%Z ->
  stampedAfter H n0 disc (exec (forEach (updateDisc H now) l) r).
Proof.
  revert r. induction l as [|i l IH]; intros r Hn Hin Hd Hage; [by apply elem_of_nil in Hin|].
  unfold exec. cbn [forEach]. unfold bind.
  pose proof (updateDisc_clock now i r) as H2. unfold exec in H2.
  destruct (decide (i = disc)) as [->|Hne].
  - pose proof (updateDisc_stamps now n0 disc d r Hn Hd Hage) as H1. unfold exec in H1.
    destruct (updateDisc H now disc r) as [[] r1]. cbn [snd] in *.
    apply forEach_stamped; [lia | done].
  - pose proof (updateDisc_other now i disc r Hne) as H1. unfold exec in H1.
    destruct (updateDisc H now i r) as [[] r1]. cbn [snd] in *.
    apply IH; [lia | | congruence | done].
    apply elem_of_cons in Hin as [Heq|Hin]; [congruence | done].
Qed.

Lemma topUp_keeps_heap (fuel : nat) (r : Registry) (i : ref) (d : Disc) :
  heap r !! i = Some d -> heap (exec (topUp H fuel) r) !! i = Some d.
Proof.
  revert r. induction fuel as [|n IH]; intros r Hd; unfold exec; cbn [topUp];
    unfold bind, get, ret; destruct (length (discs r) <? maxCount)%nat; try done.
  destruct (createDisc_spec H r) as (d0 & n0 & Hc & _). rewrite Hc.
  apply IH. cbn. by apply lookup_app_l_Some.
Qed.

End RelocationFacts.

(** C9: when a tick starts with a live disc older than the lifetime of
    8000 ms, the tick keeps every slot of [this.discs] (new discs are only
    appended), and the disc object is still in the store afterwards with the
    same colour and point value and a creation time read from the clock
    during the tick.  The pass of the disc loop that finds a disc too old
    overwrites, in that same object, the origin (a fresh point inside the
    bounds), the float phase, the drift velocity (a fresh direction at the
    configured speed) and the creation time; spin, amplitude, frequency,
    colour and points are kept, no other object is touched, and
    [this.discs] is unchanged. *)
Theorem relocation_in_place
    (H : Game.Host) (g : Game.Game) (disc : nat) (d : Game.Disc) :
  disc ∈ Game.discs (Game.reg g) ->
  Game.heap (Game.reg g) !! disc = Some d ->
  (Game.lifeTime < Game.clock H (Game.nclock (Game.reg g)) - Game.createdAt d)%Z ->
  (exists extra,
      Game.discs (Game.reg (Game.update H g)) = Game.discs (Game.reg g) ++ extra)
  /\ (exists d' k,
        Game.heap (Game.reg (Game.update H g)) !! disc = Some d'
        /\ Game.color d' = Game.color d /\ Game.points d' = Game.points d
        /\ (Game.nclock (Game.reg g) < k)%nat
        /\ Game.createdAt d' = Game.clock H k)
  /\ (forall now r d0,
        Game.heap r !! disc = Some d0 ->
        (Game.lifeTime < now - Game.createdAt d0)%Z ->
        exists k d' n,
          (Game.nrand r <= k)%nat
          /\ Game.exec (Game.updateDisc H now disc) r
             = Game.mkRegistry (<[disc := d']> (Game.heap r)) (Game.discs r) n
                               (S (Game.nclock r))
          /\ Game.originX d' = (Game.minX + Game.random H k * (Game.maxX - Game.minX))%float
          /\ Game.originY d'
             = (Game.minY + Game.random H (S k) * (Game.maxY - Game.minY))%float
          /\ Game.createdAt d' = Game.clock H (Game.nclock r)
          /\ Game.floatPhase d' = (Game.random H (S (S k)) * Game.Math_PI * 2)%float
          /\ Game.velX d'
             = (Game.Math_cos H (Game.random H (S (S (S k))) * Game.Math_PI * 2)
                * Game.floatSpeed)%float
          /\ Game.velY d'
             = (Game.Math_sin H (Game.random H (S (S (S k))) * Game.Math_PI * 2)
                * Game.floatSpeed)%float
          /\ Game.color d' = Game.color d0 /\ Game.points d' = Game.points d0
          /\ Game.rotationSpeed d' = Game.rotationSpeed d0
          /\ Game.floatAmplitude d' = Game.floatAmplitude d0
          /\ Game.floatFrequency d' = Game.floatFrequency d0).
Proof.
  intros Hin Hd Hage. split; [|split].
  - by destruct (update_evolves H g) as [? _].
  - destruct (update_evolves H g) as [_ Hkeep].
    destruct (Hkeep disc d Hd) as (d' & Hd' & Hc & Hp).
    assert (Hst : Invariants.stampedAfter H (Game.nclock (Game.reg g)) disc
                    (Game.reg (Game.update H g))).
    { rewrite update_unfold. cbv zeta. cbn [Game.reg].
      destruct (aim_spec H g) as (Hr & _). rewrite Hr.
      set (r1 := Game.exec (Game.Date_now H) (Game.reg g)).
      assert (Hs1 : Invariants.stampedAfter H (Game.nclock (Game.reg g)) disc
                      (Game.exec (Game.forEach
                         (Game.updateDisc H (Game.clock H (Game.nclock (Game.reg g))))
                         (Game.discs r1)) r1)).
      { apply forEach_stamps with d; try done. subst r1; cbn; lia. }
      destruct Hs1 as (d1 & k & Hd1 & Hk & Hc1).
      exists d1, k. split; [by apply topUp_keeps_heap | done]. }
    destruct Hst as (d2 & k & Hd2 & Hk & Hc2).
    assert (d2 = d') by congruence. subst d2.
    exists d', k. repeat split; done.
  - intros now r d0 Hd0 Hage0.
    pose proof (updateDisc_spec H now disc r) as Hs. rewrite Hd0 in Hs.
    destruct (Z.ltb_spec Game.lifeTime (now - Game.createdAt d0)); [|lia].
    destruct Hs as (k & Hk & ->).
    destruct (moved_keeps H now d0) as (Hc & Hp & _).
    eexists k, _, _. split; [done|]. split; [reflexivity|].
    cbn. repeat split; try done.
    all: unfold Game.moved, Game.bounceY, Game.bounceX;
      repeat match goal with |- context [if ?c then _ else _] => destruct c end;
      reflexivity.
Qed.

Lemma relocation_in_place_witness :
  let g := Game.run Samples.slowHost (Game.new Samples.slowHost) Samples.warmUp in
  0%nat ∈ Game.discs (Game.reg g)
  /\ Game.heap (Game.reg g) !! 0%nat = Some Samples.firstDisc
  /\ (Game.lifeTime
      < Game.clock Samples.slowHost (Game.nclock (Game.reg g))
        - Game.createdAt Samples.firstDisc)%Z
  /\ exists d' k,
       Game.heap (Game.reg (Game.update Samples.slowHost g)) !! 0%nat = Some d'
       /\ Game.color d' = Game.color Samples.firstDisc
       /\ Game.points d' = Game.points Samples.firstDisc
       /\ (Game.nclock (Game.reg g) < k)%nat
       /\ Game.createdAt d' = Game.clock Samples.slowHost k.
Proof.
  cbv zeta.
  assert (Hin : 0%nat ∈ Game.discs (Game.reg
            (Game.run Samples.slowHost (Game.new Samples.slowHost) Samples.warmUp)))
    by (vm_compute; constructor).
  assert (Hd : Game.heap (Game.reg
            (Game.run Samples.slowHost (Game.new Samples.slowHost) Samples.warmUp)) !! 0%nat
          = Some Samples.firstDisc) by (vm_compute; reflexivity).
  assert (Hage : (Game.lifeTime
        < Game.clock Samples.slowHost (Game.nclock (Game.reg
            (Game.run Samples.slowHost (Game.new Samples.slowHost) Samples.warmUp)))
          - Game.createdAt Samples.firstDisc)%Z) by (vm_compute; reflexivity).
  split; [exact Hin|]. split; [exact Hd|]. split; [exact Hage|].
  exact (proj1 (proj2 (relocation_in_place Samples.slowHost _ 0%nat _ Hin Hd Hage))).
Defined.

(* ------------------------------------------------------------------ *)
(** ** Magnetic acquisition *)

Section MagnetFacts.

Import Game Invariants.

Context (H : Host).

Lemma range_below_infinity : lt range infinity = true.
Proof. reflexivity. Qed.

(** The search loop returns the first disc of least screen distance among
    the discs strictly within the capture radius. *)
Lemma findNearest_spec (hp : list Disc) (tx ty : number) (l : list ref) :
  match snd (findNearest H hp tx ty l) with
  | None =>
      fst (findNearest H hp tx ty l) = infinity
      /\ forall j dj, j ∈ l -> hp !! j = Some dj ->
           lt (screenDist H tx ty dj) range = false
  | Some i =>
      exists pre post d,
        l = pre ++ i :: post
        /\ hp !! i = Some d
        /\ fst (findNearest H hp tx ty l) = screenDist H tx ty d
        /\ lt (screenDist H tx ty d) range = true
        /\ (forall j dj, j ∈ l -> hp !! j = Some dj ->
              lt (screenDist H tx ty dj) (screenDist H tx ty d) = false)
        /\ (forall j dj, j ∈ pre -> hp !! j = Some dj ->
              lt (screenDist H tx ty dj) range = true ->
              lt (screenDist H tx ty d) (screenDist H tx ty dj) = true)
  end.
Proof.
  induction l as [|j l IH] using rev_ind.
  - cbn. split; [reflexivity|]. intros j dj Hj. by apply elem_of_nil in Hj.
  - unfold findNearest in *. rewrite fold_left_app. cbn [fold_left].
    destruct (fold_left (nearer H hp tx ty) l (infinity, None)) as [best sel].
    cbn [fst snd] in IH. unfold nearer. cbn [fst snd].
    destruct (hp !! j) as [dj|] eqn:Hj.
    + remember (screenDist H tx ty dj) as x eqn:Hx.
      destruct (lt x best) eqn:Hxb; cbn [andb].
      * destruct (lt x range) eqn:Hxr; cbn [fst snd].
        -- (* the disc becomes the candidate *)
           exists l, [], dj. rewrite <- Hx. repeat split; try done.
           ++ intros k dk Hk Hdk. apply elem_of_app in Hk as [Hk|Hk].
              ** destruct (lt (screenDist H tx ty dk) x) eqn:Hkx; [|done].
                 destruct sel as [i|].
                 --- destruct IH as (pre & post & d & -> & Hd & -> & _ & Hmin & _).
                     pose proof (number_lt_trans _ _ _ Hkx Hxb) as Hc.
                     rewrite (Hmin k dk Hk Hdk) in Hc. discriminate.
                 --- destruct IH as (_ & Hout).
                     pose proof (number_lt_trans _ _ _ Hkx Hxr) as Hc.
                     rewrite (Hout k dk Hk Hdk) in Hc. discriminate.
              ** apply list_elem_of_singleton in Hk as ->.
                 assert (dk = dj) by congruence. subst dk. rewrite <- Hx. apply number_lt_irrefl.
           ++ intros k dk Hk Hdk Hkr. destruct sel as [i|].
              ** destruct IH as (pre & post & d & -> & Hd & -> & _ & Hmin & _).
                 eapply number_lt_below; [exact Hxb | exact Hkr | by apply (Hmin k)].
              ** destruct IH as (_ & Hout). by rewrite (Hout k dk Hk Hdk) in Hkr.
        -- (* outside the radius: nothing changes *)
           destruct sel as [i|].
           ++ destruct IH as (pre & post & d & -> & Hd & -> & Hr & Hmin & Hfirst).
              exists pre, (post ++ [j]), d. split; [by rewrite <- app_assoc|].
              repeat split; try done.
              intros k dk Hk Hdk. apply elem_of_app in Hk as [Hk|Hk]; [by apply (Hmin k)|].
              apply list_elem_of_singleton in Hk as ->.
              assert (dk = dj) by congruence. subst dk. rewrite <- Hx.
              pose proof (number_lt_trans _ _ _ Hxb Hr) as Hc. congruence.
           ++ destruct IH as (-> & Hout). split; [done|].
              intros k dk Hk Hdk. apply elem_of_app in Hk as [Hk|Hk]; [by apply (Hout k)|].
              apply list_elem_of_singleton in Hk as ->.
              assert (dk = dj) by congruence. subst dk. by rewrite <- Hx.
      * (* not nearer than the candidate *)
        cbn [fst snd]. destruct sel as [i|].
        -- destruct IH as (pre & post & d & -> & Hd & -> & Hr & Hmin & Hfirst).
           exists pre, (post ++ [j]), d. split; [by rewrite <- app_assoc|].
           repeat split; try done.
           intros k dk Hk Hdk. apply elem_of_app in Hk as [Hk|Hk]; [by apply (Hmin k)|].
           apply list_elem_of_singleton in Hk as ->.
           assert (dk = dj) by congruence. subst dk. by rewrite <- Hx.
        -- destruct IH as (-> & Hout). split; [done|].
           intros k dk Hk Hdk. apply elem_of_app in Hk as [Hk|Hk]; [by apply (Hout k)|].
           apply list_elem_of_singleton in Hk as ->.
           assert (dk = dj) by congruence. subst dk. rewrite <- Hx.
           destruct (lt x range) eqn:Hxr; [|done].
           pose proof (number_lt_trans _ _ _ Hxr range_below_infinity) as Hc. congruence.
    + (* a reference without an object: skipped *)
      destruct sel as [i|].
      * destruct IH as (pre & post & d & -> & Hd & -> & Hr & Hmin & Hfirst).
        exists pre, (post ++ [j]), d. split; [by rewrite <- app_assoc|].
        repeat split; try done.
        intros k dk Hk Hdk. apply elem_of_app in Hk as [Hk|Hk]; [by apply (Hmin k)|].
        apply list_elem_of_singleton in Hk as ->. congruence.
      * destruct IH as (-> & Hout). split; [done|].
        intros k dk Hk Hdk. apply elem_of_app in Hk as [Hk|Hk]; [by apply (Hout k)|].
        apply list_elem_of_singleton in Hk as ->. congruence.
Qed.

(** The point the crosshair is pulled to. *)
Lemma aim_final (g : Game) :
  snd (aim H g)
  = match snd (nearest H g) with
    | Some disc =>
        if isGunPose (state g) then
          let sp := positionOf H (heap (reg g)) disc in
          let m := magnetStrength (fst (nearest H g)) in
          ((targetX (state g) + (fst sp - targetX (state g)) * m)%float,
           (targetY (state g) + (snd sp - targetY (state g)) * m)%float)
        else (targetX (state g), targetY (state g))
    | None => (targetX (state g), targetY (state g))
    end.
Proof.
  unfold aim. destruct (nearest H g) as [nd [disc|]]; cbn [fst snd]; [|reflexivity].
  destruct (isGunPose (state g)); reflexivity.
Qed.

Lemma update_crosshair (g : Game) :
  crosshairX (state (update H g))
  = (crosshairX (state g) + (fst (snd (aim H g)) - crosshairX (state g)) * smoothing)%float
  /\ crosshairY (state (update H g))
     = (crosshairY (state g) + (snd (snd (aim H g)) - crosshairY (state g)) * smoothing)%float.
Proof.
  rewrite update_unfold. cbv zeta. cbn [state].
  destruct (aim_spec H g) as (_ & _ & _ & _ & _ & _ & ->).
  destruct (state g). split; reflexivity.
Qed.

End MagnetFacts.

(** The search and the pull of the crosshair, in the terms of [update()]. *)
Lemma magnet_search (H : Game.Host) (g : Game.Game) :
  let s := Game.state g in
  let hp := Game.heap (Game.reg g) in
  let dist := Game.screenDist H (Game.targetX s) (Game.targetY s) in
  match snd (Game.nearest H g) with
  | Some disc =>
      exists pre post d,
        Game.discs (Game.reg g) = pre ++ disc :: post
        /\ hp !! disc = Some d
        /\ fst (Game.nearest H g) = dist d
        /\ lt (dist d) Game.range = true
        /\ (forall j dj, j ∈ Game.discs (Game.reg g) -> hp !! j = Some dj ->
              lt (dist dj) (dist d) = false)
        /\ (forall j dj, j ∈ pre -> hp !! j = Some dj ->
              lt (dist dj) Game.range = true -> lt (dist d) (dist dj) = true)
        /\ (Game.isGunPose s = true ->
            let m := ((1 - dist d / Game.range) * Game.strength)%float in
            let sp := Game.worldToScreen H d in
            Game.lockedTarget (Game.state (Game.update H g)) = Some disc
            /\ Game.crosshairX (Game.state (Game.update H g))
               = (Game.crosshairX s
                  + (Game.targetX s + (fst sp - Game.targetX s) * m - Game.crosshairX s)
                    * Game.smoothing)%float
            /\ Game.crosshairY (Game.state (Game.update H g))
               = (Game.crosshairY s
                  + (Game.targetY s + (snd sp - Game.targetY s) * m - Game.crosshairY s)
                    * Game.smoothing)%float)
  | None =>
      (forall j dj, j ∈ Game.discs (Game.reg g) -> hp !! j = Some dj ->
         lt (dist dj) Game.range = false)
      /\ Game.lockedTarget (Game.state (Game.update H g)) = None
  end
  /\ (Game.isGunPose s = false ->
      Game.lockedTarget (Game.state (Game.update H g)) = None).
Proof.
  cbv zeta.
  pose proof (findNearest_spec H (Game.heap (Game.reg g))
                (Game.targetX (Game.state g)) (Game.targetY (Game.state g))
                (Game.discs (Game.reg g))) as Hn.
  fold (Game.nearest H g) in Hn.
  destruct (aim_spec H g) as (_ & _ & _ & _ & _ & Hl & _).
  destruct (update_crosshair H g) as (Hcx & Hcy).
  assert (Hlk : Game.lockedTarget (Game.state (Game.update H g))
                = Game.lockedTarget (Game.state (fst (Game.aim H g)))).
  { rewrite update_unfold. reflexivity. }
  rewrite aim_final in Hcx, Hcy. unfold Invariants.locksOn in Hl.
  split.
  - destruct (snd (Game.nearest H g)) as [disc|].
    + destruct Hn as (pre & post & d & Hpre & Hd & Hfst & Hr & Hmin & Hfirst).
      exists pre, post, d. do 6 (split; [done|]).
      intros Hgun. rewrite Hgun in *. split; [|split].
      * by rewrite Hlk, Hl.
      * rewrite Hcx. cbv zeta. unfold Game.positionOf, Game.magnetStrength.
        by rewrite Hd, Hfst.
      * rewrite Hcy. cbv zeta. unfold Game.positionOf, Game.magnetStrength.
        by rewrite Hd, Hfst.
    + destruct Hn as (_ & Hout). split; [done|]. by rewrite Hlk, Hl.
  - intros Hgun. rewrite Hlk, Hl, Hgun. by destruct (snd (Game.nearest H g)).
Qed.

(** C6: on every tick the search returns, among the discs of [this.discs]
    whose Euclidean distance on the screen from the projected disc to the raw
    aim point is strictly below the capture radius of 120 px, one of least
    distance, and the first such in array order (every earlier disc within
    the radius is strictly farther); it returns none exactly when no disc is
    within the radius, so a disc at or beyond the radius is never selected.
    With the gun pose active the selected disc becomes the locked target and
    the crosshair is pulled, with smoothing 0.12, towards the aim point
    blended with the disc by the strength [(1 - distance / 120) * 0.6], which
    is 0 at the radius and 0.6 at distance 0; without the gun pose no disc is
    locked.  Distances, screen points and the blend are those of
    [MagnetSpec]. *)
Theorem magnetic_acquisition (H : Game.Host) (g : Game.Game) :
  let s := Game.state g in
  let hp := Game.heap (Game.reg g) in
  let dist := MagnetSpec.aimDistance H (Game.targetX s) (Game.targetY s) in
  match snd (Game.nearest H g) with
  | Some disc =>
      exists pre post d,
        Game.discs (Game.reg g) = pre ++ disc :: post
        /\ hp !! disc = Some d
        /\ fst (Game.nearest H g) = dist d
        /\ (dist d <? 120)%float = true
        /\ (forall j dj, j ∈ Game.discs (Game.reg g) -> hp !! j = Some dj ->
              (dist dj <? dist d)%float = false)
        /\ (forall j dj, j ∈ pre -> hp !! j = Some dj ->
              (dist dj <? 120)%float = true -> (dist d <? dist dj)%float = true)
        /\ (Game.isGunPose s = true ->
            let m := MagnetSpec.blend (dist d) in
            let sp := MagnetSpec.screenPoint H d in
            Game.lockedTarget (Game.state (Game.update H g)) = Some disc
            /\ Game.crosshairX (Game.state (Game.update H g))
               = (Game.crosshairX s
                  + (Game.targetX s + (fst sp - Game.targetX s) * m - Game.crosshairX s)
                    * 0.12)%float
            /\ Game.crosshairY (Game.state (Game.update H g))
               = (Game.crosshairY s
                  + (Game.targetY s + (snd sp - Game.targetY s) * m - Game.crosshairY s)
                    * 0.12)%float)
  | None =>
      (forall j dj, j ∈ Game.discs (Game.reg g) -> hp !! j = Some dj ->
         (dist dj <? 120)%float = false)
      /\ Game.lockedTarget (Game.state (Game.update H g)) = None
  end
  /\ (Game.isGunPose s = false ->
      Game.lockedTarget (Game.state (Game.update H g)) = None)
  /\ (forall x, Game.magnetStrength x = MagnetSpec.blend x)
  /\ MagnetSpec.blend 120 = 0%float
  /\ MagnetSpec.blend 0 = 0.6%float
  /\ Game.range = 120%float /\ Game.strength = 0.6%float.
Proof.
  cbv zeta. destruct (magnet_search H g) as (Hm & Hoff).
  split; [exact Hm|]. split; [exact Hoff|]. repeat split.
Qed.

(** On [variedHost] eight discs are alive after the warm-up.  With the aim
    point at (850, 468) the discs 2 and 4 are within the radius, at 20.25 px
    and 9.07 px: disc 4 is selected although disc 2 comes first in the array,
    and disc 5, 143.78 px away, is not a candidate; the tick locks disc 4
    and moves the crosshair from the centre (640, 360) to (665.77, 372.77).
    With the aim point in the top left corner no disc is within the radius
    and the tick locks none. *)
Lemma magnetic_acquisition_witness :
  let h := Samples.variedHost in
  let g := Game.run h (Game.new h)
             (Samples.warmUp ++ [Game.Gesture (Samples.aimAt 0.6640625 0.65 true)]) in
  let g0 := Game.run h (Game.new h)
              (Samples.warmUp ++ [Game.Gesture (Samples.aimAt 0 0 true)]) in
  let dist := MagnetSpec.aimDistance h 850 468 in
  (Game.discs (Game.reg g) = [0; 1; 2; 3; 4; 5; 6; 7]%nat
   /\ Game.targetX (Game.state g) = 850%float /\ Game.targetY (Game.state g) = 468%float
   /\ dist <$> Game.heap (Game.reg g) !! 2%nat = Some 20.25037865093692%float
   /\ dist <$> Game.heap (Game.reg g) !! 4%nat = Some 9.0735646540821495%float
   /\ dist <$> Game.heap (Game.reg g) !! 5%nat = Some 143.7816327828194%float
   /\ Game.nearest h g = (9.0735646540821495%float, Some 4%nat)
   /\ Game.lockedTarget (Game.state (Game.update h g)) = Some 4%nat
   /\ Game.crosshairX (Game.state (Game.update h g)) = 665.77330296287687%float
   /\ Game.crosshairY (Game.state (Game.update h g)) = 372.77021695022006%float)
  /\ (snd (Game.nearest h g0) = None
      /\ Game.lockedTarget (Game.state (Game.update h g0)) = None).
Proof.
  intros h g g0 dist. split.
  - pose proof (magnetic_acquisition h g) as Hm. cbv zeta in Hm.
    assert (Hn : snd (Game.nearest h g) = Some 4%nat) by (vm_compute; reflexivity).
    assert (Hx : Game.targetX (Game.state g) = 850%float) by (vm_compute; reflexivity).
    assert (Hy : Game.targetY (Game.state g) = 468%float) by (vm_compute; reflexivity).
    assert (Hgun : Game.isGunPose (Game.state g) = true) by (vm_compute; reflexivity).
    assert (Hd : Game.discs (Game.reg g) = [0; 1; 2; 3; 4; 5; 6; 7]%nat)
      by (vm_compute; reflexivity).
    assert (E2 : dist <$> Game.heap (Game.reg g) !! 2%nat = Some 20.25037865093692%float)
      by (vm_compute; reflexivity).
    assert (E4 : dist <$> Game.heap (Game.reg g) !! 4%nat = Some 9.0735646540821495%float)
      by (vm_compute; reflexivity).
    assert (E5 : dist <$> Game.heap (Game.reg g) !! 5%nat = Some 143.7816327828194%float)
      by (vm_compute; reflexivity).
    assert (Ex : (fun d => (640 + (850 + (fst (MagnetSpec.screenPoint h d) - 850)
                                       * MagnetSpec.blend (dist d) - 640) * 0.12)%float)
                   <$> Game.heap (Game.reg g) !! 4%nat
                 = Some 665.77330296287687%float) by (vm_compute; reflexivity).
    assert (Ey : (fun d => (360 + (468 + (snd (MagnetSpec.screenPoint h d) - 468)
                                       * MagnetSpec.blend (dist d) - 360) * 0.12)%float)
                   <$> Game.heap (Game.reg g) !! 4%nat
                 = Some 372.77021695022006%float) by (vm_compute; reflexivity).
    assert (Hcx : Game.crosshairX (Game.state g) = 640%float) by (vm_compute; reflexivity).
    assert (Hcy : Game.crosshairY (Game.state g) = 360%float) by (vm_compute; reflexivity).
    clearbody g. clear g0.
    destruct Hm as (Hm & _). rewrite Hn, Hx, Hy in Hm. fold dist in Hm.
    destruct Hm as (pre & post & d & Hpre & Hd4 & Hfst & Hr & Hmin & Hfirst & Hlock).
    destruct (Hlock Hgun) as (Hl & Hux & Huy).
    do 6 (split; [assumption|]).
    assert (E : dist d = 9.0735646540821495%float).
    { pose proof E4 as E. rewrite Hd4 in E.
      apply (f_equal (default nan)) in E. exact E. }
    split; [|split; [exact Hl|split]].
    + rewrite (surjective_pairing (Game.nearest h g)), Hn, Hfst, E. reflexivity.
    + rewrite Hux, Hcx. rewrite Hd4 in Ex.
      apply (f_equal (default nan)) in Ex. exact Ex.
    + rewrite Huy, Hcy. rewrite Hd4 in Ey.
      apply (f_equal (default nan)) in Ey. exact Ey.
  - pose proof (magnetic_acquisition h g0) as Hm. cbv zeta in Hm.
    assert (Hn : snd (Game.nearest h g0) = None) by (vm_compute; reflexivity).
    clearbody g0. clear g.
    destruct Hm as (Hm & _). rewrite Hn in Hm. destruct Hm as (_ & Hl).
    split; [exact Hn | exact Hl].
Defined.

(* ------------------------------------------------------------------ *)
(** ** The detection throttle *)

(** X1: whatever the clock readings of successive calls of [detect()], two
    frames sent to the hand model are at least [detectionInterval] apart,
    the first of them at least that long after the recorded time; a skipped
    call changes nothing; and the constructor turns an absent or zero
    interval into 33 ms. *)
Theorem detect_throttles (t : Detect.Throttle) (nows : list Z) :
  Detect.spaced (Detect.detectionInterval t) (Detect.lastDetectionTime t)
                (Detect.sent t nows)
  /\ (forall now, snd (Detect.detect now t) = false -> fst (Detect.detect now t) = t)
  /\ Detect.detectionInterval (Detect.new None) = 33%Z
  /\ Detect.detectionInterval (Detect.new (Some 0%Z)) = 33%Z.
Proof.
  split; [|split; [|split; reflexivity]].
  - revert t. induction nows as [|now nows IH]; intros t; [exact I|].
    cbn [Detect.sent]. unfold Detect.detect.
    destruct (Z.ltb_spec (now - Detect.lastDetectionTime t) (Detect.detectionInterval t));
      cbn [fst snd].
    + apply IH.
    + split; [lia|]. apply (IH (Detect.mkThrottle now (Detect.detectionInterval t))).
  - intros now. unfold Detect.detect. by destruct (_ <? _)%Z.
Qed.

(* ------------------------------------------------------------------ *)
(** ** Frames of any length *)




Lemma verdict_threshold (v : HandTracker.Verdict) :
  HandTracker.indexExtended v && (2 <=? HandTracker.othersFolded v)%nat
  = negb (HandTracker.confidenceOf v <? 0.8)%float.
Proof. destruct v as [[] [] [] [] ? ? ?]; reflexivity. Qed.

(** X3: whenever [processResults] returns, the published gun pose flag is
    true exactly when the published confidence is not below 0.8: the flag
    and the weighted sum never disagree, also for a lost hand (flag false,
    confidence 0). *)
Theorem gun_pose_iff_confident (t : HandTracker.Tracker) (r : HandTracker.Results) :
  match HandTracker.processResults t r with
  | HandTracker.Ok t' _ =>
      HandTracker.isGunPose (HandTracker.gestureState t')
      = negb (HandTracker.confidence (HandTracker.gestureState t') <? 0.8)%float
  | HandTracker.Throw _ => True
  end.
Proof.
  unfold HandTracker.processResults.
  destruct r as [[|f others]|]; try reflexivity.
  destruct (HandTracker.analyse f) as [v|]; [|exact I].
  cbn. apply verdict_threshold.
Qed.
(* ------------------------------------------------------------------ *)
(** ** The particle system *)

Lemma sweep_spec (pre rest : list Particles.Particle) :
  Particles.sweep (length pre) (pre ++ rest)
  = Some (filter Particles.alive (map Particles.aged pre) ++ rest).
Proof.
  revert rest. induction pre as [|p pre IH] using rev_ind; intros rest; [reflexivity|].
  rewrite length_app, Nat.add_1_r. cbn [Particles.sweep].
  rewrite <- app_assoc. cbn [app].
  rewrite list_lookup_middle by done.
  rewrite map_app, filter_app. cbn [map].
  destruct (Particles.dead (Particles.aged p)) eqn:Hd.
  - rewrite delete_middle, IH.
    rewrite filter_cons_False by (unfold Particles.alive; rewrite Hd; by intros []).
    by rewrite filter_nil, app_nil_r.
  - rewrite insert_app_r_alt by done. rewrite Nat.sub_diag. cbn [insert list_insert].
    rewrite IH.
    rewrite filter_cons_True by (unfold Particles.alive; by rewrite Hd).
    by rewrite filter_nil, <- app_assoc.
Qed.

Lemma update_spec (ps : list Particles.Particle) :
  Particles.update ps = Some (filter Particles.alive (map Particles.aged ps)).
Proof.
  unfold Particles.update. pose proof (sweep_spec ps []) as Hs.
  by rewrite !app_nil_r in Hs.
Qed.

(** X4: [update()] never reads an empty slot, although it splices the
    array it is walking: going from the last index down, it ages every
    particle exactly once and leaves, in their order, the aged particles
    whose life is still positive. *)
Theorem update_sweeps (ps : list Particles.Particle) :
  Particles.update ps = Some (filter Particles.alive (map Particles.aged ps))
  /\ (forall ps', Particles.update ps = Some ps' ->
        (length ps' <= length ps)%nat
        /\ forall p, p ∈ ps' -> (0 <? Particles.life p)%float = true
                                \/ is_nan (Particles.life p) = true).
Proof.
  pose proof (update_spec ps) as Hu.
  split; [exact Hu|]. intros ps' Hps'. rewrite Hu in Hps'. injection Hps' as <-.
  split.
  - etransitivity; [apply length_filter|]. by rewrite length_map.
  - intros p Hp. apply list_elem_of_filter in Hp as [Hal _].
    unfold Particles.alive, Particles.dead in Hal.
    destruct (Particles.life p <=? 0)%float eqn:Hle; [by destruct Hal|].
    clear Hal. unfold is_nan. rewrite leb_spec in Hle. rewrite ltb_spec, eqb_spec.
    change (Prim2SF 0) with (S754_zero false) in *.
    destruct (Prim2SF (Particles.life p)) as [s|s| |s m e];
      unfold SFleb, SFltb, SFeqb, SFcompare in *; try destruct s; cbn in *;
      try discriminate; auto.
Qed.

Section ParticleFacts.

Import Particles.

Context (H : Game.Host).

Lemma explosionParticle_spec (at_ : Vec3) (s : System) :
  exists p,
    explosionParticle H at_ s = mkSystem (particles s ++ [p]) (4 + nrand s)
    /\ position p = at_ /\ life p = 1%float
    /\ decay p = (0.02 + Game.random H (3 + nrand s) * 0.02)%float.
Proof. eexists. split; [reflexivity|]. repeat split. Qed.

Lemma sparkParticle_spec (at_ : Vec3) (s : System) :
  exists p,
    sparkParticle H at_ s = mkSystem (particles s ++ [p]) (3 + nrand s)
    /\ position p = at_ /\ life p = 1%float /\ decay p = 0.04%float.
Proof. eexists. split; [reflexivity|]. repeat split. Qed.

Lemma createExplosion_spec (at_ : Vec3) (count : nat) (s : System) :
  exists news,
    particles (createExplosion H at_ count s) = particles s ++ news
    /\ length news = count
    /\ Forall (fun p => position p = at_ /\ life p = 1%float) news
    /\ nrand (createExplosion H at_ count s) = (4 * count + nrand s)%nat.
Proof.
  revert s. induction count as [|n IH]; intros s.
  - exists []. cbn. by rewrite app_nil_r.
  - cbn [createExplosion].
    destruct (explosionParticle_spec at_ s) as (p & -> & Hp & Hl & _).
    destruct (IH (mkSystem (particles s ++ [p]) (4 + nrand s)))
      as (news & -> & Hlen & Hall & ->).
    exists (p :: news). cbn [particles nrand length]. rewrite <- app_assoc.
    repeat split; try done; try lia. by constructor.
Qed.

Lemma createSparks_spec (at_ : Vec3) (count : nat) (s : System) :
  exists news,
    particles (createSparks H at_ count s) = particles s ++ news
    /\ length news = count
    /\ Forall (fun p => position p = at_ /\ life p = 1%float /\ decay p = 0.04%float) news
    /\ nrand (createSparks H at_ count s) = (3 * count + nrand s)%nat.
Proof.
  revert s. induction count as [|n IH]; intros s.
  - exists []. cbn. by rewrite app_nil_r.
  - cbn [createSparks].
    destruct (sparkParticle_spec at_ s) as (p & -> & Hp & Hl & Hd).
    destruct (IH (mkSystem (particles s ++ [p]) (3 + nrand s)))
      as (news & -> & Hlen & Hall & ->).
    exists (p :: news). cbn [particles nrand length]. rewrite <- app_assoc.
    repeat split; try done; try lia. by constructor.
Qed.

End ParticleFacts.

(** X5: [createExplosion] and [createSparks] append exactly [count] new
    particles after the ones already flying, which they leave untouched;
    every new particle starts at the given position with life 1; an
    explosion particle costs four calls of [Math.random()], a spark three,
    and every spark decays by 0.04 per update. *)
Theorem particles_created
    (H : Game.Host) (at_ : Particles.Vec3) (count : nat) (s : Particles.System) :
  (exists news,
      Particles.particles (Particles.createExplosion H at_ count s)
      = Particles.particles s ++ news
      /\ length news = count
      /\ Forall (fun p => Particles.position p = at_ /\ Particles.life p = 1%float) news
      /\ Particles.nrand (Particles.createExplosion H at_ count s)
         = (4 * count + Particles.nrand s)%nat)
  /\ (exists news,
        Particles.particles (Particles.createSparks H at_ count s)
        = Particles.particles s ++ news
        /\ length news = count
        /\ Forall (fun p => Particles.position p = at_ /\ Particles.life p = 1%float
                            /\ Particles.decay p = 0.04%float) news
        /\ Particles.nrand (Particles.createSparks H at_ count s)
           = (3 * count + Particles.nrand s)%nat).
Proof. split; [apply createExplosion_spec | apply createSparks_spec]. Qed.

Lemma aged_iter (k : nat) (p : Particles.Particle) :
  Particles.life (Nat.iter k Particles.aged p)
  = Nat.iter k (fun l => (l - Particles.decay p)%float) (Particles.life p)
  /\ Particles.decay (Nat.iter k Particles.aged p) = Particles.decay p.
Proof.
  induction k as [|k [IHl IHd]]; [done|]. rewrite !Nat.iter_succ.
  set (q := Nat.iter k Particles.aged p) in *. split; [|exact IHd].
  change (Particles.life (Particles.aged q))
    with (Particles.life q - Particles.decay q)%float.
  by rewrite IHl, IHd.
Qed.

Lemma updates_alive (k : nat) (ps : list Particles.Particle) :
  Forall (fun p => forall j, (1 <= j <= k)%nat ->
                   Particles.dead (Nat.iter j Particles.aged p) = false) ps ->
  Particles.updates k ps = Some (map (Nat.iter k Particles.aged) ps).
Proof.
  revert ps. induction k as [|k IH]; intros ps Hall.
  - cbn. by rewrite map_id.
  - cbn [Particles.updates]. rewrite update_spec.
    assert (Hf : filter Particles.alive (map Particles.aged ps) = map Particles.aged ps).
    { clear IH. induction ps as [|p ps IHps]; [done|].
      apply Forall_cons in Hall as [Hp Hall]. cbn [map].
      rewrite filter_cons_True.
      - by rewrite IHps.
      - unfold Particles.alive. specialize (Hp 1%nat ltac:(lia)).
        change (Nat.iter 1 Particles.aged p) with (Particles.aged p) in Hp.
        by rewrite Hp. }
    rewrite Hf, IH.
    + rewrite map_map. f_equal. apply map_ext. intros p. by rewrite Nat.iter_succ_r.
    + apply Forall_map. eapply Forall_impl; [exact Hall|]. cbn.
      intros p Hp j Hj. rewrite <- Nat.iter_succ_r. apply Hp. lia.
Qed.

Lemma updates_succ_r (k : nat) (ps : list Particles.Particle) :
  Particles.updates (S k) ps
  = match Particles.updates k ps with
    | Some ps' => Particles.update ps'
    | None => None
    end.
Proof.
  revert ps. induction k as [|k IH]; intros ps.
  - cbn. by destruct (Particles.update ps).
  - change (Particles.updates (S (S k)) ps)
      with (match Particles.update ps with
            | Some ps' => Particles.updates (S k) ps'
            | None => None
            end).
    cbn [Particles.updates]. destruct (Particles.update ps) as [ps'|]; [|done].
    apply IH.
Qed.

Lemma spark_life (p : Particles.Particle) :
  Particles.life p = 1%float -> Particles.decay p = 0.04%float ->
  (forall j, (1 <= j <= 24)%nat -> Particles.dead (Nat.iter j Particles.aged p) = false)
  /\ Particles.dead (Nat.iter 25 Particles.aged p) = true.
Proof.
  intros Hl Hd.
  assert (Hall : forallb (fun j => negb (Nat.iter j (fun l => (l - 0.04)%float) 1%float <=? 0)%float)
                         (seq 1 24) = true) by (vm_compute; reflexivity).
  rewrite forallb_forall in Hall. split.
  - intros j Hj. unfold Particles.dead. destruct (aged_iter j p) as (-> & _).
    rewrite Hl, Hd. apply negb_true_iff, Hall, in_seq. lia.
  - unfold Particles.dead. destruct (aged_iter 25 p) as (-> & _).
    rewrite Hl, Hd. vm_compute. reflexivity.
Qed.

(** X6: sparks live exactly 25 updates.  Whatever the browser's random
    numbers, the sparks [createSparks] puts into an empty system are all
    still flying after 24 calls of [update()], and the 25th call removes
    every one of them (their life, 1 - 25 * 0.04 in binary64, comes out just
    below zero). *)
Theorem sparks_live_25_updates (H : Game.Host) (at_ : Particles.Vec3) (count : nat) :
  let ps := Particles.particles
              (Particles.createSparks H at_ count (Particles.mkSystem [] 0)) in
  length ps = count
  /\ (exists ps', Particles.updates 24 ps = Some ps' /\ length ps' = count)
  /\ Particles.updates 25 ps = Some [].
Proof.
  cbv zeta.
  destruct (createSparks_spec H at_ count (Particles.mkSystem [] 0))
    as (news & -> & Hlen & Hall & _).
  cbn [Particles.particles app].
  assert (H24 : Particles.updates 24 news = Some (map (Nat.iter 24 Particles.aged) news)).
  { apply updates_alive. eapply Forall_impl; [exact Hall|]. cbn.
    intros p (_ & Hl & Hd). by apply spark_life. }
  split; [exact Hlen|]. split.
  - eexists. split; [exact H24|]. by rewrite length_map.
  - rewrite updates_succ_r, H24, update_spec.
    f_equal. rewrite map_map. clear H24 Hlen.
    induction news as [|p news IH]; [done|].
    apply Forall_cons in Hall as [(_ & Hl & Hd) Hall]. cbn [map].
    rewrite filter_cons_False; [by apply IH|].
    unfold Particles.alive.
    change (Particles.aged (Nat.iter 24 Particles.aged p)) with (Nat.iter 25 Particles.aged p).
    destruct (spark_life p Hl Hd) as (_ & ->). by intros [].
Qed.
(* ------------------------------------------------------------------ *)
(** ** The hit streak display *)

Lemma streak_step_timerOk (d : Streak.Display) (o : Streak.Op) :
  Streak.timerOk d -> Streak.timerOk (Streak.step d o).
Proof.
  intros [Hw Hc]. destruct o as [c| |id']; cbn [Streak.step].
  - unfold Streak.show. destruct (Z.ltb_spec c 2).
    + split; [|done]. destruct Hw as [[Hw _]|Hw]; [by left | by right].
    + split; [|intros _; exists c; split; [done | lia]].
      right. exists (Streak.nextId d). split; [|done].
      cbn [Streak.waiting]. destruct Hw as [[-> _]|(id & -> & ->)].
      * by destruct (Streak.hideTimeout d).
      * unfold Streak.clearTimeout.
        rewrite filter_cons_False by (rewrite Nat.eqb_refl; by intros []).
        by rewrite filter_nil.
  - split; [|done]. destruct Hw as [[Hw _]|Hw]; [by left | by right].
  - unfold Streak.fire. destruct Hw as [[Hw Hv]|(id & Hw & Ht)]; rewrite Hw.
    + cbn [existsb]. split; [by left | done].
    + cbn [existsb]. rewrite orb_false_r. destruct (Nat.eqb_spec id' id) as [->|Hne].
      * split; [|done]. left. split; [|done]. cbn [Streak.hide Streak.waiting].
        rewrite filter_cons_False by (rewrite Nat.eqb_refl; by intros []).
        by rewrite filter_nil.
      * split; [|done]. right. by exists id.
Qed.

(** X7: whatever sequence of [show], [hide] and timer expiries the streak
    display goes through, at most one hide timer is waiting, and it is the
    one last scheduled (its id is in [hideTimeout]): an earlier timer never
    hides a later streak.  While the display is visible its timer is
    waiting, so it will be hidden, and it shows a count of at least 2. *)
Theorem streak_single_timer (ops : list Streak.Op) :
  let d := Streak.run ops in
  (length (Streak.waiting d) <= 1)%nat
  /\ (forall id, id ∈ Streak.waiting d -> Streak.hideTimeout d = Some id)
  /\ (Streak.visible d = true ->
      exists id c, Streak.waiting d = [id] /\ Streak.count d = Some c /\ (2 <= c)%Z).
Proof.
  cbv zeta.
  assert (Hok : Streak.timerOk (Streak.run ops)).
  { unfold Streak.run.
    assert (Hgen : forall d, Streak.timerOk d -> Streak.timerOk (fold_left Streak.step ops d)).
    { induction ops as [|o ops IH]; intros d Hd; [done|].
      cbn [fold_left]. by apply IH, streak_step_timerOk. }
    apply Hgen. split; [by left | done]. }
  destruct Hok as [[[Hw Hv]|(id & Hw & Ht)] Hc].
  - rewrite Hw, Hv. split; [cbn; lia|]. split; [|done].
    intros id Hid. by apply elem_of_nil in Hid.
  - rewrite Hw. split; [cbn; lia|]. split.
    + intros id0 Hid. apply list_elem_of_singleton in Hid. by subst.
    + intros Hv. destruct (Hc Hv) as (c & Hcnt & Hge). by exists id, c.
Qed.

(* ------------------------------------------------------------------ *)
(** ** The master volume *)

Lemma SFltb_leb a b : SFltb a b = true -> SFleb a b = true.
Proof. unfold SFltb, SFleb. by destruct (SFcompare a b) as [[]|]. Qed.

Lemma SFleb_not_gt a b : SFleb a b = true -> SFltb b a = false.
Proof. unfold SFltb, SFleb, SFcompare. destruct a, b; simpl; try congruence; sf_cases. Qed.

Lemma SFleb_total a b :
  SFeqb a a = true -> SFeqb b b = true -> SFltb b a = false -> SFleb a b = true.
Proof.
  unfold SFltb, SFleb, SFeqb, SFcompare. destruct a, b; simpl; try congruence; sf_cases.
Qed.

Lemma SFleb_eqb a b : SFleb a b = true -> SFltb a b = false -> SFeqb a b = true.
Proof. unfold SFltb, SFleb, SFeqb. by destruct (SFcompare a b) as [[]|]. Qed.

Lemma SFleb_number a b : SFleb a b = true -> SFeqb a a = true /\ SFeqb b b = true.
Proof.
  unfold SFleb, SFeqb, SFcompare. destruct a, b; simpl; try congruence; sf_cases;
    rewrite ?Z.compare_refl, ?Pos.compare_cont_refl; auto.
Qed.

Lemma Math_min_1 (v : number) :
  is_nan v = false -> Math_min 1 v = if (1 <? v)%float then 1%float else v.
Proof.
  intros Hn. unfold Math_min. rewrite Hn.
  change (is_nan 1) with false. cbn [orb].
  destruct (1 <? v)%float; [done|]. destruct (v <? 1)%float; reflexivity.
Qed.

Lemma Math_max_0 (v : number) :
  is_nan v = false -> Math_max 0 v = if (0 <? v)%float then v else 0%float.
Proof.
  intros Hn. unfold Math_max. rewrite Hn.
  change (is_nan 0) with false. cbn [orb].
  destruct (0 <? v)%float; [done|]. destruct (v <? 0)%float; reflexivity.
Qed.

(** Clamping a number to the unit interval. *)
Lemma clamp_unit (v : number) :
  is_nan v = false ->
  let r := Math_max 0 (Math_min 1 v) in
  (0 <=? r)%float = true /\ (r <=? 1)%float = true
  /\ ((0 <=? v)%float = true -> (v <=? 1)%float = true -> (r =? v)%float = true)
  /\ ((v <? 0)%float = true -> r = 0%float)
  /\ ((1 <? v)%float = true -> r = 1%float).
Proof.
  intros Hn. cbv zeta. rewrite (Math_min_1 v Hn).
  assert (Hvv : (v =? v)%float = true).
  { unfold is_nan in Hn. by apply negb_false_iff in Hn. }
  destruct (1 <? v)%float eqn:H1.
  - assert (H0 : (v <? 0)%float = false).
    { destruct (v <? 0)%float eqn:E; [|done].
      rewrite ltb_spec in *. pose proof (SFltb_trans _ _ _ E (eq_refl : SFltb (Prim2SF 0) (Prim2SF 1) = true)) as E1.
      apply SFltb_leb, SFleb_not_gt in E1. congruence. }
    repeat split; try done.
    + intros _ Hle. rewrite leb_spec in Hle. apply SFleb_not_gt in Hle.
      rewrite ltb_spec in H1. congruence.
    + congruence.
  - rewrite (Math_max_0 v Hn). destruct (0 <? v)%float eqn:H0.
    + repeat split; try done.
      * rewrite leb_spec. rewrite ltb_spec in H0. by apply SFltb_leb.
      * rewrite leb_spec. rewrite ltb_spec in H1. rewrite eqb_spec in Hvv.
        by apply SFleb_total.
      * intros Hneg. rewrite ltb_spec in *.
        apply SFltb_leb, SFleb_not_gt in H0. congruence.
    + repeat split; try done.
      intros Hle _. rewrite leb_spec in Hle. rewrite ltb_spec in H0.
      rewrite eqb_spec. by apply SFleb_eqb.
Qed.

(** X8: [setVolume] does nothing while the audio graph does not exist;
    otherwise the number it assigns to the master gain is, for every
    argument that is a number, between 0 and 1: the argument itself when
    that lies in the interval, 0 for a negative one and 1 for one above 1;
    and it touches nothing else. *)
Theorem setVolume_clamps (value : number) (m : Audio.Manager) :
  match Audio.masterGain m with
  | None => Audio.setVolume value m = m
  | Some _ =>
      exists gain,
        Audio.setVolume value m
        = Audio.mkManager (Audio.hasContext m) (Audio.enabled m) (Some gain)
        /\ (is_nan value = false ->
            (0 <=? gain)%float = true /\ (gain <=? 1)%float = true
            /\ ((0 <=? value)%float = true -> (value <=? 1)%float = true ->
                (gain =? value)%float = true)
            /\ ((value <? 0)%float = true -> gain = 0%float)
            /\ ((1 <? value)%float = true -> gain = 1%float))
  end.
Proof.
  unfold Audio.setVolume. destruct (Audio.masterGain m); [|reflexivity].
  eexists. split; [reflexivity|]. apply clamp_unit.
Qed.

Lemma audio_step_disabled (m : Audio.Manager) (o : Audio.Op) :
  Audio.enabled m = false -> Audio.enabled (Audio.step m o) = false.
Proof.
  intros He. destruct o; cbn [Audio.step].
  - unfold Audio.init. destruct (Audio.hasContext m); [done|]. by destruct supported.
  - unfold Audio.setVolume. by destruct (Audio.masterGain m).
Qed.

(** X9: once constructing the audio context has failed in [init()], the
    manager stays silent for good: it is disabled, and no later call of
    [init()], even a successful one, or of [setVolume] enables it again, so
    the guard of every [play...] method returns at once.  And once a context
    exists, [init()] does nothing. *)
Theorem audio_stays_disabled (ops : list Audio.Op) (m : Audio.Manager) :
  (Audio.hasContext m = false ->
   Audio.audible (fold_left Audio.step ops (Audio.init false m)) = false)
  /\ (Audio.hasContext m = true -> forall supported, Audio.init supported m = m).
Proof.
  split.
  - intros Hc.
    assert (Hgen : forall m0, Audio.enabled m0 = false ->
              Audio.enabled (fold_left Audio.step ops m0) = false).
    { induction ops as [|o ops IH]; intros m0 H0; [done|].
      cbn [fold_left]. by apply IH, audio_step_disabled. }
    unfold Audio.audible. rewrite Hgen; [done|].
    unfold Audio.init. by rewrite Hc.
  - intros Hc supported. unfold Audio.init. by rewrite Hc.
Qed.
(* ------------------------------------------------------------------ *)
(** ** The audit of the wired program *)

Section AuditFacts.

Import Game Invariants Audit.

Context (H : Host).

Lemma count_cons {A} (f : A -> bool) (x : A) (l : list A) :
  count f (x :: l) = ((if f x then 1 else 0) + count f l)%nat.
Proof.
  unfold count. rewrite filter_cons.
  destruct (decide (f x)) as [Hx|Hx]; destruct (f x); cbn in *; try done.
Qed.

Lemma count_app {A} (f : A -> bool) (l1 l2 : list A) :
  count f (l1 ++ l2) = (count f l1 + count f l2)%nat.
Proof. unfold count. by rewrite filter_app, length_app. Qed.

Lemma count_delete {A} (f : A -> bool) (n : nat) (l : list A) (t : A) :
  l !! n = Some t ->
  count f l = (count f (delete n l) + (if f t then 1 else 0))%nat.
Proof.
  revert n. induction l as [|x l IH]; intros n Hn; [done|].
  destruct n as [|n]; cbn in Hn.
  - injection Hn as ->. cbn [delete list_delete]. rewrite count_cons. apply Nat.add_comm.
  - cbn [delete list_delete]. rewrite !count_cons, (IH n Hn). apply Nat.add_assoc.
Qed.

Lemma removeFirst_sublist (i : ref) (l : list ref) : sublist (removeFirst i l) l.
Proof.
  induction l as [|j l IH]; cbn [removeFirst]; [constructor|].
  destruct (Nat.eqb i j); [by apply sublist_cons | by apply sublist_skip].
Qed.

Lemma removeFirst_length (i : ref) (l : list ref) :
  i ∈ l -> S (length (removeFirst i l)) = length l.
Proof.
  induction l as [|j l IH]; intros Hin; [by apply elem_of_nil in Hin|].
  cbn [removeFirst]. destruct (Nat.eqb_spec i j) as [->|Hne]; [done|].
  apply elem_of_cons in Hin as [Heq|Hin]; [done|]. cbn [length]. by rewrite IH.
Qed.

Lemma removeFirst_gone (i : ref) (l : list ref) : NoDup l -> i ∉ removeFirst i l.
Proof.
  induction l as [|j l IH]; intros Hnd; cbn [removeFirst]; [apply not_elem_of_nil|].
  apply NoDup_cons in Hnd as [Hj Hnd].
  destruct (Nat.eqb_spec i j) as [->|Hne]; [done|].
  apply not_elem_of_cons. split; [done | by apply IH].
Qed.

Lemma storeOk_ext (r r' : Registry) :
  heap r' = heap r -> discs r' = discs r -> storeOk r -> storeOk r'.
Proof. unfold storeOk. by intros -> ->. Qed.

Lemma storeOk_sameDiscs (r r' : Registry) : sameDiscs r r' -> storeOk r -> storeOk r'.
Proof.
  intros [Hd Hk] [Hnd Hv]. split; rewrite Hd; [done|].
  intros i Hi. destruct (Hv i Hi) as (d & Hd0 & Hp).
  destruct (Hk i d Hd0) as (d' & Hd' & _ & Hp'). exists d'. split; [done | congruence].
Qed.

Lemma storeOk_createDisc (r : Registry) : storeOk r -> storeOk (exec (createDisc H) r).
Proof.
  intros [Hnd Hv]. destruct (createDisc_spec H r) as (d & n & Hc & Hp).
  unfold exec. rewrite Hc. cbn [snd]. split; cbn [discs heap].
  - apply NoDup_app. split; [done|]. split; [|apply NoDup_singleton].
    intros x Hx Hin. apply list_elem_of_singleton in Hin. subst x.
    destruct (Hv _ Hx) as (d0 & Hd0 & _). apply lookup_lt_Some in Hd0. lia.
  - intros i Hi. apply elem_of_app in Hi as [Hi|Hi].
    + destruct (Hv i Hi) as (d0 & Hd0 & Hp0). exists d0.
      split; [by apply lookup_app_l_Some | done].
    + apply list_elem_of_singleton in Hi. subst i. exists d.
      split; [|done]. by rewrite (list_lookup_middle (heap r) [] d).
Qed.

Lemma storeOk_topUp (fuel : nat) (r : Registry) :
  storeOk r -> storeOk (exec (topUp H fuel) r).
Proof.
  revert r. induction fuel as [|n IH]; intros r Hr; unfold exec; cbn [topUp];
    unfold bind, get, ret; destruct (length (discs r) <? maxCount)%nat; try done.
  pose proof (storeOk_createDisc r Hr) as H1. unfold exec in H1.
  destruct (createDisc H r) as [i r1]. cbn [snd] in H1. by apply IH.
Qed.

Lemma storeOk_remove (i : ref) (r : Registry) :
  storeOk r -> storeOk (exec (removeDisc i) r).
Proof.
  intros [Hnd Hv]. split; cbn.
  - eapply sublist_NoDup; [exact Hnd | apply removeFirst_sublist].
  - intros j Hj. apply Hv. eapply elem_of_sublist; [exact Hj | apply removeFirst_sublist].
Qed.

Lemma storeOk_update (g : Game) : storeOk (reg g) -> storeOk (reg (update H g)).
Proof.
  intros Hr. rewrite update_unfold. cbv zeta. cbn [reg].
  destruct (aim_spec H g) as (-> & _).
  apply storeOk_topUp.
  eapply storeOk_sameDiscs; [apply forEach_sameDiscs|].
  revert Hr. by apply storeOk_ext.
Qed.

(** What a tick leaves alone, beyond [update_keeps]. *)
Lemma update_books (g : Game) :
  score (state (update H g)) = score (state g)
  /\ maxCombo (state (update H g)) = maxCombo (state g)
  /\ lastHitTime (state (update H g)) = lastHitTime (state g)
  /\ lockedTarget (state (update H g))
     = (if locksOn H g then snd (nearest H g) else None)
  /\ sounds (update H g)
     = sounds g ++ (if locksOn H g && negb (wasLocked (state g)) then [PlayLock] else []).
Proof.
  rewrite update_unfold. cbv zeta.
  destruct (aim_spec H g) as (_ & _ & _ & Hsn & _ & _ & Hs).
  cbn [state sounds]. rewrite Hs, Hsn.
  destruct (state g). repeat split.
Qed.

Lemma update_lock_live (g : Game) (i : ref) :
  lockedTarget (state (update H g)) = Some i -> i ∈ discs (reg (update H g)).
Proof.
  destruct (update_books g) as (_ & _ & _ & -> & _). unfold locksOn.
  pose proof (findNearest_spec H (heap (reg g)) (targetX (state g)) (targetY (state g))
                (discs (reg g))) as Hn.
  fold (nearest H g) in Hn.
  destruct (snd (nearest H g)) as [j|]; [|done].
  destruct (isGunPose (state g)); [|done]. intros Heq. injection Heq as <-.
  destruct Hn as (pre & post & d & Hpre & _).
  destruct (update_evolves H g) as [[extra ->] _]. rewrite Hpre.
  apply elem_of_app. left. apply elem_of_app. right. by left.
Qed.

Lemma audit_same (p : App.Phase) (g g' : Game) :
  sameBooks g g' -> auditOk p g -> auditOk p g'.
Proof.
  intros (Hr & Ht & Hsn & Hsc & Hc & Hm & Hh & Hsh & Hi & Hl & Hrun).
  intros (K1 & K2 & K3 & (K4 & K4') & K5).
  split; [|split; [|split; [|split]]].
  - unfold registryOk. by rewrite Hr, Hl.
  - unfold scoreOk. by rewrite Hsc, Hc, Hm, Hh.
  - unfold soundsOk. by rewrite Hsn, Hh, Hsh.
  - split; rewrite Ht; [by rewrite Hi|]. intros Hrun'. by apply K4', Hrun.
  - unfold countOk. by rewrite Hr, Ht.
Qed.

Lemma audit_update (p : App.Phase) (g : Game) : auditOk p g -> auditOk p (update H g).
Proof.
  intros ((Hst & Hlk) & Hsc & (S1 & S2 & S3 & S4) & (T1 & T2) & (C1 & C2 & C3)).
  destruct (update_keeps H g) as (Kc & Kh & Ksh & _ & Ki & _ & _ & _ & _ & Krun & Kt).
  destruct (update_books g) as (Ks & Km & _ & _ & Ksn).
  pose proof (update_discs_length H g) as Hlen.
  assert (Hcnt : forall f, f PlayLock = false ->
            count f (sounds (update H g)) = count f (sounds g)).
  { intros f Hf. rewrite Ksn, count_app.
    destruct (_ && _); [rewrite count_cons, Hf|]; cbn; lia. }
  split; [|split; [|split; [|split]]].
  - split; [by apply storeOk_update | apply update_lock_live].
  - unfold scoreOk. by rewrite Kc, Km, Kh, Ks.
  - unfold soundsOk. rewrite Ksh, Kh, !Hcnt by done. do 3 (split; [done|]).
    intros c Hc. rewrite Ksn in Hc. apply elem_of_app in Hc as [Hc|Hc]; [by apply S4|].
    destruct (_ && _); [|by apply elem_of_nil in Hc].
    by apply list_elem_of_singleton in Hc.
  - unfold timersOk. by rewrite Kt, Ki, Krun.
  - unfold countOk. rewrite Kt, Hlen. unfold maxCount in *.
    split; [lia|]. split; [lia|]. intros Hp. destruct (C3 Hp). lia.
Qed.

Lemma hitTarget_running (disc : ref) (g : Game) :
  running (state (hitTarget H disc g)) = running (state g).
Proof.
  unfold hitTarget, Date_now, countCombo. cbn [state fst snd].
  destruct (state g). cbn.
  repeat match goal with |- context [if ?c then _ else _] => destruct c end; reflexivity.
Qed.

Lemma elem_of_hitSounds (c x : Z) : PlayCombo x ∈ hitSounds c -> x = c /\ (1 < c)%Z.
Proof.
  unfold hitSounds. intros Hin. apply elem_of_app in Hin as [Hin|Hin].
  - destruct (5 <=? c)%Z; by apply list_elem_of_singleton in Hin.
  - destruct (Z.ltb_spec 1 c); [|by apply elem_of_nil in Hin].
    apply list_elem_of_singleton in Hin. by injection Hin as ->.
Qed.

Lemma count_hitSounds (c : Z) :
  count isShot (hitSounds c) = 0%nat /\ count isHit (hitSounds c) = 1%nat
  /\ count isMiss (hitSounds c) = 0%nat.
Proof. unfold hitSounds. destruct (5 <=? c)%Z, (1 <? c)%Z; repeat split. Qed.

(** A shot that is let through, field by field. *)
Lemma shoot_books (g : Game) :
  isShooting (state g) = false ->
  let g' := shoot H g in
  let now := clock H (nclock (reg g)) in
  running (state g') = running (state g)
  /\ isShooting (state g') = true
  /\ shots (state g') = (shots (state g) + 1)%Z
  /\ lockedTarget (state g') = None
  /\ match lockedTarget (state g) with
     | Some disc =>
         hits (state g') = (hits (state g) + 1)%Z
         /\ combo (state g')
            = (if (now - lastHitTime (state g) <? comboTimeout)%Z
               then Z.min (combo (state g) + 1) 10 else 1%Z)
         /\ maxCombo (state g') = Z.max (maxCombo (state g)) (combo (state g'))
         /\ score (state g')
            = (score (state g)
               + match heap (reg g) !! disc with Some d => points d | None => 0 end
                 * combo (state g'))%Z
         /\ tasks g' = tasks g ++ [RespawnTimer 300; CooldownTimer shootCooldown]
         /\ reg g' = exec (removeDisc disc) (exec (Date_now H) (reg g))
         /\ sounds g' = sounds g ++ PlayShoot :: hitSounds (combo (state g'))
     | None =>
         hits (state g') = hits (state g)
         /\ combo (state g') = 1%Z
         /\ maxCombo (state g') = maxCombo (state g)
         /\ score (state g') = score (state g)
         /\ tasks g' = tasks g ++ [CooldownTimer shootCooldown]
         /\ reg g' = reg g
         /\ sounds g' = sounds g ++ [PlayShoot; PlayMiss]
     end.
Proof.
  intros Hidle. unfold shoot. rewrite Hidle.
  set (g1 := play PlayShoot _).
  assert (H1 : state g1 = set_shots (shots (state g) + 1) (set_isShooting true (state g))
               /\ reg g1 = reg g /\ tasks g1 = tasks g
               /\ sounds g1 = sounds g ++ [PlayShoot]) by (repeat split).
  destruct H1 as (Hs1 & Hr1 & Ht1 & Hsn1).
  assert (Hlk : lockedTarget (state g1) = lockedTarget (state g)) by (rewrite Hs1; reflexivity).
  rewrite Hlk.
  set (g2 := match lockedTarget (state g) with
             | Some disc => hitTarget H disc g1
             | None => miss g1
             end).
  destruct (updateAccuracy_spec g2) as (Hus & Hur & Hut & Husn & _).
  cbn [setTimeout with_tasks state sounds reg tasks].
  rewrite Hus, Husn, Hur, Hut. subst g2.
  destruct (lockedTarget (state g)) as [disc|] eqn:Hl.
  - destruct (hitTarget_spec H disc g1)
      as (Hh & Hsh & Hc & _ & Hm & Hsc & _ & Hi & _ & _ & Hlt & Htk & _ & _ & Hsn & _).
    rewrite Hh, Hsh, Hm, Hsc, Hi, Hlt, Htk, Hsn, hitTarget_running.
    rewrite Hc. rewrite Hr1, Hs1, Ht1, Hsn1, <- !app_assoc. cbn [app].
    repeat split.
  - unfold miss, play. cbn [with_state with_sounds state sounds reg tasks].
    rewrite Hs1, Hr1, Ht1, Hsn1, <- app_assoc. cbn [app]. repeat split.
    rewrite <- Hl. reflexivity.
Qed.

Lemma audit_shoot (p : App.Phase) (g : Game) : auditOk p g -> auditOk p (shoot H g).
Proof.
  intros Hg. destruct (isShooting (state g)) eqn:Hb; [by rewrite shoot_busy|].
  destruct Hg as (([Hnd Hv] & Hlk) & (Q1 & Q2 & Q3 & Q4 & Q5) & (S1 & S2 & S3 & S4)
                  & (T1 & T2) & (C1 & C2 & C3)).
  rewrite Hb in T1.
  destruct (shoot_books g Hb) as (Krun & Ki & Ksh & Klt & K).
  destruct (lockedTarget (state g)) as [disc|] eqn:Hl.
  - destruct K as (Kh & Kc & Km & Ks & Kt & Kr & Ksn).
    destruct (Hv disc (Hlk disc eq_refl)) as (d & Hd & Hp).
    rewrite Hd, Hp in Ks.
    assert (Hc : (1 <= combo (state (shoot H g)) <= 10)%Z).
    { rewrite Kc. destruct (_ <? _)%Z; lia. }
    destruct (count_hitSounds (combo (state (shoot H g)))) as (N1 & N2 & N3).
    split; [|split; [|split; [|split]]].
    + split; [|by rewrite Klt]. rewrite Kr. apply storeOk_remove.
      by apply (storeOk_ext (reg g)).
    + unfold scoreOk. rewrite Km, Kh, Ks. do 4 (split; [lia|]).
      by rewrite (Z.mul_comm 100), Z_mod_plus_full.
    + unfold soundsOk. rewrite Ksh, Kh, Ksn, !count_app, !count_cons, N1, N2, N3.
      cbn [isShot isHit isMiss]. split; [lia|]. split; [lia|]. split; [lia|].
      intros c Hin. apply elem_of_app in Hin as [Hin|Hin]; [by apply S4|].
      apply elem_of_cons in Hin as [Hin|Hin]; [done|].
      apply elem_of_hitSounds in Hin as [-> Hin]. lia.
    + split; rewrite Kt, count_app; [rewrite T1, Ki; reflexivity|].
      rewrite Krun. intros Hr. specialize (T2 Hr). cbn. lia.
    + assert (Hlen : (length (discs (reg (shoot H g))) <= length (discs (reg g)))%nat).
      { rewrite Kr. cbn. apply sublist_length, removeFirst_sublist. }
      unfold countOk. rewrite Kt, count_app.
      change (count isSpawn [RespawnTimer 300; CooldownTimer shootCooldown]) with 0%nat.
      rewrite Nat.add_0_r. split; [lia|]. split; [lia|].
      intros Hph. destruct (C3 Hph). lia.
  - destruct K as (Kh & Kc & Km & Ks & Kt & Kr & Ksn).
    split; [|split; [|split; [|split]]].
    + split; [by rewrite Kr | by rewrite Klt].
    + unfold scoreOk. rewrite Kc, Km, Kh, Ks. lia.
    + unfold soundsOk. rewrite Ksh, Kh, Ksn, !count_app.
      change (count isShot [PlayShoot; PlayMiss]) with 1%nat.
      change (count isHit [PlayShoot; PlayMiss]) with 0%nat.
      change (count isMiss [PlayShoot; PlayMiss]) with 1%nat.
      split; [lia|]. split; [lia|]. split; [lia|].
      intros c Hin. apply elem_of_app in Hin as [Hin|Hin]; [by apply S4|].
      apply elem_of_cons in Hin as [Hin|Hin]; [done|].
      by apply list_elem_of_singleton in Hin.
    + split; rewrite Kt, count_app; [rewrite T1, Ki; reflexivity|].
      rewrite Krun. intros Hr. specialize (T2 Hr). lia.
    + unfold countOk. rewrite Kt, Kr, count_app.
      change (count isSpawn [CooldownTimer shootCooldown]) with 0%nat.
      rewrite Nat.add_0_r. done.
Qed.

Lemma audit_updateGesture (p : App.Phase) (gs : HandTracker.GestureState) (g : Game) :
  auditOk p g -> auditOk p (updateGesture H gs g).
Proof.
  intros Hg. unfold updateGesture.
  destruct (HandTracker.isGunPose gs);
    [|revert Hg; apply audit_same; by repeat split].
  match goal with |- context [triggerEdge ?b ?s] => destruct (triggerEdge b s) end.
  - match goal with |- context [shoot H ?g0] =>
      assert (Hsh : auditOk p (shoot H g0))
        by (apply audit_shoot; revert Hg; apply audit_same; by repeat split);
      revert Hsh; apply audit_same; by repeat split end.
  - revert Hg. apply audit_same; by repeat split.
Qed.

(** The render loop: everything but the frame part of [timersOk] goes in,
    which is what [pause] leaves of the audit. *)
Lemma audit_gameLoop (p : App.Phase) (g : Game) :
  auditOk p (pause g) -> auditOk p (gameLoop H g).
Proof.
  intros Hg. unfold gameLoop. destruct (running (state g)) eqn:Hrun.
  - apply audit_update.
    destruct Hg as (K1 & K2 & K3 & (T1 & _) & (C1 & C2 & C3)).
    split; [exact K1|]. split; [exact K2|]. split; [exact K3|]. split; [split|].
    + cbn [setTimeout with_tasks tasks state]. rewrite count_app.
      change (count isCooldown [AnimationFrame]) with 0%nat. by rewrite Nat.add_0_r.
    + intros _. cbn [setTimeout with_tasks tasks]. rewrite count_app.
      change (count isFrame [AnimationFrame]) with 1%nat. lia.
    + unfold countOk. cbn [setTimeout with_tasks tasks reg]. rewrite count_app.
      change (count isSpawn [AnimationFrame]) with 0%nat. rewrite Nat.add_0_r.
      done.
  - revert Hg. apply audit_same. repeat split. cbn. congruence.
Qed.

Lemma audit_pause (p : App.Phase) (g : Game) : auditOk p g -> auditOk p (pause g).
Proof. apply audit_same. by repeat split. Qed.

Lemma audit_resume (p : App.Phase) (g : Game) : auditOk p g -> auditOk p (resume H g).
Proof.
  intros Hg. unfold resume. destruct (running (state g)) eqn:Hrun; [done|].
  apply audit_gameLoop. revert Hg. apply audit_same. by repeat split.
Qed.

Lemma audit_createDisc (p : App.Phase) (g : Game) :
  registryOk g -> registryOk (snd (inReg (createDisc H) g))
  /\ length (discs (reg (snd (inReg (createDisc H) g)))) = S (length (discs (reg g)))
  /\ state (snd (inReg (createDisc H) g)) = state g
  /\ tasks (snd (inReg (createDisc H) g)) = tasks g
  /\ sounds (snd (inReg (createDisc H) g)) = sounds g.
Proof.
  intros [Hst Hlk]. unfold inReg.
  pose proof (storeOk_createDisc (reg g) Hst) as H1.
  pose proof (createDisc_length H (reg g)) as H2.
  pose proof (createDisc_evolves H (reg g)) as [[extra H3] _].
  unfold exec in *. destruct (createDisc H (reg g)) as [i r1]. cbn [snd] in *.
  cbn [with_reg reg state tasks sounds]. split; [|by repeat split].
  split; [exact H1|]. cbn [with_reg reg state]. rewrite H3.
  intros j Hj. apply elem_of_app. left. by apply Hlk.
Qed.

Lemma audit_runTask (p : App.Phase) (g : Game) (n : nat) (t : Task) :
  tasks g !! n = Some t -> auditOk p g ->
  auditOk p (runTask H t (with_tasks (delete n (tasks g)) g)).
Proof.
  intros Hn (K1 & K2 & K3 & (T1 & T2) & (C1 & C2 & C3)).
  pose proof (count_delete isSpawn n _ _ Hn) as Dsp.
  pose proof (count_delete isCooldown n _ _ Hn) as Dcd.
  pose proof (count_delete isFrame n _ _ Hn) as Dfr.
  set (g1 := with_tasks (delete n (tasks g)) g).
  assert (R1 : registryOk g1) by exact K1.
  destruct t as [delay|delay|delay|]; cbn [runTask isSpawn isCooldown isFrame] in *.
  - destruct (audit_createDisc p g1 R1) as (A1 & A2 & A3 & A4 & A5).
    split; [exact A1|]. split; [|split; [|split]].
    + unfold scoreOk. by rewrite A3.
    + unfold soundsOk. by rewrite A3, A5.
    + unfold timersOk. rewrite A3, A4. cbn [g1 with_tasks tasks state].
      split; [lia|]. intros Hr. specialize (T2 Hr). lia.
    + unfold countOk. rewrite A2, A4. cbn [g1 with_tasks tasks reg].
      split; [lia|]. split; [lia|]. intros Hph. destruct (C3 Hph). lia.
  - destruct (Nat.ltb_spec (length (discs (reg g1))) maxCount) as [Hlt|Hge].
    + destruct (audit_createDisc p g1 R1) as (A1 & A2 & A3 & A4 & A5).
      split; [exact A1|]. split; [|split; [|split]].
      * unfold scoreOk. by rewrite A3.
      * unfold soundsOk. by rewrite A3, A5.
      * unfold timersOk. rewrite A3, A4. cbn [g1 with_tasks tasks state].
        split; [lia|]. intros Hr. specialize (T2 Hr). lia.
      * unfold countOk. rewrite A2, A4. cbn [g1 with_tasks tasks reg] in *.
        unfold maxCount in *.
        split; [lia|]. split; [lia|]. intros Hph. destruct (C3 Hph). lia.
    + split; [exact K1|]. split; [exact K2|]. split; [exact K3|]. split; [split|].
      * cbn [g1 with_tasks tasks state]. lia.
      * cbn [g1 with_tasks tasks state]. intros Hr. specialize (T2 Hr). lia.
      * unfold countOk. cbn [g1 with_tasks tasks reg].
        split; [lia|]. split; [lia|]. intros Hph. destruct (C3 Hph). lia.
  - split; [exact K1|]. split; [exact K2|]. split; [exact K3|]. split; [split|].
    + cbn [g1 with_tasks with_state tasks state set_isShooting isShooting].
      destruct (isShooting (state g)); lia.
    + cbn [g1 with_tasks with_state tasks state]. intros Hr.
      assert (Hr' : running (state g) = true) by (rewrite <- Hr; by destruct (state g)).
      specialize (T2 Hr'). lia.
    + unfold countOk. cbn [g1 with_tasks with_state tasks reg].
      split; [lia|]. split; [lia|]. intros Hph. destruct (C3 Hph). lia.
  - apply audit_gameLoop.
    split; [exact K1|]. split; [exact K2|]. split; [exact K3|]. split; [split|].
    + cbn [pause g1 with_tasks with_state tasks state]. 
      assert (Hi : isShooting (set_running false (state g)) = isShooting (state g))
        by (by destruct (state g)).
      rewrite Hi. lia.
    + cbn [pause g1 with_tasks with_state state]. by destruct (state g).
    + unfold countOk. cbn [pause g1 with_tasks with_state tasks reg].
      split; [lia|]. split; [lia|]. intros Hph. destruct (C3 Hph). lia.
Qed.

Lemma audit_start (g : Game) : auditOk App.Loading g -> auditOk App.Playing (start H g).
Proof.
  intros (K1 & K2 & K3 & (T1 & T2) & (C1 & C2 & C3)).
  destruct (C3 eq_refl) as (C4 & C5).
  unfold start.
  match goal with |- context [fold_left ?f ?l ?g0] =>
    destruct (start_timers_keep l g0) as (Hs & Hr & _ & Hsn & Ht);
    set (g1 := fold_left f l g0) in * end.
  cbn [with_state state reg tasks sounds] in Hs, Hr, Hsn, Ht.
  set (sp := map _ _) in Ht.
  assert (Hsp : count isSpawn sp = 4%nat /\ count isCooldown sp = 0%nat) by (by split).
  destruct Hsp as (Hsp1 & Hsp2).
  assert (Hrun : running (state g1) = true) by (rewrite Hs; by destruct (state g)).
  unfold gameLoop. rewrite Hrun. apply audit_update.
  assert (Hst : forall A (f : State -> A),
            f (set_running true (state g)) = f (state g) -> f (state g1) = f (state g)).
  { intros A f Hf. by rewrite Hs. }
  split; [|split; [|split; [|split]]].
  - unfold registryOk. cbn [setTimeout with_tasks reg state]. rewrite Hr, Hs.
    destruct K1 as [K1 K1']. split; [done|]. intros i Hi. apply K1'.
    rewrite <- Hi. by destruct (state g).
  - unfold scoreOk. cbn [setTimeout with_tasks state]. rewrite Hs.
    revert K2. unfold scoreOk. by destruct (state g).
  - unfold soundsOk. cbn [setTimeout with_tasks state sounds]. rewrite Hs, Hsn.
    revert K3. unfold soundsOk. by destruct (state g).
  - split; cbn [setTimeout with_tasks state tasks]; rewrite Ht, !count_app.
    + rewrite T1, Hs, Hsp2. change (count isCooldown [AnimationFrame]) with 0%nat.
      destruct (state g); cbn. lia.
    + intros _. change (count isFrame [AnimationFrame]) with 1%nat. lia.
  - unfold countOk. cbn [setTimeout with_tasks tasks reg]. rewrite Ht, Hr, !count_app, C4, Hsp1.
    change (count isSpawn [AnimationFrame]) with 0%nat.
    unfold maxCount in *. split; [lia|]. split; [lia|]. done.
Qed.

End AuditFacts.

(* ------------------------------------------------------------------ *)
(** ** The page: tracker, keyboard and visibility wired to the game *)

Lemma app_step_audit (H : Game.Host) (a : App.App) (i : App.Input) :
  Audit.auditOk (App.phase a) (App.game a) ->
  Audit.auditOk (App.phase (App.step H a i)) (App.game (App.step H a i)).
Proof.
  intros Ha. destruct i as [r| | | | |n]; cbn [App.step].
  - unfold App.onResults.
    destruct (HandTracker.processResults (App.tracker a) r) as [t [|gs lms]|t];
      cbn [App.game App.phase App.dispatch]; [|by apply audit_updateGesture|done].
    revert Ha. apply audit_same. by repeat split.
  - unfold App.keySpace. destruct (Game.isGunPose _); [|done].
    by apply audit_shoot.
  - by apply audit_pause.
  - by apply audit_resume.
  - destruct (App.phase a) eqn:Hp; [|by rewrite Hp].
    by apply audit_start.
  - cbn [App.game App.phase Game.step].
    destruct (Game.tasks (App.game a) !! n) as [t|] eqn:Hn; [|done].
    by apply audit_runTask.
Qed.

Lemma app_reachable_audit (H : Game.Host) (a : App.App) :
  App.reachable H a -> Audit.auditOk (App.phase a) (App.game a).
Proof.
  induction 1 as [|a i _ IH]; [|by apply app_step_audit].
  split; [|split; [|split; [|split]]].
  - split; [split|]; cbn; [constructor | | done].
    intros i Hi. by apply elem_of_nil in Hi.
  - unfold Audit.scoreOk. cbn. repeat split; lia.
  - unfold Audit.soundsOk. cbn. do 3 (split; [done|]).
    intros c Hc. by apply elem_of_nil in Hc.
  - split; [done|]. cbn. discriminate.
  - unfold Audit.countOk, Game.maxCount. cbn. repeat split; lia.
Qed.

Lemma app_run_reachable (H : Game.Host) (ins : list App.Input) (a : App.App) :
  App.reachable H a -> App.reachable H (App.run H a ins).
Proof.
  revert a. induction ins as [|i ins IH]; intros a Ha; [done|].
  apply IH. by constructor.
Qed.

(** X10: in every state the page can reach, no disc reference occurs twice
    in [this.discs], every reference names a disc object worth 100 points,
    and the locked target is one of the live discs (the lock never
    dangles); so a shot let through at a locked target removes exactly that
    disc and adds 100 times the new combo to the score. *)
Theorem registry_well_formed (H : Game.Host) (a : App.App) :
  App.reachable H a ->
  NoDup (Game.discs (Game.reg (App.game a)))
  /\ (forall i, i ∈ Game.discs (Game.reg (App.game a)) ->
        exists d, Game.heap (Game.reg (App.game a)) !! i = Some d
                  /\ Game.points d = 100%Z)
  /\ (forall disc, Game.lockedTarget (Game.state (App.game a)) = Some disc ->
        disc ∈ Game.discs (Game.reg (App.game a))
        /\ (Game.isShooting (Game.state (App.game a)) = false ->
            S (length (Game.discs (Game.reg (Game.shoot H (App.game a)))))
            = length (Game.discs (Game.reg (App.game a)))
            /\ (disc ∉ Game.discs (Game.reg (Game.shoot H (App.game a))))
            /\ Game.score (Game.state (Game.shoot H (App.game a)))
               = (Game.score (Game.state (App.game a))
                  + 100 * Game.combo (Game.state (Game.shoot H (App.game a))))%Z)).
Proof.
  intros Ha. destruct (app_reachable_audit H a Ha) as (([Hnd Hv] & Hlk) & _).
  split; [exact Hnd|]. split; [exact Hv|].
  intros disc Hl. split; [by apply Hlk|]. intros Hidle.
  destruct (shoot_books H (App.game a) Hidle) as (_ & _ & _ & _ & K).
  rewrite Hl in K. destruct K as (_ & _ & _ & Ks & _ & Kr & _).
  destruct (Hv disc (Hlk disc Hl)) as (d & Hd & Hp). rewrite Hd, Hp in Ks.
  rewrite Kr. cbn [Game.exec Game.removeDisc Game.Date_now snd Game.discs].
  split; [by apply removeFirst_length, Hlk|]. split; [by apply removeFirst_gone | exact Ks].
Qed.

Lemma registry_well_formed_witness :
  App.reachable Samples.sampleHost
    (App.run Samples.sampleHost (App.boot Samples.sampleHost) AppSamples.session)
  /\ NoDup (Game.discs (Game.reg (App.game
       (App.run Samples.sampleHost (App.boot Samples.sampleHost) AppSamples.session)))).
Proof.
  split; [apply app_run_reachable, App.reach_boot|].
  pose proof (registry_well_formed Samples.sampleHost
                (App.run Samples.sampleHost (App.boot Samples.sampleHost) AppSamples.session)
                (app_run_reachable _ _ _ (App.reach_boot _))) as (Hnd & _).
  exact Hnd.
Defined.

(** X11: in every state the page can reach, the combo is between 1 and
    the best combo, which is at most 10; the score is a multiple of 100 and
    lies between 100 and 1000 times the number of hits. *)
Theorem score_bookkeeping (H : Game.Host) (a : App.App) :
  App.reachable H a ->
  (1 <= Game.combo (Game.state (App.game a)) <= Game.maxCombo (Game.state (App.game a)))%Z
  /\ (Game.maxCombo (Game.state (App.game a)) <= 10)%Z
  /\ (0 <= Game.hits (Game.state (App.game a)))%Z
  /\ (100 * Game.hits (Game.state (App.game a)) <= Game.score (Game.state (App.game a))
      <= 1000 * Game.hits (Game.state (App.game a)))%Z
  /\ (Game.score (Game.state (App.game a)) mod 100 = 0)%Z.
Proof.
  intros Ha. by destruct (app_reachable_audit H a Ha) as (_ & Hs & _).
Qed.

Lemma score_bookkeeping_witness :
  App.reachable Samples.sampleHost
    (App.run Samples.sampleHost (App.boot Samples.sampleHost) AppSamples.session)
  /\ (1 <= Game.combo (Game.state (App.game
            (App.run Samples.sampleHost (App.boot Samples.sampleHost) AppSamples.session)))
      <= Game.maxCombo (Game.state (App.game
            (App.run Samples.sampleHost (App.boot Samples.sampleHost) AppSamples.session))))%Z.
Proof.
  split; [apply app_run_reachable, App.reach_boot|].
  pose proof (score_bookkeeping Samples.sampleHost
                (App.run Samples.sampleHost (App.boot Samples.sampleHost) AppSamples.session)
                (app_run_reachable _ _ _ (App.reach_boot _))) as (Hc & _).
  exact Hc.
Defined.

(** X12: in every state the page can reach, the audio log agrees with the
    counters: one shot sound per counted shot, one hit sound (plain or
    perfect) per counted hit, every shot is either a hit or followed by the
    miss sound, and the combo sound is only ever played for a level between
    2 and 10. *)
Theorem sound_log_agrees (H : Game.Host) (a : App.App) :
  App.reachable H a ->
  Game.shots (Game.state (App.game a))
  = Z.of_nat (Audit.count Audit.isShot (Game.sounds (App.game a)))
  /\ Game.hits (Game.state (App.game a))
     = Z.of_nat (Audit.count Audit.isHit (Game.sounds (App.game a)))
  /\ (Game.shots (Game.state (App.game a))
      = Game.hits (Game.state (App.game a))
        + Z.of_nat (Audit.count Audit.isMiss (Game.sounds (App.game a))))%Z
  /\ (forall c, Game.PlayCombo c ∈ Game.sounds (App.game a) -> (2 <= c <= 10)%Z).
Proof.
  intros Ha. by destruct (app_reachable_audit H a Ha) as (_ & _ & Hs & _).
Qed.

Lemma sound_log_agrees_witness :
  App.reachable Samples.sampleHost
    (App.run Samples.sampleHost (App.boot Samples.sampleHost) AppSamples.session)
  /\ Game.shots (Game.state (App.game
       (App.run Samples.sampleHost (App.boot Samples.sampleHost) AppSamples.session)))
     = Z.of_nat (Audit.count Audit.isShot (Game.sounds (App.game
         (App.run Samples.sampleHost (App.boot Samples.sampleHost) AppSamples.session)))).
Proof.
  split; [apply app_run_reachable, App.reach_boot|].
  pose proof (sound_log_agrees Samples.sampleHost
                (App.run Samples.sampleHost (App.boot Samples.sampleHost) AppSamples.session)
                (app_run_reachable _ _ _ (App.reach_boot _))) as (Hs & _).
  exact Hs.
Defined.

(** X13: in every state the page can reach, exactly one cooldown timer
    (the callback that clears [isShooting]) is waiting while a shot is in
    progress and none otherwise; and while the game is running at least one
    frame callback is waiting. *)
Theorem timers_match_flags (H : Game.Host) (a : App.App) :
  App.reachable H a ->
  Audit.count Audit.isCooldown (Game.tasks (App.game a))
  = (if Game.isShooting (Game.state (App.game a)) then 1 else 0)%nat
  /\ (Game.running (Game.state (App.game a)) = true ->
      (1 <= Audit.count Audit.isFrame (Game.tasks (App.game a)))%nat).
Proof.
  intros Ha. by destruct (app_reachable_audit H a Ha) as (_ & _ & _ & Ht & _).
Qed.

Lemma timers_match_flags_witness :
  App.reachable Samples.sampleHost
    (App.run Samples.sampleHost (App.boot Samples.sampleHost) AppSamples.session)
  /\ Audit.count Audit.isCooldown (Game.tasks (App.game
       (App.run Samples.sampleHost (App.boot Samples.sampleHost) AppSamples.session)))
     = (if Game.isShooting (Game.state (App.game
          (App.run Samples.sampleHost (App.boot Samples.sampleHost) AppSamples.session)))
        then 1 else 0)%nat.
Proof.
  split; [apply app_run_reachable, App.reach_boot|].
  pose proof (timers_match_flags Samples.sampleHost
                (App.run Samples.sampleHost (App.boot Samples.sampleHost) AppSamples.session)
                (app_run_reachable _ _ _ (App.reach_boot _))) as (Hc & _).
  exact Hc.
Defined.

(** X14: the page never holds more than twice [maxCount] discs, spawn
    timers still waiting included: [start()] runs once, its tick fills the
    registry to [maxCount] and its four timers add one disc each; a respawn
    only adds a disc below [maxCount]; and until [start()] has run there
    are at most [maxCount]. *)
Theorem disc_count_bounded (H : Game.Host) (a : App.App) :
  App.reachable H a ->
  (length (Game.discs (Game.reg (App.game a)))
   + Audit.count Audit.isSpawn (Game.tasks (App.game a)) <= 2 * Game.maxCount)%nat
  /\ (length (Game.discs (Game.reg (App.game a))) <= 8)%nat
  /\ (App.phase a = App.Loading ->
      (length (Game.discs (Game.reg (App.game a))) <= Game.maxCount)%nat).
Proof.
  intros Ha. destruct (app_reachable_audit H a Ha) as (_ & _ & _ & _ & (C1 & C2 & C3)).
  split; [exact C2|]. split; [unfold Game.maxCount in C2; lia|].
  intros Hp. by destruct (C3 Hp).
Qed.

Lemma disc_count_bounded_witness :
  App.reachable Samples.sampleHost
    (App.run Samples.sampleHost (App.boot Samples.sampleHost) AppSamples.session)
  /\ (length (Game.discs (Game.reg (App.game
        (App.run Samples.sampleHost (App.boot Samples.sampleHost) AppSamples.session))))
      + Audit.count Audit.isSpawn (Game.tasks (App.game
          (App.run Samples.sampleHost (App.boot Samples.sampleHost) AppSamples.session)))
      <= 2 * Game.maxCount)%nat.
Proof.
  split; [apply app_run_reachable, App.reach_boot|].
  pose proof (disc_count_bounded Samples.sampleHost
                (App.run Samples.sampleHost (App.boot Samples.sampleHost) AppSamples.session)
                (app_run_reachable _ _ _ (App.reach_boot _))) as (Hc & _).
  exact Hc.
Defined.

(* ------------------------------------------------------------------ *)
(** ** Pausing and resuming the render loop *)

Lemma gameLoop_running_tasks (H : Game.Host) (g : Game.Game) :
  Game.running (Game.state g) = true ->
  Game.tasks (Game.gameLoop H g) = Game.tasks g ++ [Game.AnimationFrame]
  /\ Game.running (Game.state (Game.gameLoop H g)) = true.
Proof.
  intros Hrun. unfold Game.gameLoop. rewrite Hrun.
  destruct (update_keeps H (Game.setTimeout Game.AnimationFrame g))
    as (_ & _ & _ & _ & _ & _ & _ & _ & _ & -> & ->).
  by split.
Qed.

(** X15: [pause()] does not cancel the frame callback that is waiting and
    [resume()] starts a new loop: pausing and resuming a running game
    leaves one more frame callback waiting than before.  Every frame
    callback of a running game queues itself again, so the extra loop stays
    (each rendered frame then runs [update()] once more); only a frame
    callback that runs while the game is paused ends its loop. *)
Theorem pause_resume_adds_loop (H : Game.Host) (g : Game.Game) :
  Game.running (Game.state g) = true ->
  Audit.count Audit.isFrame (Game.tasks (Game.resume H (Game.pause g)))
  = S (Audit.count Audit.isFrame (Game.tasks g))
  /\ Game.running (Game.state (Game.resume H (Game.pause g))) = true
  /\ (forall n, Game.tasks g !! n = Some Game.AnimationFrame ->
        Audit.count Audit.isFrame (Game.tasks (Game.step H g (Game.Run n)))
        = Audit.count Audit.isFrame (Game.tasks g)
        /\ Game.running (Game.state (Game.step H g (Game.Run n))) = true)
  /\ (forall n, Game.tasks g !! n = Some Game.AnimationFrame ->
        S (Audit.count Audit.isFrame (Game.tasks (Game.step H (Game.pause g) (Game.Run n))))
        = Audit.count Audit.isFrame (Game.tasks g)
        /\ Game.running (Game.state (Game.step H (Game.pause g) (Game.Run n))) = false).
Proof.
  intros Hrun.
  assert (Hp : Game.running (Game.state (Game.pause g)) = false)
    by (unfold Game.pause; cbn; by destruct (Game.state g)).
  split; [|split; [|split]].
  - unfold Game.resume. rewrite Hp.
    match goal with |- context [Game.gameLoop H ?g0] =>
      destruct (gameLoop_running_tasks H g0) as (-> & _);
        [cbn; by destruct (Game.state (Game.pause g))|] end.
    cbn [Game.with_state Game.pause Game.tasks]. rewrite count_app.
    change (Audit.count Audit.isFrame [Game.AnimationFrame]) with 1%nat. lia.
  - unfold Game.resume. rewrite Hp.
    match goal with |- context [Game.gameLoop H ?g0] =>
      destruct (gameLoop_running_tasks H g0) as (_ & ->);
        [cbn; by destruct (Game.state (Game.pause g))|] end.
    reflexivity.
  - intros n Hn. cbn [Game.step]. rewrite Hn. cbn [Game.runTask].
    pose proof (count_delete Audit.isFrame n _ _ Hn) as Hd. cbn [Audit.isFrame] in Hd.
    match goal with |- context [Game.gameLoop H ?g0] =>
      destruct (gameLoop_running_tasks H g0 Hrun) as (-> & ->) end.
    cbn [Game.with_tasks Game.tasks]. rewrite count_app.
    change (Audit.count Audit.isFrame [Game.AnimationFrame]) with 1%nat.
    split; [lia | reflexivity].
  - intros n Hn.
    assert (Ht : Game.tasks (Game.pause g) = Game.tasks g) by reflexivity.
    cbn [Game.step]. rewrite Ht, Hn. cbn [Game.runTask]. unfold Game.gameLoop.
    assert (Hoff : Game.running (Game.state
              (Game.with_tasks (delete n (Game.tasks g)) (Game.pause g))) = false)
      by exact Hp.
    rewrite Hoff. split; [|exact Hoff]. cbn [Game.with_tasks Game.tasks].
    pose proof (count_delete Audit.isFrame n _ _ Hn) as Hd. cbn [Audit.isFrame] in Hd.
    lia.
Qed.

Lemma pause_resume_adds_loop_witness :
  Game.running (Game.state
    (Game.run Samples.sampleHost (Game.new Samples.sampleHost) Samples.warmUp)) = true
  /\ Audit.count Audit.isFrame (Game.tasks (Game.resume Samples.sampleHost (Game.pause
       (Game.run Samples.sampleHost (Game.new Samples.sampleHost) Samples.warmUp))))
     = S (Audit.count Audit.isFrame (Game.tasks
            (Game.run Samples.sampleHost (Game.new Samples.sampleHost) Samples.warmUp))).
Proof.
  assert (Hrun : Game.running (Game.state
            (Game.run Samples.sampleHost (Game.new Samples.sampleHost) Samples.warmUp)) = true)
    by (vm_compute; reflexivity).
  split; [exact Hrun|].
  pose proof (pause_resume_adds_loop Samples.sampleHost _ Hrun) as (Hc & _).
  exact Hc.
Defined.

(* ------------------------------------------------------------------ *)
(** ** From the camera frame and the keyboard to the shot *)

Lemma shoot_aim (H : Game.Host) (g : Game.Game) :
  Game.targetX (Game.state (Game.shoot H g)) = Game.targetX (Game.state g)
  /\ Game.targetY (Game.state (Game.shoot H g)) = Game.targetY (Game.state g).
Proof.
  unfold Game.shoot. destruct (Game.isShooting (Game.state g)); [done|].
  cbn [Game.setTimeout Game.with_tasks Game.state].
  match goal with |- context [Game.updateAccuracy ?x] =>
    destruct (updateAccuracy_spec x) as (-> & _) end.
  cbn [Game.play Game.with_sounds Game.with_state Game.state].
  match goal with |- context [match ?l with Some _ => _ | None => _ end] =>
    destruct l as [disc|] end.
  - unfold Game.hitTarget, Game.Date_now, Game.countCombo. cbn [Game.state fst snd].
    destruct (Game.state g). cbn.
    repeat match goal with |- context [if ?c then _ else _] => destruct c end; split; reflexivity.
  - cbn. by destruct (Game.state g).
Qed.

(** The aim point after a gesture frame. *)
Lemma updateGesture_aim (H : Game.Host) (gs : HandTracker.GestureState) (g : Game.Game) :
  Game.targetX (Game.state (Game.updateGesture H gs g))
  = (if HandTracker.isGunPose gs
     then (HandTracker.px (HandTracker.fingerTip gs) * Game.innerWidth H)%float
     else Game.targetX (Game.state g))
  /\ Game.targetY (Game.state (Game.updateGesture H gs g))
     = (if HandTracker.isGunPose gs
        then (HandTracker.py (HandTracker.fingerTip gs) * Game.innerHeight H)%float
        else Game.targetY (Game.state g)).
Proof.
  unfold Game.updateGesture. destruct (HandTracker.isGunPose gs);
    [|cbn; by destruct (Game.state g)].
  match goal with |- context [Game.triggerEdge ?b ?s] => destruct (Game.triggerEdge b s) end.
  - match goal with |- context [Game.shoot H ?g0] =>
      destruct (shoot_aim H g0) as (Hx & Hy); set (g1 := Game.shoot H g0) in * end.
    cbn [Game.with_state Game.state] in *.
    destruct (Game.state g1); cbn in *. rewrite Hx, Hy. by destruct (Game.state g).
  - cbn. by destruct (Game.state g).
Qed.


Lemma app_step_shots (H : Game.Host) (a : App.App) (i : App.Input) :
  Game.shots (Game.state (App.game (App.step H a i)))
  = Game.shots (Game.state (App.game a))
  \/ (Game.shots (Game.state (App.game (App.step H a i)))
      = (Game.shots (Game.state (App.game a)) + 1)%Z
      /\ Game.isGunPose (Game.state (App.game (App.step H a i))) = true
      /\ Game.isShooting (Game.state (App.game a)) = false
      /\ Game.isShooting (Game.state (App.game (App.step H a i))) = true
      /\ ((exists r, i = App.Results r) \/ i = App.KeySpace)).
Proof.
  assert (Hev : forall e, (forall gs, e <> Game.Gesture gs) ->
            Game.shots (Game.state (Game.step H (App.game a) e))
            = Game.shots (Game.state (App.game a))).
  { intros e He. by destruct (step_keeps_trigger H (App.game a) e He) as (-> & _). }
  destruct i as [r| | | | |n]; cbn [App.step].
  - unfold App.onResults.
    destruct (HandTracker.processResults (App.tracker a) r) as [t [|gs lms]|t];
      cbn [App.game App.dispatch]; [by left| |by left].
    destruct (updateGesture_spec H gs (App.game a)) as (K1 & K2 & _ & K4 & _).
    destruct (HandTracker.isGunPose gs && negb (HandTracker.isThumbUp gs)
              && Game.wasThumbUp (Game.state (App.game a))
              && negb (Game.isShooting (Game.state (App.game a)))) eqn:Hf.
    + right. apply andb_true_iff in Hf as [Hf Hidle].
      apply andb_true_iff in Hf as [Hf _]. apply andb_true_iff in Hf as [Hgun _].
      apply negb_true_iff in Hidle.
      rewrite K1, K2, K4, Hidle. repeat split; try done. left. by exists r.
    + left. rewrite K1. lia.
  - unfold App.keySpace. destruct (Game.isGunPose _) eqn:Hgun; [|by left].
    cbn [App.game]. destruct (Game.isShooting (Game.state (App.game a))) eqn:Hb.
    + left. by rewrite shoot_busy.
    + right. destruct (shoot_spec H (App.game a) Hb) as (K1 & _ & _ & K4 & _ & _ & _ & _ & K9 & _).
      rewrite K1, K4, K9. repeat split; try done. by right.
  - left. apply (Hev Game.Pause). discriminate.
  - left. apply (Hev Game.Resume). discriminate.
  - left. destruct (App.phase a); [|done]. apply (Hev Game.Start). discriminate.
  - left. apply (Hev (Game.Run n)). discriminate.
Qed.

(** X17: whatever reaches the page, the shot counter moves by at most one,
    and it moves only on a camera frame or on the space key, only outside
    the cooldown, and only with the game in the gun pose afterwards: the
    space key cannot fire without the gun pose, and neither a timer, nor a
    rendered frame, nor hiding or showing the tab ever counts a shot. *)
Theorem shots_need_gun_pose (H : Game.Host) (a : App.App) (i : App.Input) :
  (Game.shots (Game.state (App.game (App.step H a i)))
   = Game.shots (Game.state (App.game a))
   \/ (Game.shots (Game.state (App.game (App.step H a i)))
       = (Game.shots (Game.state (App.game a)) + 1)%Z
       /\ Game.isGunPose (Game.state (App.game (App.step H a i))) = true
       /\ Game.isShooting (Game.state (App.game a)) = false
       /\ Game.isShooting (Game.state (App.game (App.step H a i))) = true
       /\ ((exists r, i = App.Results r) \/ i = App.KeySpace)))
  /\ (Game.isGunPose (Game.state (App.game a)) = false ->
      App.step H a App.KeySpace = a).
Proof.
  split; [apply app_step_shots|].
  intros Hg. cbn [App.step]. unfold App.keySpace. by rewrite Hg.
Qed.

(* ------------------------------------------------------------------ *)
(** ** Placing and moving discs *)

Section PlacementFacts.

Import Game.

Context (H : Host).


End PlacementFacts.


Lemma SFltb_asym a b : SFltb a b = true -> SFltb b a = false.
Proof. intros Hab. by apply SFleb_not_gt, SFltb_leb. Qed.

(** [Math.min] and [Math.max] of two numbers. *)
Lemma Math_min_spec (a b : number) :
  is_nan a = false -> is_nan b = false ->
  (Math_min a b = a \/ Math_min a b = b)
  /\ lt a (Math_min a b) = false /\ lt b (Math_min a b) = false.
Proof.
  intros Ha Hb. unfold Math_min, lt. rewrite Ha, Hb. cbn [orb].
  destruct (a <? b)%float eqn:Hab.
  - split; [by left|]. rewrite !ltb_spec in *. split; [apply SFltb_irreflexive|].
    by apply SFltb_asym.
  - destruct (b <? a)%float eqn:Hba.
    + split; [by right|]. rewrite !ltb_spec in *. split; [done | apply SFltb_irreflexive].
    + destruct (get_sign a); (split; [auto|]); split; rewrite ?Hab, ?Hba; try done;
        rewrite ltb_spec; apply SFltb_irreflexive.
Qed.

Lemma Math_max_spec (a b : number) :
  is_nan a = false -> is_nan b = false ->
  (Math_max a b = a \/ Math_max a b = b)
  /\ lt (Math_max a b) a = false /\ lt (Math_max a b) b = false.
Proof.
  intros Ha Hb. unfold Math_max, lt. rewrite Ha, Hb. cbn [orb].
  destruct (a <? b)%float eqn:Hab.
  - split; [by right|]. rewrite !ltb_spec in *. split; [|apply SFltb_irreflexive].
    by apply SFltb_asym.
  - destruct (b <? a)%float eqn:Hba.
    + split; [by left|]. rewrite !ltb_spec in *. split; [apply SFltb_irreflexive | done].
    + destruct (get_sign a); (split; [auto|]); split; rewrite ?Hab, ?Hba; try done;
        rewrite ltb_spec; apply SFltb_irreflexive.
Qed.

(** Clamping between two bounds that are numbers, the lower not above the
    upper. *)
Lemma clamp_between (lo hi v : number) :
  is_nan lo = false -> is_nan hi = false -> lt hi lo = false ->
  lt (Math_max lo (Math_min hi v)) lo = false
  /\ gt (Math_max lo (Math_min hi v)) hi = false.
Proof.
  intros Hlo Hhi Hord. destruct (is_nan v) eqn:Hv.
  - assert (Hm : Math_min hi v = nan) by (unfold Math_min; by rewrite Hv, orb_true_r).
    rewrite Hm. assert (Hx : Math_max lo nan = nan) by (unfold Math_max; by rewrite orb_true_r).
    rewrite Hx. unfold lt, gt. rewrite !ltb_spec.
    change (Prim2SF nan) with S754_nan. split; [reflexivity|].
    unfold SFltb, SFcompare. by destruct (Prim2SF hi).
  - destruct (Math_min_spec hi v Hhi Hv) as (Hm & Hm1 & _).
    assert (Hmn : is_nan (Math_min hi v) = false) by (by destruct Hm as [-> | ->]).
    destruct (Math_max_spec lo (Math_min hi v) Hlo Hmn) as (Hx & Hx1 & _).
    split; [exact Hx1|]. unfold gt. by destruct Hx as [-> | ->].
Qed.

(** X19: one pass of the disc loop never leaves a disc's drift origin
    outside the play area: after the age-independent part of the loop body
    the origin is not left of [minX], not right of [maxX], not below
    [minY] and not above [maxY] (an origin that left the area is clamped
    onto the border and the velocity component is reversed); and a scale
    that is not above 1 is never raised above 1. *)
Theorem drift_stays_inside (H : Game.Host) (now : Z) (d : Game.Disc) :
  let d' := Game.moved H now d in
  lt (Game.originX d') Game.minX = false /\ gt (Game.originX d') Game.maxX = false
  /\ lt (Game.originY d') Game.minY = false /\ gt (Game.originY d') Game.maxY = false
  /\ (gt (Game.scale d) 1 = false -> gt (Game.scale d') 1 = false)
  /\ (lt (Game.originX d + Game.velX d)%float Game.minX
      || gt (Game.originX d + Game.velX d)%float Game.maxX = true ->
      Game.velX d' = (Game.velX d * -1)%float)
  /\ (lt (Game.originY d + Game.velY d)%float Game.minY
      || gt (Game.originY d + Game.velY d)%float Game.maxY = true ->
      Game.velY d' = (Game.velY d * -1)%float).
Proof.
  cbv zeta. unfold Game.moved.
  set (d1 := Game.floatAndDrift H now d).
  assert (Hox : Game.originX d1 = (Game.originX d + Game.velX d)%float) by reflexivity.
  assert (Hoy : Game.originY d1 = (Game.originY d + Game.velY d)%float) by reflexivity.
  assert (Hvx : Game.velX d1 = Game.velX d) by reflexivity.
  assert (Hvy : Game.velY d1 = Game.velY d) by reflexivity.
  assert (Hsc : Game.scale d1
                = if lt (Game.scale d) 1 then Math_min 1 (Game.scale d + 0.05)%float
                  else Game.scale d) by reflexivity.
  rewrite <- Hox, <- Hoy, <- Hvx, <- Hvy. clearbody d1.
  destruct (clamp_between Game.minX Game.maxX (Game.originX d1)) as (Cx1 & Cx2); try done.
  destruct (clamp_between Game.minY Game.maxY (Game.originY d1)) as (Cy1 & Cy2); try done.
  assert (Hs : gt (Game.scale d) 1 = false -> gt (Game.scale d1) 1 = false).
  { intros Hle. rewrite Hsc. destruct (lt (Game.scale d) 1); [|done].
    destruct (is_nan (Game.scale d + 0.05)%float) eqn:Hn.
    - unfold Math_min. by rewrite Hn, orb_true_r.
    - by destruct (Math_min_spec 1 (Game.scale d + 0.05)%float eq_refl Hn) as (_ & ? & _). }
  unfold Game.bounceY, Game.bounceX.
  destruct (lt (Game.originX d1) Game.minX || gt (Game.originX d1) Game.maxX) eqn:Hbx;
    cbn [Game.originX Game.originY Game.velX Game.velY Game.scale];
    destruct (lt (Game.originY d1) Game.minY || gt (Game.originY d1) Game.maxY) eqn:Hby;
    cbn [Game.originX Game.originY Game.velX Game.velY Game.scale];
    try apply orb_false_iff in Hbx as [? ?]; try apply orb_false_iff in Hby as [? ?];
    repeat split; try done.
Qed.

(* ------------------------------------------------------------------ *)
(** ** Tracker and game stay in step *)

(** Only the two gesture callbacks write the gun pose flag and the aim
    point of the game. *)
Lemma step_keeps_aim (H : Game.Host) (g : Game.Game) (e : Game.Event) :
  (forall gs, e <> Game.Gesture gs) -> e <> Game.GestureLost ->
  Game.isGunPose (Game.state (Game.step H g e)) = Game.isGunPose (Game.state g)
  /\ Game.targetX (Game.state (Game.step H g e)) = Game.targetX (Game.state g)
  /\ Game.targetY (Game.state (Game.step H g e)) = Game.targetY (Game.state g).
Proof.
  assert (Hloop : forall g0,
            Game.isGunPose (Game.state (Game.gameLoop H g0)) = Game.isGunPose (Game.state g0)
            /\ Game.targetX (Game.state (Game.gameLoop H g0)) = Game.targetX (Game.state g0)
            /\ Game.targetY (Game.state (Game.gameLoop H g0)) = Game.targetY (Game.state g0)).
  { intros g0. unfold Game.gameLoop. destruct (Game.running (Game.state g0)); [|done].
    destruct (update_keeps H (Game.setTimeout Game.AnimationFrame g0))
      as (_ & _ & _ & _ & _ & _ & -> & -> & -> & _). done. }
  intros Hne Hnl. destruct e as [| | |gs| |n]; cbn [Game.step]; try done.
  - unfold Game.start.
    match goal with |- context [fold_left ?f ?l ?g0] =>
      destruct (start_timers_keep l g0) as (Hs & _);
      destruct (Hloop (fold_left f l g0)) as (-> & -> & ->); rewrite Hs end.
    cbn. by destruct (Game.state g).
  - unfold Game.resume. destruct (Game.running (Game.state g)); [done|].
    match goal with |- context [Game.gameLoop H ?g0] =>
      destruct (Hloop g0) as (-> & -> & ->) end.
    cbn. by destruct (Game.state g).
  - by destruct (Hne gs).
  - destruct (Game.tasks g !! n) as [t|]; [|done].
    destruct t; cbn [Game.runTask]; try done.
    + by rewrite inReg_state.
    + destruct (_ <? _)%nat; [|done]. by rewrite inReg_state.
    + match goal with |- context [Game.gameLoop H ?g0] =>
        destruct (Hloop g0) as (-> & -> & ->) end. done.
Qed.

Lemma app_step_sync (H : Game.Host) (a : App.App) (i : App.Input) :
  Game.isGunPose (Game.state (App.game a))
  = HandTracker.isGunPose (HandTracker.gestureState (App.tracker a))
  /\ HandTracker.fingerTip (HandTracker.gestureState (App.tracker a))
     = HandTracker.smoothedPosition (App.tracker a)
  /\ (Game.isGunPose (Game.state (App.game a)) = true ->
      Game.targetX (Game.state (App.game a))
      = (HandTracker.px (HandTracker.smoothedPosition (App.tracker a))
         * Game.innerWidth H)%float
      /\ Game.targetY (Game.state (App.game a))
         = (HandTracker.py (HandTracker.smoothedPosition (App.tracker a))
            * Game.innerHeight H)%float) ->
  Game.isGunPose (Game.state (App.game (App.step H a i)))
  = HandTracker.isGunPose (HandTracker.gestureState (App.tracker (App.step H a i)))
  /\ HandTracker.fingerTip (HandTracker.gestureState (App.tracker (App.step H a i)))
     = HandTracker.smoothedPosition (App.tracker (App.step H a i))
  /\ (Game.isGunPose (Game.state (App.game (App.step H a i))) = true ->
      Game.targetX (Game.state (App.game (App.step H a i)))
      = (HandTracker.px (HandTracker.smoothedPosition (App.tracker (App.step H a i)))
         * Game.innerWidth H)%float
      /\ Game.targetY (Game.state (App.game (App.step H a i)))
         = (HandTracker.py (HandTracker.smoothedPosition (App.tracker (App.step H a i)))
            * Game.innerHeight H)%float).
Proof.
  intros (Hg & Hf & Ht).
  assert (Hev : forall e, (forall gs, e <> Game.Gesture gs) -> e <> Game.GestureLost ->
            forall p,
            let a' := App.mkApp (App.tracker a) (Game.step H (App.game a) e) p in
            Game.isGunPose (Game.state (App.game a'))
            = HandTracker.isGunPose (HandTracker.gestureState (App.tracker a'))
            /\ HandTracker.fingerTip (HandTracker.gestureState (App.tracker a'))
               = HandTracker.smoothedPosition (App.tracker a')
            /\ (Game.isGunPose (Game.state (App.game a')) = true ->
                Game.targetX (Game.state (App.game a'))
                = (HandTracker.px (HandTracker.smoothedPosition (App.tracker a'))
                   * Game.innerWidth H)%float
                /\ Game.targetY (Game.state (App.game a'))
                   = (HandTracker.py (HandTracker.smoothedPosition (App.tracker a'))
                      * Game.innerHeight H)%float)).
  { intros e He Hl p. cbv zeta. cbn [App.game App.tracker].
    destruct (step_keeps_aim H (App.game a) e He Hl) as (-> & -> & ->). done. }
  destruct i as [r| | | | |n]; cbn [App.step].
  - unfold App.onResults, HandTracker.processResults.
    destruct r as [[|f others]|].
    + cbn [App.game App.tracker App.dispatch]. split; [reflexivity|]. split; [exact Hf|].
      cbn. by destruct (Game.state (App.game a)).
    + destruct (HandTracker.analyse f) as [v|]; cbn [App.game App.tracker App.dispatch];
        [|done].
      match goal with |- context [Game.updateGesture H ?gs0 ?g0] =>
        destruct (updateGesture_spec H gs0 g0) as (_ & _ & _ & Kg & _);
        destruct (updateGesture_aim H gs0 g0) as (Kx & Ky) end.
      cbn [HandTracker.isGunPose HandTracker.fingerTip HandTracker.gestureState
           HandTracker.smoothedPosition] in *.
      rewrite Kg, Kx, Ky. split; [reflexivity|]. split; [reflexivity|].
      by intros ->.
    + cbn [App.game App.tracker App.dispatch]. split; [reflexivity|]. split; [exact Hf|].
      cbn. by destruct (Game.state (App.game a)).
  - unfold App.keySpace. destruct (Game.isGunPose (Game.state (App.game a))) eqn:Hgun;
      [|by rewrite Hgun].
    cbn [App.game App.tracker].
    destruct (shoot_aim H (App.game a)) as (-> & ->).
    assert (Hk : Game.isGunPose (Game.state (Game.shoot H (App.game a)))
                 = Game.isGunPose (Game.state (App.game a))).
    { destruct (Game.isShooting (Game.state (App.game a))) eqn:Hb;
        [by rewrite shoot_busy|].
      by destruct (shoot_spec H (App.game a) Hb) as (_ & _ & _ & _ & _ & _ & _ & _ & K9 & _). }
    rewrite Hk, Hgun. split; [exact Hg|]. split; [exact Hf | exact Ht].
  - apply (Hev Game.Pause); discriminate.
  - apply (Hev Game.Resume); discriminate.
  - destruct (App.phase a); [|done]. apply (Hev Game.Start); discriminate.
  - apply (Hev (Game.Run n)); discriminate.
Qed.

(** X20: in every state the page can reach, the game's gun pose flag is
    the one the tracker last published, the published fingertip is the
    tracker's smoothed position, and while the gun pose is on, the aim point
    of the game is exactly that fingertip scaled to the window: no timer,
    rendered frame, shot, key press or visibility change moves the aim
    point or the flag. *)
Theorem tracker_game_in_sync (H : Game.Host) (a : App.App) :
  App.reachable H a ->
  Game.isGunPose (Game.state (App.game a))
  = HandTracker.isGunPose (HandTracker.gestureState (App.tracker a))
  /\ HandTracker.fingerTip (HandTracker.gestureState (App.tracker a))
     = HandTracker.smoothedPosition (App.tracker a)
  /\ (Game.isGunPose (Game.state (App.game a)) = true ->
      Game.targetX (Game.state (App.game a))
      = (HandTracker.px (HandTracker.smoothedPosition (App.tracker a))
         * Game.innerWidth H)%float
      /\ Game.targetY (Game.state (App.game a))
         = (HandTracker.py (HandTracker.smoothedPosition (App.tracker a))
            * Game.innerHeight H)%float).
Proof.
  induction 1 as [|a i _ IH]; [|by apply app_step_sync].
  split; [reflexivity|]. split; [reflexivity|]. cbn. discriminate.
Qed.

Lemma tracker_game_in_sync_witness :
  App.reachable Samples.sampleHost
    (App.run Samples.sampleHost (App.boot Samples.sampleHost) AppSamples.session)
  /\ Game.isGunPose (Game.state (App.game
       (App.run Samples.sampleHost (App.boot Samples.sampleHost) AppSamples.session)))
     = HandTracker.isGunPose (HandTracker.gestureState (App.tracker
         (App.run Samples.sampleHost (App.boot Samples.sampleHost) AppSamples.session))).
Proof.
  split; [apply app_run_reachable, App.reach_boot|].
  pose proof (tracker_game_in_sync Samples.sampleHost
                (App.run Samples.sampleHost (App.boot Samples.sampleHost) AppSamples.session)
                (app_run_reachable _ _ _ (App.reach_boot _))) as (Hs & _).
  exact Hs.
Defined.

(* ------------------------------------------------------------------ *)
(** ** Discs leave only when hit; the display with keyboard shots *)

Lemma removeFirst_shrinks (i : nat) (l : list nat) :
  (length l <= S (length (Game.removeFirst i l)))%nat.
Proof.
  induction l as [|j l IH]; cbn [Game.removeFirst length]; [lia|].
  destruct (Nat.eqb i j); cbn [length]; lia.
Qed.

Lemma shoot_discs (H : Game.Host) (g : Game.Game) :
  (0 <= Game.hits (Game.state (Game.shoot H g)) - Game.hits (Game.state g) <= 1)%Z
  /\ (Z.of_nat (length (Game.discs (Game.reg g)))
      <= Z.of_nat (length (Game.discs (Game.reg (Game.shoot H g))))
         + (Game.hits (Game.state (Game.shoot H g)) - Game.hits (Game.state g)))%Z.
Proof.
  destruct (Game.isShooting (Game.state g)) eqn:Hb; [rewrite shoot_busy by done; lia|].
  destruct (shoot_books H g Hb) as (_ & _ & _ & _ & K).
  destruct (Game.lockedTarget (Game.state g)) as [disc|].
  - destruct K as (-> & _ & _ & _ & _ & -> & _).
    cbn [Game.exec Game.removeDisc Game.Date_now snd Game.discs].
    pose proof (removeFirst_shrinks disc (Game.discs (Game.reg g))). lia.
  - destruct K as (-> & _ & _ & _ & _ & -> & _). lia.
Qed.

Lemma updateGesture_discs (H : Game.Host) (gs : HandTracker.GestureState) (g : Game.Game) :
  (0 <= Game.hits (Game.state (Game.updateGesture H gs g)) - Game.hits (Game.state g) <= 1)%Z
  /\ (Z.of_nat (length (Game.discs (Game.reg g)))
      <= Z.of_nat (length (Game.discs (Game.reg (Game.updateGesture H gs g))))
         + (Game.hits (Game.state (Game.updateGesture H gs g)) - Game.hits (Game.state g)))%Z.
Proof.
  unfold Game.updateGesture. destruct (HandTracker.isGunPose gs).
  - match goal with |- context [Game.triggerEdge ?b ?s] => destruct (Game.triggerEdge b s) end.
    + match goal with |- context [Game.shoot H ?g0] =>
        pose proof (shoot_discs H g0) as Hs; set (g1 := Game.shoot H g0) in * end.
      cbn [Game.with_state Game.state Game.reg] in *.
      assert (Hh : Game.hits (Game.set_wasThumbUp (HandTracker.isThumbUp gs) (Game.state g1))
                   = Game.hits (Game.state g1)) by (by destruct (Game.state g1)).
      assert (Hh0 : Game.hits (Game.set_targetY
                       (HandTracker.py (HandTracker.fingerTip gs) * Game.innerHeight H)
                       (Game.set_targetX
                          (HandTracker.px (HandTracker.fingerTip gs) * Game.innerWidth H)
                          (Game.set_isGunPose true (Game.state g))))
                    = Game.hits (Game.state g)) by (by destruct (Game.state g)).
      rewrite Hh. rewrite Hh0 in Hs. exact Hs.
    + cbn. destruct (Game.state g); cbn. lia.
  - cbn. destruct (Game.state g); cbn. lia.
Qed.

Lemma gameLoop_discs (H : Game.Host) (g : Game.Game) :
  Game.hits (Game.state (Game.gameLoop H g)) = Game.hits (Game.state g)
  /\ (length (Game.discs (Game.reg g))
      <= length (Game.discs (Game.reg (Game.gameLoop H g))))%nat.
Proof.
  unfold Game.gameLoop. destruct (Game.running (Game.state g)); [|done].
  destruct (update_keeps H (Game.setTimeout Game.AnimationFrame g)) as (_ & -> & _).
  rewrite update_discs_length. cbn. split; [done | lia].
Qed.

Lemma createDisc_discs (H : Game.Host) (g : Game.Game) :
  Game.hits (Game.state (snd (Game.inReg (Game.createDisc H) g))) = Game.hits (Game.state g)
  /\ (length (Game.discs (Game.reg g))
      <= length (Game.discs (Game.reg (snd (Game.inReg (Game.createDisc H) g)))))%nat.
Proof.
  rewrite inReg_state. split; [done|]. unfold Game.inReg.
  pose proof (createDisc_length H (Game.reg g)) as Hl. unfold Game.exec in Hl.
  destruct (Game.createDisc H (Game.reg g)) as [i r1]. cbn in *. lia.
Qed.

(** X21: discs leave the registry only by being hit.  Whatever input
    reaches the page, the hit counter grows by 0 or 1, and the number of
    discs in [this.discs] drops by at most that much: a camera frame or the
    space key removes at most one disc and only together with a counted
    hit, and no timer, rendered frame, start, hiding or showing of the tab
    ever removes a disc. *)
Theorem discs_leave_only_by_hits (H : Game.Host) (a : App.App) (i : App.Input) :
  (0 <= Game.hits (Game.state (App.game (App.step H a i)))
        - Game.hits (Game.state (App.game a)) <= 1)%Z
  /\ (Z.of_nat (length (Game.discs (Game.reg (App.game a))))
      <= Z.of_nat (length (Game.discs (Game.reg (App.game (App.step H a i)))))
         + (Game.hits (Game.state (App.game (App.step H a i)))
            - Game.hits (Game.state (App.game a))))%Z
  /\ ((forall r, i <> App.Results r) -> i <> App.KeySpace ->
      Game.hits (Game.state (App.game (App.step H a i)))
      = Game.hits (Game.state (App.game a))
      /\ (length (Game.discs (Game.reg (App.game a)))
          <= length (Game.discs (Game.reg (App.game (App.step H a i)))))%nat).
Proof.
  assert (Hquiet : (forall r, i <> App.Results r) -> i <> App.KeySpace ->
            Game.hits (Game.state (App.game (App.step H a i)))
            = Game.hits (Game.state (App.game a))
            /\ (length (Game.discs (Game.reg (App.game a)))
                <= length (Game.discs (Game.reg (App.game (App.step H a i)))))%nat).
  { intros Hr Hk. destruct i as [r| | | | |n]; cbn [App.step App.game].
    - by destruct (Hr r).
    - done.
    - cbn. by destruct (Game.state (App.game a)).
    - unfold Game.resume. destruct (Game.running (Game.state (App.game a))); [done|].
      match goal with |- context [Game.gameLoop H ?g0] =>
        destruct (gameLoop_discs H g0) as (-> & Hl) end.
      split; [cbn; by destruct (Game.state (App.game a)) | exact Hl].
    - destruct (App.phase a); [|done]. cbn [App.game]. unfold Game.start.
      match goal with |- context [fold_left ?f ?l ?g0] =>
        destruct (start_timers_keep l g0) as (Hs & Hreg & _);
        destruct (gameLoop_discs H (fold_left f l g0)) as (-> & Hl) end.
      rewrite Hreg in Hl. rewrite Hs.
      split; [cbn; by destruct (Game.state (App.game a)) | exact Hl].
    - cbn [Game.step]. destruct (Game.tasks (App.game a) !! n) as [t|]; [|done].
      destruct t; cbn [Game.runTask].
      + apply (createDisc_discs H (Game.with_tasks _ (App.game a))).
      + destruct (_ <? _)%nat; [|done].
        apply (createDisc_discs H (Game.with_tasks _ (App.game a))).
      + cbn. by destruct (Game.state (App.game a)).
      + apply (gameLoop_discs H (Game.with_tasks _ (App.game a))). }
  split; [|split; [|exact Hquiet]].
  - destruct i as [r| | | | |n];
      try (destruct Hquiet as (-> & _); [discriminate | discriminate | lia]).
    + cbn [App.step]. unfold App.onResults.
      destruct (HandTracker.processResults (App.tracker a) r) as [t [|gs lms]|t];
        cbn [App.game App.dispatch]; try lia.
      * cbn. destruct (Game.state (App.game a)); cbn. lia.
      * apply updateGesture_discs.
    + cbn [App.step]. unfold App.keySpace. destruct (Game.isGunPose _); [|lia].
      apply shoot_discs.
  - destruct i as [r| | | | |n];
      try (destruct Hquiet as (-> & Hl); [discriminate | discriminate | lia]).
    + cbn [App.step]. unfold App.onResults.
      destruct (HandTracker.processResults (App.tracker a) r) as [t [|gs lms]|t];
        cbn [App.game App.dispatch]; try lia.
      * cbn. destruct (Game.state (App.game a)); cbn. lia.
      * apply updateGesture_discs.
    + cbn [App.step]. unfold App.keySpace. destruct (Game.isGunPose _); [|lia].
      apply shoot_discs.
Qed.

Lemma app_reachable_session (H : Game.Host) (a : App.App) :
  App.reachable H a -> Invariants.sessionOk (App.game a).
Proof.
  induction 1 as [|a i _ IH].
  - unfold Invariants.sessionOk, Invariants.shown. cbn. repeat split; lia.
  - destruct i as [r| | | | |n]; cbn [App.step App.game].
    + unfold App.onResults.
      destruct (HandTracker.processResults (App.tracker a) r) as [t [|gs lms]|t];
        cbn [App.game App.dispatch]; [|by apply updateGesture_sessionOk|done].
      by apply (step_sessionOk H (App.game a) Game.GestureLost).
    + unfold App.keySpace. destruct (Game.isGunPose _); [|done].
      by apply shoot_sessionOk.
    + by apply (step_sessionOk H (App.game a) Game.Pause).
    + by apply (step_sessionOk H (App.game a) Game.Resume).
    + destruct (App.phase a); [|done].
      by apply (step_sessionOk H (App.game a) Game.Start).
    + by apply (step_sessionOk H (App.game a) (Game.Run n)).
Qed.

(** X22: shots fired with the space key are counted like gesture shots.
    In every state the page can reach, keyboard shots included,
    [0 <= hits <= shots], the accuracy display still shows its initial text
    while no shot was fired and afterwards shows [Math.round] of
    [(hits / shots) * 100], which below 40 shots is the exactly rounded
    percentage. *)
Theorem accuracy_with_keyboard (H : Game.Host) (a : App.App) :
  App.reachable H a ->
  (0 <= Game.hits (Game.state (App.game a)) <= Game.shots (Game.state (App.game a)))%Z
  /\ Game.accuracy (App.game a)
     = (if (Game.shots (Game.state (App.game a)) =? 0)%Z then None
        else Some (Math_round (ofZ (Game.hits (Game.state (App.game a)))
                               / ofZ (Game.shots (Game.state (App.game a))) * 100)%float))
  /\ ((0 < Game.shots (Game.state (App.game a)) < 40)%Z ->
      Game.accuracy (App.game a)
      = Some (ofZ (Invariants.exactPercent (Game.hits (Game.state (App.game a)))
                                           (Game.shots (Game.state (App.game a)))))).
Proof.
  intros Ha. destruct (app_reachable_session H a Ha) as (_ & Hh & Hacc).
  unfold Invariants.shown in Hacc. split; [exact Hh|]. split; [exact Hacc|].
  intros Hs. rewrite Hacc.
  destruct (Z.eqb_spec (Game.shots (Game.state (App.game a))) 0); [lia|].
  f_equal. by apply percent_exact_below_40.
Qed.

Lemma accuracy_with_keyboard_witness :
  App.reachable Samples.sampleHost
    (App.run Samples.sampleHost (App.boot Samples.sampleHost) AppSamples.session)
  /\ (0 <= Game.hits (Game.state (App.game
             (App.run Samples.sampleHost (App.boot Samples.sampleHost) AppSamples.session)))
      <= Game.shots (Game.state (App.game
             (App.run Samples.sampleHost (App.boot Samples.sampleHost) AppSamples.session))))%Z.
Proof.
  split; [apply app_run_reachable, App.reach_boot|].
  pose proof (accuracy_with_keyboard Samples.sampleHost
                (App.run Samples.sampleHost (App.boot Samples.sampleHost) AppSamples.session)
                (app_run_reachable _ _ _ (App.reach_boot _))) as (Hh & _).
  exact Hh.
Defined.

(* ------------------------------------------------------------------ *)
(** ** The combo state machine *)

Section ComboFacts.

Import Game Invariants.

Context (H : Host).

(** A step that leaves the four session counters alone. *)
Lemma comboMove_quiet (now : Z) (g g' : Game) :
  shots (state g') = shots (state g) -> hits (state g') = hits (state g) ->
  combo (state g') = combo (state g) ->
  lastHitTime (state g') = lastHitTime (state g) ->
  comboMove now g g'.
Proof. intros. left. done. Qed.

(** A move between two states is a move between any two states with the
    same counters. *)
Lemma comboMove_transfer (now : Z) (g0 g0' g g' : Game) :
  comboMove now g0 g0' ->
  shots (state g0) = shots (state g) -> hits (state g0) = hits (state g) ->
  combo (state g0) = combo (state g) ->
  lastHitTime (state g0) = lastHitTime (state g) ->
  shots (state g') = shots (state g0') -> hits (state g') = hits (state g0') ->
  combo (state g') = combo (state g0') ->
  lastHitTime (state g') = lastHitTime (state g0') ->
  comboMove now g g'.
Proof.
  unfold comboMove. intros Hm <- <- <- <- -> -> -> ->. exact Hm.
Qed.

(** The time of the last hit after a call of [shoot()] that is let
    through. *)
Lemma shoot_lastHitTime (g : Game) :
  isShooting (state g) = false ->
  lastHitTime (state (shoot H g))
  = match lockedTarget (state g) with
    | Some _ => clock H (nclock (reg g))
    | None => lastHitTime (state g)
    end.
Proof.
  intros Hidle. unfold shoot. rewrite Hidle.
  set (g1 := play PlayShoot _).
  assert (Hlk : lockedTarget (state g1) = lockedTarget (state g)) by reflexivity.
  assert (Hlh : lastHitTime (state g1) = lastHitTime (state g)) by reflexivity.
  assert (Hr : reg g1 = reg g) by reflexivity.
  rewrite Hlk.
  set (g2 := match lockedTarget (state g) with
             | Some disc => hitTarget H disc g1
             | None => miss g1
             end).
  destruct (updateAccuracy_spec g2) as (Hus & _).
  cbn [setTimeout with_tasks state]. rewrite Hus. subst g2.
  destruct (lockedTarget (state g)) as [disc|].
  - destruct (hitTarget_spec H disc g1) as (_ & _ & _ & -> & _). by rewrite Hr.
  - rewrite <- Hlh. unfold miss, play. cbn [with_state with_sounds state].
    by destruct (state g1).
Qed.

(** [shoot()] is a move of the combo state machine. *)
Lemma shoot_comboMove (g : Game) :
  comboMove (clock H (nclock (reg g))) g (shoot H g).
Proof.
  destruct (isShooting (state g)) eqn:Hb.
  - rewrite shoot_busy by done. by left.
  - destruct (shoot_spec H g Hb) as (K1 & K2 & K3 & _).
    pose proof (shoot_lastHitTime g Hb) as K4.
    destruct (lockedTarget (state g)) as [disc|].
    + right; right. rewrite K1, K2, K3, K4. done.
    + right; left. rewrite K1, K2, K3, K4. repeat split. lia.
Qed.

Lemma gameLoop_counters (g : Game) :
  shots (state (gameLoop H g)) = shots (state g)
  /\ hits (state (gameLoop H g)) = hits (state g)
  /\ combo (state (gameLoop H g)) = combo (state g)
  /\ lastHitTime (state (gameLoop H g)) = lastHitTime (state g).
Proof.
  unfold gameLoop. destruct (running (state g)); [|done].
  destruct (update_keeps H (setTimeout AnimationFrame g)) as (-> & -> & -> & _).
  destruct (update_books H (setTimeout AnimationFrame g)) as (_ & _ & -> & _).
  done.
Qed.

Lemma updateGesture_comboMove (gs : HandTracker.GestureState) (g : Game) :
  comboMove (clock H (nclock (reg g))) g (updateGesture H gs g).
Proof.
  unfold updateGesture. destruct (HandTracker.isGunPose gs).
  - match goal with |- context [shoot H ?g0] => set (g1 := g0) end.
    destruct (triggerEdge _ _).
    + apply (comboMove_transfer _ g1 (shoot H g1)).
      * apply (shoot_comboMove g1).
      * subst g1. cbn [state with_state]. by destruct (state g).
      * subst g1. cbn [state with_state]. by destruct (state g).
      * subst g1. cbn [state with_state]. by destruct (state g).
      * subst g1. cbn [state with_state]. by destruct (state g).
      * cbn [state with_state]. by destruct (state (shoot H g1)).
      * cbn [state with_state]. by destruct (state (shoot H g1)).
      * cbn [state with_state]. by destruct (state (shoot H g1)).
      * cbn [state with_state]. by destruct (state (shoot H g1)).
    + subst g1. apply comboMove_quiet; cbn [state with_state]; by destruct (state g).
  - apply comboMove_quiet; cbn [state with_state]; by destruct (state g).
Qed.

(** Every event of a session is a move of the combo state machine. *)
Lemma step_comboMove (g : Game) (e : Event) :
  comboMove (clock H (nclock (reg g))) g (step H g e).
Proof.
  destruct e as [| | |gs| |n]; cbn [step].
  - unfold start.
    match goal with |- context [fold_left ?f ?l ?g0] =>
      destruct (start_timers_keep l g0) as (Hs & _);
      destruct (gameLoop_counters (fold_left f l g0)) as (K1 & K2 & K3 & K4) end.
    apply comboMove_quiet; rewrite ?K1, ?K2, ?K3, ?K4, Hs;
      cbn [state with_state]; by destruct (state g).
  - apply comboMove_quiet; unfold pause; cbn [state with_state]; by destruct (state g).
  - unfold resume. destruct (running (state g)); [by left|].
    match goal with |- context [gameLoop H ?g0] =>
      destruct (gameLoop_counters g0) as (K1 & K2 & K3 & K4) end.
    apply comboMove_quiet; rewrite ?K1, ?K2, ?K3, ?K4;
      cbn [state with_state]; by destruct (state g).
  - apply updateGesture_comboMove.
  - apply comboMove_quiet; unfold onGestureLost; cbn [state with_state];
      by destruct (state g).
  - destruct (tasks g !! n) as [t|]; [|by left].
    destruct t; cbn [runTask].
    + apply comboMove_quiet; by rewrite inReg_state.
    + destruct (_ <? _)%nat; [|by left].
      apply comboMove_quiet; by rewrite inReg_state.
    + apply comboMove_quiet; cbn [state with_state with_tasks]; by destruct (state g).
    + match goal with |- context [gameLoop H ?g0] =>
        destruct (gameLoop_counters g0) as (K1 & K2 & K3 & K4) end.
      apply comboMove_quiet; by rewrite ?K1, ?K2, ?K3, ?K4.
Qed.

(** So is every input of the page, the space key included. *)
Lemma app_step_comboMove (a : App.App) (i : App.Input) :
  comboMove (clock H (nclock (reg (App.game a)))) (App.game a)
            (App.game (App.step H a i)).
Proof.
  destruct i as [r| | | | |n]; cbn [App.step].
  - unfold App.onResults.
    destruct (HandTracker.processResults (App.tracker a) r) as [t' cb|t'];
      cbn [App.game]; [|by left].
    destruct cb as [|gs lms]; cbn [App.dispatch].
    + apply (step_comboMove (App.game a) GestureLost).
    + apply updateGesture_comboMove.
  - unfold App.keySpace. destruct (isGunPose (state (App.game a))); [|by left].
    apply shoot_comboMove.
  - apply (step_comboMove (App.game a) Pause).
  - apply (step_comboMove (App.game a) Resume).
  - destruct (App.phase a); [|by left].
    apply (step_comboMove (App.game a) Start).
  - apply (step_comboMove (App.game a) (Run n)).
Qed.

End ComboFacts.

(** C1: in every state of a session the combo lies in [1,10].  A hit at
    time [now] (the reading of [Date.now()]) stores [now] as the time of the
    last hit and sets the combo to [min(combo+1, 10)] when [now] minus the
    stored time of the previous hit is below the combo timeout of 2000 ms and
    to 1 otherwise; a miss sets the combo to 1 and keeps the stored time; a
    shot that is let through does the one or the other according to whether
    a target is locked.  Every event of a session, and every input of the
    page (the space key included), either keeps shots, hits, combo and the
    stored time, or is such a miss, or is such a hit: the stored time is the
    time of the previous hit, and 0 before the first one. *)
Theorem combo_state_machine (H : Game.Host) (g : Game.Game) :
  Game.reachable H g ->
  let now := Game.clock H (Game.nclock (Game.reg g)) in
  (1 <= Game.combo (Game.state g) <= 10)%Z
  /\ (forall disc,
        Game.combo (Game.state (Game.hitTarget H disc g))
        = (if (now - Game.lastHitTime (Game.state g) <? 2000)%Z
           then Z.min (Game.combo (Game.state g) + 1) 10 else 1%Z)
        /\ Game.lastHitTime (Game.state (Game.hitTarget H disc g)) = now)
  /\ Game.combo (Game.state (Game.miss g)) = 1%Z
  /\ Game.lastHitTime (Game.state (Game.miss g)) = Game.lastHitTime (Game.state g)
  /\ (Game.isShooting (Game.state g) = false ->
      Game.combo (Game.state (Game.shoot H g))
      = match Game.lockedTarget (Game.state g) with
        | Some disc => Game.combo (Game.state (Game.hitTarget H disc g))
        | None => 1%Z
        end
      /\ Game.lastHitTime (Game.state (Game.shoot H g))
         = match Game.lockedTarget (Game.state g) with
           | Some _ => now
           | None => Game.lastHitTime (Game.state g)
           end)
  /\ (forall e, 1 <= Game.combo (Game.state (Game.step H g e)) <= 10)%Z
  /\ (forall e, Invariants.comboMove now g (Game.step H g e))
  /\ (forall t p i,
        Invariants.comboMove now g (App.game (App.step H (App.mkApp t g p) i)))
  /\ (forall a, App.reachable H a -> (1 <= Game.combo (Game.state (App.game a)) <= 10)%Z)
  /\ Game.lastHitTime (Game.state (Game.new H)) = 0%Z.
Proof.
  intros Hg now. split; [|split; [|split; [|split; [|split; [|split; [|split; [|split; [|split]]]]]]]].
  - by destruct (reachable_sessionOk H g Hg) as (? & _).
  - intros disc. by destruct (hitTarget_spec H disc g) as (_ & _ & -> & -> & _).
  - reflexivity.
  - unfold Game.miss, Game.play. cbn [Game.state Game.with_state Game.with_sounds].
    by destruct (Game.state g).
  - intros Hidle. split; [|by apply shoot_lastHitTime].
    destruct (shoot_spec H g Hidle) as (_ & _ & -> & _).
    destruct (Game.lockedTarget (Game.state g)) as [disc|]; [|done].
    by destruct (hitTarget_spec H disc g) as (_ & _ & -> & _).
  - intros e.
    by destruct (reachable_sessionOk H _ (Game.reach_step H g e Hg)) as (? & _).
  - intros e. apply step_comboMove.
  - intros t p i. apply (app_step_comboMove H (App.mkApp t g p) i).
  - intros a Ha. by destruct (app_reachable_session H a Ha) as (? & _).
  - reflexivity.
Qed.

(** After a first hit on [sampleHost] a disc is locked again 32 ms after
    that hit: hitting it raises the combo from 1 to 2.  On [slowHost], whose
    clock readings are 3 s apart, the same events lock a disc 24 s after the
    first hit: hitting it leaves the combo at 1.  Either hit stores its own
    time. *)
Lemma combo_state_machine_witness :
  let es := Samples.warmUp ++ Samples.hitRound
            ++ [Game.Gesture (Samples.aimAt 0.5 0.5 true); Game.Run 0] in
  let c1 := Game.run Samples.sampleHost (Game.new Samples.sampleHost) es in
  let c2 := Game.run Samples.slowHost (Game.new Samples.slowHost) es in
  (Game.reachable Samples.sampleHost c1
   /\ Game.combo (Game.state c1) = 1%Z
   /\ Game.lastHitTime (Game.state c1) = 1000160%Z
   /\ Game.lockedTarget (Game.state c1) = Some 1%nat
   /\ Game.combo (Game.state (Game.hitTarget Samples.sampleHost 1 c1)) = 2%Z
   /\ Game.lastHitTime (Game.state (Game.hitTarget Samples.sampleHost 1 c1)) = 1000192%Z
   /\ Game.combo (Game.state (Game.shoot Samples.sampleHost c1)) = 2%Z
   /\ Game.lastHitTime (Game.state (Game.shoot Samples.sampleHost c1)) = 1000192%Z
   /\ Game.combo (Game.state (Game.miss c1)) = 1%Z)
  /\ (Game.reachable Samples.slowHost c2
      /\ Game.combo (Game.state c2) = 1%Z
      /\ Game.lastHitTime (Game.state c2) = 1048000%Z
      /\ Game.lockedTarget (Game.state c2) = Some 1%nat
      /\ Game.combo (Game.state (Game.hitTarget Samples.slowHost 1 c2)) = 1%Z
      /\ Game.lastHitTime (Game.state (Game.hitTarget Samples.slowHost 1 c2)) = 1072000%Z).
Proof.
  intros es c1 c2. split.
  - assert (Hr : Game.reachable Samples.sampleHost c1)
      by apply run_reachable, Game.reach_new.
    pose proof (combo_state_machine Samples.sampleHost c1 Hr) as Hm. cbv zeta in Hm.
    assert (Hc : Game.combo (Game.state c1) = 1%Z) by (vm_compute; reflexivity).
    assert (Hl : Game.lastHitTime (Game.state c1) = 1000160%Z) by (vm_compute; reflexivity).
    assert (Hk : Game.lockedTarget (Game.state c1) = Some 1%nat) by (vm_compute; reflexivity).
    assert (Hi : Game.isShooting (Game.state c1) = false) by (vm_compute; reflexivity).
    assert (Hn : Game.clock Samples.sampleHost (Game.nclock (Game.reg c1)) = 1000192%Z)
      by (vm_compute; reflexivity).
    clearbody c1. clear c2.
    destruct Hm as (_ & Hhit & Hmiss & _ & Hshoot & _).
    destruct (Hhit 1%nat) as (Hh1 & Hh2). destruct (Hshoot Hi) as (Hs1 & Hs2).
    rewrite Hk in Hs1, Hs2. rewrite Hn, Hl, Hc in Hh1. rewrite Hn in Hh2, Hs2.
    rewrite Hh1 in Hs1.
    split; [exact Hr|]. do 3 (split; [assumption|]).
    split; [exact Hh1|]. split; [exact Hh2|]. split; [exact Hs1|].
    split; [exact Hs2 | exact Hmiss].
  - assert (Hr : Game.reachable Samples.slowHost c2)
      by apply run_reachable, Game.reach_new.
    pose proof (combo_state_machine Samples.slowHost c2 Hr) as Hm. cbv zeta in Hm.
    assert (Hc : Game.combo (Game.state c2) = 1%Z) by (vm_compute; reflexivity).
    assert (Hl : Game.lastHitTime (Game.state c2) = 1048000%Z) by (vm_compute; reflexivity).
    assert (Hk : Game.lockedTarget (Game.state c2) = Some 1%nat) by (vm_compute; reflexivity).
    assert (Hn : Game.clock Samples.slowHost (Game.nclock (Game.reg c2)) = 1072000%Z)
      by (vm_compute; reflexivity).
    clearbody c2. clear c1.
    destruct Hm as (_ & Hhit & _).
    destruct (Hhit 1%nat) as (Hh1 & Hh2).
    rewrite Hn, Hl, Hc in Hh1. rewrite Hn in Hh2.
    split; [exact Hr|]. do 3 (split; [assumption|]).
    split; [exact Hh1 | exact Hh2].
Defined.
